(** * PDF chunker and Q&A dataset generator: a shallow embedding

    The development follows the TypeScript sources:
    - [App] (state, [autoSplitPdf], [addChunk], [generateQaForChunk],
      [handleGenerateAllQa], [handleSaveAllQa]),
    - [services/geminiService] ([generateQuestionsAndAnswers]),
    - [components/ChunkManager] ([handleAddChunk]).

    JavaScript numbers that the program only uses as integers (page numbers,
    chunk ids, indices, milliseconds) are [Z].  JavaScript strings are
    [string]s whose characters stand for the code units 0..255; the built-ins
    the program calls on them ([trim], [toLowerCase], [endsWith], [includes],
    [parseInt], [JSON.stringify]) are written out for that range.  React state
    is a record threaded explicitly through every handler; asynchronous
    collaborators (the PDF document, the generation endpoint) are data of the
    model, so that each handler is a function one can run. *)

From Stdlib Require Import ZArith List String Ascii Bool Lia.
From Stdlib Require Import Sorted Permutation DecimalString.
From Equations Require Import Equations.
Import ListNotations.

Local Open Scope string_scope.
Local Open Scope list_scope.
Local Open Scope Z_scope.

(* ===================================================================== *)
(** * JavaScript built-ins used by the program *)
(* ===================================================================== *)

Module Js.

(** [Array.prototype.sort(cmp)]: the sort is stable, so an insertion sort that
    never moves an element past one that compares equal computes the same
    array. *)
Section ArraySort.
Context {A : Type} (cmp : A -> A -> Z).

Fixpoint sort_insert (x : A) (l : list A) : list A :=
  match l with
  | [] => [x]
  | y :: l' => if cmp x y <=? 0 then x :: l else y :: sort_insert x l'
  end.

Definition sort (l : list A) : list A := fold_right sort_insert [] l.
End ArraySort.

(** [Array.prototype.findIndex]: index of the first element satisfying [p],
    [-1] when there is none. *)
Fixpoint findIndex_from {A : Type} (p : A -> bool) (i : Z) (l : list A) : Z :=
  match l with
  | [] => -1
  | x :: l' => if p x then i else findIndex_from p (i + 1) l'
  end.

Definition findIndex {A : Type} (p : A -> bool) (l : list A) : Z :=
  findIndex_from p 0 l.

(** [Array.prototype.filter] with the [(element, index)] callback. *)
Fixpoint filter_from {A : Type} (f : A -> Z -> bool) (i : Z) (l : list A)
  : list A :=
  match l with
  | [] => []
  | x :: l' =>
      if f x i then x :: filter_from f (i + 1) l' else filter_from f (i + 1) l'
  end.

Definition filter_index {A : Type} (f : A -> Z -> bool) (l : list A) : list A :=
  filter_from f 0 l.

(** [Array.prototype.map] with the [(element, index)] callback. *)
Fixpoint map_from {A B : Type} (f : A -> Z -> B) (i : Z) (l : list A) : list B :=
  match l with
  | [] => []
  | x :: l' => f x i :: map_from f (i + 1) l'
  end.

Definition map_index {A B : Type} (f : A -> Z -> B) (l : list A) : list B :=
  map_from f 0 l.

(** Array indexing [a[i]]; [None] is [undefined]. *)
Definition at_index {A : Type} (l : list A) (i : Z) : option A :=
  if i <? 0 then None else nth_error l (Z.to_nat i).

Definition length {A : Type} (l : list A) : Z := Z.of_nat (List.length l).

(** ** Strings *)

Definition code (c : ascii) : Z := Z.of_nat (nat_of_ascii c).
Definition chr (z : Z) : ascii := ascii_of_nat (Z.to_nat z).

(** White space removed by [String.prototype.trim] among the code units
    0..255: TAB, LF, VT, FF, CR, SPACE and NBSP. *)
Definition isWhiteSpace (c : ascii) : bool :=
  let n := code c in
  ((9 <=? n) && (n <=? 13)) || (n =? 32) || (n =? 160).

Fixpoint trimStart (s : string) : string :=
  match s with
  | EmptyString => EmptyString
  | String c s' => if isWhiteSpace c then trimStart s' else s
  end.

Fixpoint trimEnd (s : string) : string :=
  match s with
  | EmptyString => EmptyString
  | String c s' =>
      match trimEnd s' with
      | EmptyString => if isWhiteSpace c then EmptyString else String c EmptyString
      | t => String c t
      end
  end.

Definition trim (s : string) : string := trimEnd (trimStart s).

(** [toLowerCase] on the code units 0..255: A-Z and the accented capitals
    0xC0..0xDE (0xD7, the multiplication sign, excepted) move up by 32. *)
Definition lowerChar (c : ascii) : ascii :=
  let n := code c in
  if ((65 <=? n) && (n <=? 90))
     || ((192 <=? n) && (n <=? 222) && negb (n =? 215))
  then chr (n + 32) else c.

Fixpoint toLowerCase (s : string) : string :=
  match s with
  | EmptyString => EmptyString
  | String c s' => String (lowerChar c) (toLowerCase s')
  end.

(** [s.charAt(0)]: the first character as a string, empty when there is none. *)
Definition charAt0 (s : string) : string :=
  match s with
  | EmptyString => EmptyString
  | String c _ => String c EmptyString
  end.

(** [s.slice(1)]. *)
Definition slice1 (s : string) : string :=
  match s with
  | EmptyString => EmptyString
  | String _ s' => s'
  end.

Fixpoint startsWith (s p : string) : bool :=
  match p, s with
  | EmptyString, _ => true
  | String _ _, EmptyString => false
  | String a p', String b s' => Ascii.eqb a b && startsWith s' p'
  end.

(** [s.endsWith(c)] for a one-character needle. *)
Fixpoint endsWithChar (s : string) (c : ascii) : bool :=
  match s with
  | EmptyString => false
  | String a EmptyString => Ascii.eqb a c
  | String _ s' => endsWithChar s' c
  end.

(** [s.includes(p)]. *)
Fixpoint includes (s p : string) : bool :=
  startsWith s p ||
  match s with
  | EmptyString => false
  | String _ s' => includes s' p
  end.

(** Truthiness of a string: only the empty string is falsy. *)
Definition truthy (s : string) : bool :=
  match s with EmptyString => false | _ => true end.

(** A number in a template literal or string concatenation, for integers. *)
Definition numberToString (z : Z) : string :=
  NilZero.string_of_int (Z.to_int z).

(** The double quote, and a way to write literals that contain it: in the
    argument of [dq] every apostrophe stands for a double quote. *)
Definition dquote : ascii := chr 34.

Fixpoint dq (s : string) : string :=
  match s with
  | EmptyString => EmptyString
  | String c s' => String (if Ascii.eqb c "'"%char then dquote else c) (dq s')
  end.

(** [Array.prototype.join] on strings. *)
Fixpoint join (sep : string) (l : list string) : string :=
  match l with
  | [] => EmptyString
  | [x] => x
  | x :: l' => (x ++ sep ++ join sep l')%string
  end.

Definition LF : string := String (chr 10) EmptyString.

(** [parseInt(s, 10)]: leading white space is skipped, then an optional sign,
    then the longest run of decimal digits; [None] is [NaN] (no digit).
    The value is the exact integer: the rounding to a double that JavaScript
    applies beyond 2^53 does not change any comparison made below. *)
Definition isDigit (c : ascii) : bool :=
  let n := code c in (48 <=? n) && (n <=? 57).

Fixpoint digits (acc : option Z) (s : string) : option Z :=
  match s with
  | EmptyString => acc
  | String c s' =>
      if isDigit c then
        digits (Some (10 * match acc with Some a => a | None => 0 end
                      + (code c - 48))) s'
      else acc
  end.

Definition parseInt (s : string) : option Z :=
  match trimStart s with
  | String "-"%char s' => option_map Z.opp (digits None s')
  | String "+"%char s' => digits None s'
  | s' => digits None s'
  end.

(** [JSON.stringify] on a string (QuoteJSONString) for the code units 0..255:
    the quote, the backslash and the control characters are escaped. *)
Definition hexDigit (n : Z) : ascii :=
  if n <? 10 then chr (48 + n) else chr (87 + n).

Definition quoteChar (c : ascii) : string :=
  let n := code c in
  if n =? 8 then "\b"
  else if n =? 9 then "\t"
  else if n =? 10 then "\n"
  else if n =? 12 then "\f"
  else if n =? 13 then "\r"
  else if n =? 34 then String "\"%char (String dquote EmptyString)
  else if n =? 92 then "\\"
  else if n <? 32 then
    ("\u00" ++ String (hexDigit (n / 16)) (String (hexDigit (n mod 16)) EmptyString))%string
  else String c EmptyString.

Fixpoint quoteBody (s : string) : string :=
  match s with
  | EmptyString => EmptyString
  | String c s' => (quoteChar c ++ quoteBody s')%string
  end.

Definition stringify (s : string) : string :=
  String dquote (quoteBody s ++ String dquote EmptyString).

End Js.

(* ===================================================================== *)
(** * Data model ([types.ts]) and application state ([App]) *)
(* ===================================================================== *)

Module Types.

Record Chunk : Type := mkChunk {
  id : Z;
  startPage : Z;
  endPage : Z;
  contextTitle : option string   (* [None] is [undefined] *)
}.

Record QAPair : Type := mkQAPair {
  input_text : string;
  output_text : string
}.

(** What the program reads of a PDF outline.  An element of an explicit
    destination array is a page reference, [null], or something else the
    document cannot resolve to a page. *)
Inductive DestElem : Type :=
| ElNull
| ElRef (num : Z)
| ElOther.

Inductive Dest : Type :=
| DestNone
| DestName (name : string)
| DestArray (elems : list DestElem).

#[warnings="-register-all"]
Inductive OutlineItem : Type :=
| Item (title : string) (dest : Dest) (items : list OutlineItem).

(** [PDFDocumentProxy]: promises that reject are [None]. *)
Record PDFDocumentProxy : Type := mkPdf {
  numPages : Z;
  getOutline : option (list OutlineItem);
  getDestination : string -> option (option (list DestElem));
  getPageIndex : DestElem -> option Z
}.

End Types.
Import Types.

(** The [useState] cells of [App] that the handlers below read or write.
    [qaCache] is a [Record<number, QAPair[]>]: an object whose keys are chunk
    ids, positive integers, which JavaScript enumerates in ascending order
    whatever the insertion order, hence an association list kept sorted by
    key. *)
Record AppState : Type := mkState {
  fileName : option string;
  pdfDoc : option PDFDocumentProxy;
  appError : option string;
  chunks : list Chunk;
  nextChunkId : Z;
  selectedChunk : option Chunk;
  isAutoSplitting : bool;
  hasOutline : option bool;
  qaCache : list (Z * list QAPair);
  isGeneratingAll : bool;
  generationProgress : Z * Z       (* [{current, total}] *)
}.

Definition setAppError (v : option string) (s : AppState) : AppState :=
  mkState (fileName s) (pdfDoc s) v (chunks s) (nextChunkId s)
    (selectedChunk s) (isAutoSplitting s) (hasOutline s) (qaCache s)
    (isGeneratingAll s) (generationProgress s).

Definition setChunks (v : list Chunk) (s : AppState) : AppState :=
  mkState (fileName s) (pdfDoc s) (appError s) v (nextChunkId s)
    (selectedChunk s) (isAutoSplitting s) (hasOutline s) (qaCache s)
    (isGeneratingAll s) (generationProgress s).

Definition setNextChunkId (v : Z) (s : AppState) : AppState :=
  mkState (fileName s) (pdfDoc s) (appError s) (chunks s) v
    (selectedChunk s) (isAutoSplitting s) (hasOutline s) (qaCache s)
    (isGeneratingAll s) (generationProgress s).

Definition setSelectedChunk (v : option Chunk) (s : AppState) : AppState :=
  mkState (fileName s) (pdfDoc s) (appError s) (chunks s) (nextChunkId s)
    v (isAutoSplitting s) (hasOutline s) (qaCache s)
    (isGeneratingAll s) (generationProgress s).

Definition setIsAutoSplitting (v : bool) (s : AppState) : AppState :=
  mkState (fileName s) (pdfDoc s) (appError s) (chunks s) (nextChunkId s)
    (selectedChunk s) v (hasOutline s) (qaCache s)
    (isGeneratingAll s) (generationProgress s).

Definition setHasOutline (v : option bool) (s : AppState) : AppState :=
  mkState (fileName s) (pdfDoc s) (appError s) (chunks s) (nextChunkId s)
    (selectedChunk s) (isAutoSplitting s) v (qaCache s)
    (isGeneratingAll s) (generationProgress s).

Definition setQaCache (v : list (Z * list QAPair)) (s : AppState) : AppState :=
  mkState (fileName s) (pdfDoc s) (appError s) (chunks s) (nextChunkId s)
    (selectedChunk s) (isAutoSplitting s) (hasOutline s) v
    (isGeneratingAll s) (generationProgress s).

Definition setIsGeneratingAll (v : bool) (s : AppState) : AppState :=
  mkState (fileName s) (pdfDoc s) (appError s) (chunks s) (nextChunkId s)
    (selectedChunk s) (isAutoSplitting s) (hasOutline s) (qaCache s)
    v (generationProgress s).

Definition setGenerationProgress (v : Z * Z) (s : AppState) : AppState :=
  mkState (fileName s) (pdfDoc s) (appError s) (chunks s) (nextChunkId s)
    (selectedChunk s) (isAutoSplitting s) (hasOutline s) (qaCache s)
    (isGeneratingAll s) v.

(** The state right after a document has been loaded by [handleFileChange]:
    everything reset, [hasOutline] computed from the document's outline. *)
Definition outlinePresent (pdf : PDFDocumentProxy) : bool :=
  match getOutline pdf with
  | Some (_ :: _) => true
  | _ => false
  end.

Definition loaded (name : string) (pdf : PDFDocumentProxy) : AppState :=
  mkState (Some name) (Some pdf) None [] 1 None false
    (Some (outlinePresent pdf)) [] false (0, 0).

(* ===================================================================== *)
(** * Auto-split by table of contents ([autoSplitPdf]) *)
(* ===================================================================== *)

Module AutoSplit.

Record Bookmark : Type := mkBookmark { title : string; page : Z }.

(** A chunk before it gets its id ([Omit<Chunk, 'id' | 'text'>]). *)
Record Range : Type := mkRange {
  rStart : Z;
  rEnd : Z;
  rTitle : string
}.

Definition MAX_CHUNK_PAGES : Z := 4.

Definition truthyElem (e : DestElem) : bool :=
  match e with ElNull => false | _ => true end.

(** The [try] block of [processOutline] for one item: the bookmark it pushes,
    if any.  A rejected [getDestination] or [getPageIndex] is caught and the
    item contributes nothing. *)
Definition resolveItem (pdf : PDFDocumentProxy) (t : string) (d : Dest)
  : list Bookmark :=
  let dest :=
    match d with
    | DestName name =>
        match getDestination pdf name with
        | None => None
        | Some None => Some DestNone
        | Some (Some a) => Some (DestArray a)
        end
    | _ => Some d
    end in
  match dest with
  | Some (DestArray (e :: _)) =>
      if truthyElem e then
        match getPageIndex pdf e with
        | Some pageIndex => [mkBookmark t (pageIndex + 1)]
        | None => []
        end
      else []
  | _ => []
  end.

(** [processOutline]: bookmarks in document order, children after their
    parent whether or not the parent resolved. *)
Fixpoint processItem (pdf : PDFDocumentProxy) (item : OutlineItem)
  : list Bookmark :=
  match item with
  | Item t d items =>
      resolveItem pdf t d ++
      (fix processItems (l : list OutlineItem) : list Bookmark :=
         match l with
         | [] => []
         | i :: l' => processItem pdf i ++ processItems l'
         end) items
  end.

Definition processOutline (pdf : PDFDocumentProxy) (items : list OutlineItem)
  : list Bookmark :=
  flat_map (processItem pdf) items.

Definition comparePage (a b : Bookmark) : Z := page a - page b.

Definition uniqueBookmarks (bookmarks : list Bookmark) : list Bookmark :=
  let sorted := Js.sort comparePage bookmarks in
  Js.filter_index
    (fun bookmark index =>
       index =? Js.findIndex (fun b => page b =? page bookmark) sorted)
    sorted.

(** The [forEach] that builds [initialChunks], from index [i] on. *)
Fixpoint initialChunks_from (self : list Bookmark) (numPages : Z) (i : Z)
  (l : list Bookmark) : list Range :=
  match l with
  | [] => []
  | bookmark :: l' =>
      let startPage := page bookmark in
      let endPage :=
        if i + 1 <? Js.length self then
          match Js.at_index self (i + 1) with
          | Some next => page next - 1
          | None => numPages
          end
        else numPages in
      (if startPage <=? endPage
       then [mkRange startPage endPage (title bookmark)] else [])
      ++ initialChunks_from self numPages (i + 1) l'
  end.

Definition initialChunks (unique : list Bookmark) (numPages : Z) : list Range :=
  initialChunks_from unique numPages 0 unique.

(** The [while] loop that cuts one section: it ends because the distance from
    [currentStart] to the section end shrinks at every turn. *)
Equations? splitLoop (currentStart : Z) (chunk : Range) : list Range
  by wf (Z.to_nat (rEnd chunk + 1 - currentStart)) lt :=
  splitLoop currentStart chunk with Z_le_gt_dec currentStart (rEnd chunk) => {
    | left _ =>
        let currentEnd :=
          Z.min (currentStart + MAX_CHUNK_PAGES - 1) (rEnd chunk) in
        mkRange currentStart currentEnd (rTitle chunk)
          :: splitLoop (currentEnd + 1) chunk;
    | right _ => [] }.
Proof. subst currentEnd. unfold MAX_CHUNK_PAGES. lia. Qed.

Definition finalChunks (initial : list Range) : list Range :=
  flat_map (fun chunk => splitLoop (rStart chunk) chunk) initial.

Definition newChunksWithId (final : list Range) : list Chunk :=
  Js.map_index
    (fun chunk index =>
       mkChunk (index + 1) (rStart chunk) (rEnd chunk) (Some (rTitle chunk)))
    final.

(** Lines 167-193: from the resolved bookmarks to the chunks with ids. *)
Definition splitBookmarks (bookmarks : list Bookmark) (numPages : Z)
  : list Chunk :=
  newChunksWithId (finalChunks (initialChunks (uniqueBookmarks bookmarks) numPages)).

(** The body of the [try]: the new chunk list, or the message of the error
    thrown. *)
Definition trySplit (pdf : PDFDocumentProxy) : string + list Chunk :=
  match getOutline pdf with
  | None => inl "No outline found in the document."
  | Some outline =>
      let bookmarks := processOutline pdf outline in
      match bookmarks with
      | [] =>
          inl "Failed to extract structure from outline. Please use manual splitting."
      | _ => inr (splitBookmarks bookmarks (numPages pdf))
      end
  end.

Definition autoSplitPdf (s : AppState) : AppState :=
  match pdfDoc s, hasOutline s with
  | Some pdf, Some true =>
      let s1 := setAppError None (setIsAutoSplitting true s) in
      let s2 :=
        match trySplit pdf with
        | inr newChunks =>
            setQaCache []
              (setSelectedChunk (hd_error newChunks)
                 (setNextChunkId (Js.length newChunks + 1)
                    (setChunks newChunks s1)))
        | inl message =>
            setSelectedChunk None
              (setNextChunkId 1
                 (setChunks []
                    (setAppError (Some ("Auto-split error: " ++ message)%string) s1)))
        end in
      setIsAutoSplitting false s2
  | _, _ => s
  end.

End AutoSplit.

(* ===================================================================== *)
(** * Manual chunks ([addChunk], [deleteChunk], [handleAddChunk]) *)
(* ===================================================================== *)

Module Cache.

(** [{...prev, [id]: pairs}] on an object with integer keys. *)
Fixpoint set (k : Z) (v : list QAPair) (c : list (Z * list QAPair))
  : list (Z * list QAPair) :=
  match c with
  | [] => [(k, v)]
  | (k', v') :: c' =>
      if k <? k' then (k, v) :: c
      else if k =? k' then (k, v) :: c'
      else (k', v') :: set k v c'
  end.

(** [delete newCache[id]]. *)
Definition delete (k : Z) (c : list (Z * list QAPair)) : list (Z * list QAPair) :=
  filter (fun e => negb (fst e =? k)) c.

(** [qaCache[id]]. *)
Fixpoint get (k : Z) (c : list (Z * list QAPair)) : option (list QAPair) :=
  match c with
  | [] => None
  | (k', v) :: c' => if k =? k' then Some v else get k c'
  end.

(** [Object.values(qaCache)]. *)
Definition values (c : list (Z * list QAPair)) : list (list QAPair) :=
  map snd c.

End Cache.

Module Chunks.

Definition compareStart (a b : Chunk) : Z := startPage a - startPage b.

Definition addChunk (start end_ : Z) (s : AppState) : AppState :=
  let newChunk := mkChunk (nextChunkId s) start end_ None in
  setSelectedChunk (Some newChunk)
    (setNextChunkId (nextChunkId s + 1)
       (setChunks (Js.sort compareStart (chunks s ++ [newChunk])) s)).

Definition deleteChunk (id_ : Z) (s : AppState) : AppState :=
  let s1 := setChunks (filter (fun chunk => negb (id chunk =? id_)) (chunks s)) s in
  let s2 := setQaCache (Cache.delete id_ (qaCache s1)) s1 in
  match selectedChunk s with
  | Some c => if id c =? id_ then setSelectedChunk None s2 else s2
  | None => s2
  end.

(** The [useState] cells of [ChunkManager]. *)
Record Form : Type := mkForm {
  startPageInput : string;
  endPageInput : string;
  error : string
}.

(** [handleAddChunk]: [numPages] is the page count of the loaded document,
    passed to the component as a prop. *)
Definition handleAddChunk (numPages : Z) (f : Form) (s : AppState)
  : Form * AppState :=
  let reject (msg : string) :=
    (mkForm (startPageInput f) (endPageInput f) msg, s) in
  match Js.parseInt (startPageInput f), Js.parseInt (endPageInput f) with
  | Some start, Some end_ =>
      if (start <=? 0) || (end_ <=? 0) then
        reject "Page numbers must be greater than 0."
      else if start >? end_ then
        reject "Start page cannot be greater than end page."
      else if (start >? numPages) || (end_ >? numPages) then
        reject ("Page number cannot be greater than "
                  ++ Js.numberToString numPages ++ ".")%string
      else if end_ - start + 1 >? 4 then
        reject "Chunk cannot exceed 4 pages."
      else
        (mkForm EmptyString EmptyString EmptyString, addChunk start end_ s)
  | _, _ => reject "Page numbers must be greater than 0."
  end.

End Chunks.

(* ===================================================================== *)
(** * Generation for one chunk and normalisation ([generateQaForChunk]) *)
(* ===================================================================== *)

Module Normalizer.

(** [{ question: string; answer: string }] as it reaches the [map] callback:
    a field is a string or is missing ([None] for absent, [null] and
    [undefined]). *)
Record RawPair : Type := mkRaw {
  question : option string;
  answer : option string
}.

Definition truthyField (f : option string) : bool :=
  match f with Some s => Js.truthy s | None => false end.

(** [file?.name || 'this document']. *)
Definition documentName (file : option string) : string :=
  match file with
  | Some name => if Js.truthy name then name else "this document"
  | None => "this document"
  end.

Definition contextPrefix (title : option string) (file : option string)
  : string :=
  match title with
  | Some t =>
      if Js.truthy t then
        (Js.dq "In the section '" ++ t ++ Js.dq "' of the document '"
           ++ documentName file ++ Js.dq "', ")%string
      else (Js.dq "In the document '" ++ documentName file ++ Js.dq "', ")%string
  | None => (Js.dq "In the document '" ++ documentName file ++ Js.dq "', ")%string
  end.

(** The callback of [basePairs.map]: [None] is the [null] that the following
    [filter] removes. *)
Definition normalizePair (chunk : Chunk) (file : option string) (pair : RawPair)
  : option QAPair :=
  match question pair, answer pair with
  | Some q, Some a =>
      if negb (Js.truthy q) || negb (Js.truthy a) then None
      else
        let questionText := Js.trim q in
        let questionText :=
          if Js.endsWithChar questionText "?"
          then questionText else (questionText ++ "?")%string in
        let finalQuestion :=
          (contextPrefix (contextTitle chunk) file
             ++ Js.toLowerCase (Js.charAt0 questionText)
             ++ Js.slice1 questionText)%string in
        Some (mkQAPair finalQuestion (Js.trim a))
  | _, _ => None
  end.

Fixpoint filterNull {A : Type} (l : list (option A)) : list A :=
  match l with
  | [] => []
  | Some x :: l' => x :: filterNull l'
  | None :: l' => filterNull l'
  end.

Definition finalPairs (chunk : Chunk) (file : option string)
  (basePairs : list RawPair) : list QAPair :=
  filterNull (map (normalizePair chunk file) basePairs).

(** What the collaborators deliver for one chunk: the text of its pages, the
    base64 of its pages ([None] when the extraction failed) and the outcome
    of [generateQuestionsAndAnswers] on them, the message of the error thrown
    or the pairs returned. *)
Record Delivery : Type := mkDelivery {
  text : string;
  pdfBase64 : option string;
  basePairs : string + list RawPair
}.

(** [generateQaForChunk]: the message of the error thrown, or the state with
    the chunk's entry written. *)
Definition generateQaForChunk (d : Delivery) (chunk : Chunk) (s : AppState)
  : string + AppState :=
  if negb (Js.truthy (Js.trim (text d))) && negb (truthyField (pdfBase64 d))
  then inl "Could not extract any content from this chunk."
  else
    match basePairs d with
    | inl message => inl message
    | inr pairs =>
        inr (setQaCache
               (Cache.set (id chunk) (finalPairs chunk (fileName s) pairs)
                  (qaCache s)) s)
    end.

End Normalizer.

(* ===================================================================== *)
(** * Batch generation ([handleGenerateAllQa]) *)
(* ===================================================================== *)

Module Batch.
Import Normalizer.

Inductive Event : Type :=
| Attempt (chunkId : Z)            (* [generateQaForChunk(chunk)] is started *)
| Progress (current total : Z)     (* [setGenerationProgress] *)
| Sleep (ms : Z).                  (* [await sleep(ms)] *)

(** The collaborators during one batch: what they deliver to the run started
    after [completed] successful ones, for the chunk it is started on. *)
Definition World : Type := Z -> Chunk -> Delivery.

Definition haltMessage (chunk : Chunk) (message : string) : string :=
  ("Error on chunk #" ++ Js.numberToString (id chunk) ++ ": " ++ message
     ++ ". Halting process.")%string.

(** The [for (const chunk of chunks)] loop; [total] is [chunks.length]. *)
Fixpoint loop (w : World) (total : Z) (rest : list Chunk) (completed : Z)
  (s : AppState) (trace : list Event) : AppState * list Event :=
  match rest with
  | [] => (setIsGeneratingAll false s, trace)
  | chunk :: rest' =>
      match generateQaForChunk (w completed chunk) chunk s with
      | inr s1 =>
          let completed := completed + 1 in
          let s2 := setGenerationProgress (completed, total) s1 in
          let trace := trace ++ [Attempt (id chunk); Progress completed total] in
          if completed <? total
          then loop w total rest' completed s2 (trace ++ [Sleep 5000])
          else loop w total rest' completed s2 trace
      | inl message =>
          (setIsGeneratingAll false
             (setAppError (Some (haltMessage chunk message)) s),
           trace ++ [Attempt (id chunk)])
      end
  end.

Definition handleGenerateAllQa (w : World) (s : AppState)
  : AppState * list Event :=
  match chunks s with
  | [] => (s, [])
  | _ =>
      let total := Js.length (chunks s) in
      let s1 :=
        setGenerationProgress (0, total)
          (setAppError None (setIsGeneratingAll true s)) in
      loop w total (chunks s) 0 s1 [Progress 0 total]
  end.

End Batch.

(* ===================================================================== *)
(** * Export ([handleSaveAllQa]) *)
(* ===================================================================== *)

Module Dataset.

(** The file handed to the browser through the [<a download>] element. *)
Record Download : Type := mkDownload {
  download : string;       (* [a.download] *)
  mimeType : string;       (* the [Blob] type *)
  content : string
}.

(** [JSON.stringify(lineObject)]. *)
Definition jsonLine (pair : QAPair) : string :=
  (Js.dq "{'messages':[{'role':'user','content':"
     ++ Js.stringify (input_text pair)
     ++ Js.dq "},{'role':'model','content':"
     ++ Js.stringify (output_text pair)
     ++ "}]}")%string.

Definition allPairs (s : AppState) : list QAPair :=
  List.concat (Cache.values (qaCache s)).

Definition handleSaveAllQa (s : AppState) : AppState * option Download :=
  match allPairs s with
  | [] => (setAppError (Some "No Q&A pairs have been generated to save.") s, None)
  | pairs =>
      (s, Some (mkDownload "qa_dataset.json" "application/json"
                  (Js.join Js.LF (map jsonLine pairs))))
  end.

End Dataset.

(* ===================================================================== *)
(** * The generation service ([generateQuestionsAndAnswers]) *)
(* ===================================================================== *)

Module GeminiService.

(** Values produced by [JSON.parse]. *)
#[warnings="-register-all"]
Inductive Json : Type :=
| JNull
| JBool (b : bool)
| JNumber (n : Z)
| JString (s : string)
| JArray (items : list Json)
| JObject (fields : list (string * Json)).

(** A property that is missing, a string or a number: the kinds the [catch]
    block tells apart with [===]. *)
Inductive Prim : Type :=
| Undefined
| Str (s : string)
| Num (n : Z).

(** What the [catch] block reads of a thrown value: [error.message] (a string
    when there is one), [error.status], [error.error.code] and
    [error.error.status]. *)
Record ApiError : Type := mkError {
  message : option string;
  status : Prim;
  errorCode : Prim;
  errorStatus : Prim
}.

(** [new Error(msg)]: a message and nothing else. *)
Definition newError (msg : string) : ApiError :=
  mkError (Some msg) Undefined Undefined Undefined.

(** What one call of [ai.models.generateContent] comes to, up to and including
    [JSON.parse(response.text.trim())]: the call (or reading the text) throws,
    the parser throws a [SyntaxError] with some message, or it yields a
    value. *)
Inductive Reply : Type :=
| Rejected (e : ApiError)
| Unparseable (syntaxError : string)
| Parsed (parsedData : Json).

Definition MAX_RETRIES : Z := 3.

Definition isPrimStr (p : Prim) (s : string) : bool :=
  match p with Str s' => String.eqb s' s | _ => false end.

Definition isPrimNum (p : Prim) (n : Z) : bool :=
  match p with Num n' => n' =? n | _ => false end.

(** [k in item], for an [item] that is an object (arrays included). *)
Definition hasKey (k : string) (item : Json) : bool :=
  match item with
  | JObject fields => existsb (fun f => String.eqb (fst f) k) fields
  | _ => false
  end.

(** [typeof item === 'object' && item !== null]. *)
Definition isObject (item : Json) : bool :=
  match item with
  | JObject _ | JArray _ => true
  | _ => false
  end.

Definition isQa (item : Json) : bool :=
  isObject item && hasKey "question" item && hasKey "answer" item.

(** The format test on [parsedData]; the items when it passes. *)
Definition checkFormat (parsedData : Json) : option (list Json) :=
  match parsedData with
  | JArray items =>
      if (Js.length items =? 0) || forallb isQa items then Some items else None
  | _ => None
  end.

(** The [try] block of one attempt: the array returned, or the error that
    reaches the outer [catch].  A format mismatch is thrown inside the inner
    [try] and re-thrown by its [catch] like a parser error. *)
Definition attemptOnce (r : Reply) : ApiError + list Json :=
  match r with
  | Rejected e => inl e
  | Unparseable m => inl (newError ("Failed to parse JSON response: " ++ m))
  | Parsed parsedData =>
      match checkFormat parsedData with
      | Some items => inr items
      | None =>
          inl (newError
                 ("Failed to parse JSON response: "
                    ++ "Generated JSON does not match the required Q&A format."))
      end
  end.

Inductive Verdict : Type :=
| AccessDenied
| LocationUnsupported
| Retriable.

(** The two [if]s at the head of the [catch] block. *)
Definition classify (error : ApiError) : Verdict :=
  let errorMessage :=
    match message error with
    | Some m => Js.toLowerCase m
    | None => EmptyString
    end in
  if isPrimStr (status error) "PERMISSION_DENIED"
     || Js.includes errorMessage "region not supported"
     || Js.includes errorMessage "api key not valid"
  then AccessDenied
  else if isPrimNum (errorCode error) 403
          && Js.includes errorMessage "user location is not supported"
  then LocationUnsupported
  else Retriable.

Definition deniedMessage : string :=
  "API access denied. This may be due to regional restrictions or an invalid/disabled API key. Please check your API key and that you are in a supported region.".

Definition locationMessage : string :=
  "API access denied: User location is not supported for this model.".

Definition rateLimitMessage : string :=
  "Rate limit exceeded. The API is receiving too many requests. Please wait a moment before trying again or reduce the request frequency.".

Definition failedMessage : string :=
  ("Failed to generate Q&A pairs after " ++ Js.numberToString MAX_RETRIES
     ++ " attempts. The model may be unavailable or the content could not be processed. Check the console for details.")%string.

Definition rateLimited (lastError : option ApiError) : bool :=
  match lastError with
  | Some e => isPrimNum (status e) 429 || isPrimStr (errorStatus e) "RESOURCE_EXHAUSTED"
  | None => false
  end.

(** The code after the loop. *)
Definition finalMessage (lastError : option ApiError) : string :=
  if rateLimited lastError then rateLimitMessage else failedMessage.

Inductive Event : Type :=
| Call (attempt : Z)     (* [ai.models.generateContent] is called *)
| Sleep (ms : Z).        (* [await sleep(ms)] *)

(** [1500 * Math.pow(2, attempt - 1)]. *)
Definition backoff (attempt : Z) : Z := 1500 * 2 ^ (attempt - 1).

(** The endpoint: its reply to the call made by each attempt. *)
Definition Endpoint : Type := Z -> Reply.

(** Turns of the loop still to come when its test is made for [attempt]. *)
Definition attemptsLeft (attempt : Z) : nat :=
  Z.to_nat (MAX_RETRIES + 1 - attempt).
Arguments attemptsLeft : simpl never.

(** The [for (let attempt = 1; attempt <= MAX_RETRIES; attempt++)] loop and
    what follows it: the message of the error thrown or the array returned,
    with the calls and sleeps made on the way. *)
Equations? retryLoop (endpoint : Endpoint) (attempt : Z)
  (lastError : option ApiError) (trace : list Event)
  : (string + list Json) * list Event
  by wf (attemptsLeft attempt) lt :=
  retryLoop endpoint attempt lastError trace
    with Z_le_gt_dec attempt MAX_RETRIES => {
    | right _ => (inl (finalMessage lastError), trace);
    | left _ with attemptOnce (endpoint attempt) => {
      | inr parsedData => (inr parsedData, trace ++ [Call attempt]);
      | inl error with classify error => {
        | AccessDenied => (inl deniedMessage, trace ++ [Call attempt]);
        | LocationUnsupported => (inl locationMessage, trace ++ [Call attempt]);
        | Retriable with (attempt <? MAX_RETRIES) => {
          | true =>
              retryLoop endpoint (attempt + 1) (Some error)
                (trace ++ [Call attempt; Sleep (backoff attempt)]);
          | false =>
              retryLoop endpoint (attempt + 1) (Some error)
                (trace ++ [Call attempt]) } } } }.
Proof. all: unfold attemptsLeft, MAX_RETRIES in *; lia. Qed.

Definition blank (text : string) (images : option (list string)) : bool :=
  negb (Js.truthy (Js.trim text))
  && match images with
     | None => true
     | Some l => Js.length l =? 0
     end.

Definition generateQuestionsAndAnswers (endpoint : Endpoint) (text : string)
  (images : option (list string)) : (string + list Json) * list Event :=
  if blank text images then (inr [], [])
  else retryLoop endpoint 1 None [].

End GeminiService.

(* ===================================================================== *)
(** * What the specification says, in its own words *)
(* ===================================================================== *)

Module Spec.
Import Chunks.

(** ** Manual add *)

Definition positiveInteger (v : option Z) : Prop :=
  exists n, v = Some n /\ 0 < n.

(** A request the manual-add path must refuse, [start] and [end_] being the
    numbers read from the two inputs. *)
Definition invalidRequest (numPages : Z) (start end_ : option Z) : Prop :=
  ~ positiveInteger start \/ ~ positiveInteger end_ \/
  exists a b, start = Some a /\ end_ = Some b /\
    (a > b \/ a > numPages \/ b > numPages \/ b - a + 1 > 4).

Definition orderedByStart (l : list Chunk) : Prop :=
  StronglySorted (fun a b => startPage a <= startPage b) l.

(** The ids of the chunks on which a batch started a generation, in order. *)
Fixpoint attempted (trace : list Batch.Event) : list Z :=
  match trace with
  | [] => []
  | Batch.Attempt i :: t => i :: attempted t
  | _ :: t => attempted t
  end.

(** ** Auto-split *)

Section Split.
Import AutoSplit.

(** The first bookmark at page [p], in the order the outline gave them. *)
Definition firstAt (bookmarks : list Bookmark) (p : Z) : option Bookmark :=
  find (fun b => page b =? p) bookmarks.

(** The section of each bookmark: from its page to the page before the next
    bookmark, the last one to the last page [N]. *)
Fixpoint sectionsOf (bookmarks : list Bookmark) (N : Z) : list Range :=
  match bookmarks with
  | [] => []
  | b :: rest =>
      mkRange (page b)
        (match rest with next :: _ => page next - 1 | [] => N end)
        (title b)
      :: sectionsOf rest N
  end.

Definition nonEmpty (r : Range) : bool := rStart r <=? rEnd r.

(** Empty sections are dropped. *)
Definition sections (bookmarks : list Bookmark) (N : Z) : list Range :=
  filter nonEmpty (sectionsOf bookmarks N).

(** The greedy cut of a section, left to right: piece number [k] starts 4k
    pages into the section and spans 4 pages, or what is left of it. *)
Definition pieces (r : Range) : list Range :=
  map (fun k =>
         mkRange (rStart r + 4 * Z.of_nat k)
           (Z.min (rStart r + 4 * Z.of_nat k + 3) (rEnd r))
           (rTitle r))
    (seq 0 (Z.to_nat ((rEnd r - rStart r + 4) / 4))).

(** Page ranges that follow one another without gap or overlap from page
    [from] to page [to], each of 1 to 4 pages. *)
Fixpoint tiles (from : Z) (l : list (Z * Z)) (to : Z) : Prop :=
  match l with
  | [] => from = to + 1
  | (a, b) :: rest => a = from /\ a <= b /\ b - a + 1 <= 4 /\ tiles (b + 1) rest to
  end.

Definition span (c : Chunk) : Z * Z := (startPage c, endPage c).

(** Bookmarks kept by the removal of duplicate pages from [l], [pre] being
    what comes before [l] in the list. *)
Fixpoint keepFirst (pre l : list Bookmark) : list Bookmark :=
  match l with
  | [] => []
  | x :: l' =>
      (if existsb (fun y => page y =? page x) pre then [] else [x])
      ++ keepFirst (pre ++ [x]) l'
  end.

End Split.

(** ** Outline failures *)

(** The error shown when the outline is there but leads nowhere. *)
Definition structureError : string :=
  "Auto-split error: Failed to extract structure from outline. Please use manual splitting.".

(** The error shown should the outline be missing once auto-split runs. *)
Definition noOutlineError : string :=
  "Auto-split error: No outline found in the document.".

(** ** Normalisation *)

Section Normalize.
Import Normalizer.

(** The context clause, for a title that is there or not. *)
Definition clause (contextTitle : option string) (documentName : string)
  : string :=
  match contextTitle with
  | Some t =>
      (Js.dq "In the section '" ++ t ++ Js.dq "' of the document '"
         ++ documentName ++ Js.dq "', ")%string
  | None => (Js.dq "In the document '" ++ documentName ++ Js.dq "', ")%string
  end.

Definition withQuestionMark (q : string) : string :=
  if Js.endsWithChar q "?" then q else (q ++ "?")%string.

Definition lowerFirst (q : string) : string :=
  match q with
  | EmptyString => EmptyString
  | String c rest => String (Js.lowerChar c) rest
  end.

(** Pairs with a missing or empty question or answer are dropped, the others
    transformed, in order. *)
Fixpoint normalize (rawPairs : list RawPair) (contextTitle : option string)
  (documentName : string) : list QAPair :=
  match rawPairs with
  | [] => []
  | r :: rest =>
      match question r, answer r with
      | Some (String _ _ as q), Some (String _ _ as a) =>
          mkQAPair
            (clause contextTitle documentName
               ++ lowerFirst (withQuestionMark (Js.trim q)))
            (Js.trim a)
          :: normalize rest contextTitle documentName
      | _, _ => normalize rest contextTitle documentName
      end
  end.

(** A title as the program takes it: an empty one counts as none. *)
Definition presentTitle (contextTitle : option string) : option string :=
  match contextTitle with
  | Some EmptyString => None
  | t => t
  end.

Fixpoint allWhiteSpace (s : string) : bool :=
  match s with
  | EmptyString => true
  | String c s' => Js.isWhiteSpace c && allWhiteSpace s'
  end.

(** The QAPair invariant of the data model. *)
Definition qaInvariant (contextTitle : option string) (documentName : string)
  (p : QAPair) : Prop :=
  input_text p <> EmptyString
  /\ Js.endsWithChar (input_text p) "?" = true
  /\ Js.startsWith (input_text p) (clause contextTitle documentName) = true
  /\ output_text p <> EmptyString
  /\ Js.trim (output_text p) = output_text p.

End Normalize.

(** ** Generation *)

Section Generate.
Import GeminiService.




(** The attempt numbered [j] failed and was found worth another try. *)
Definition retriedAt (endpoint : Endpoint) (j : Z) : Prop :=
  exists e, attemptOnce (endpoint j) = inl e /\ classify e = Retriable.

(** The calls and waits of a run that ends with attempt [k]: a wait of
    1.5 s times 2^(j-1) after each earlier attempt [j]. *)
Definition traceUpTo (k : Z) : list Event :=
  flat_map (fun j => [Call j; Sleep (1500 * 2 ^ (j - 1))])
    (map Z.of_nat (seq 1 (Z.to_nat (k - 1))))
  ++ [Call k].

Fixpoint calls (trace : list Event) : Z :=
  match trace with
  | [] => 0
  | Call _ :: t => 1 + calls t
  | Sleep _ :: t => calls t
  end.

(** An object that has the keys [question] and [answer]. *)
Definition qaObject (item : Json) : Prop :=
  exists fields,
    item = JObject fields
    /\ In "question" (map fst fields) /\ In "answer" (map fst fields).





(** An object whose field [k] is a string that is not empty. *)
Definition nonEmptyStringField (k : string) (item : Json) : Prop :=
  exists fields v,
    item = JObject fields /\ In (k, JString v) fields /\ v <> EmptyString.

End Generate.

(** ** Batch generation *)

Section BatchRuns.
Import Normalizer Batch.

(** A generation on delivery [d] for [chunk] goes through, or throws [m],
    whatever the state it starts from. *)
Definition succeedsOn (d : Delivery) (chunk : Chunk) : Prop :=
  forall st, exists st', generateQaForChunk d chunk st = inr st'.

Definition failsWith (d : Delivery) (chunk : Chunk) (m : string) : Prop :=
  forall st, generateQaForChunk d chunk st = inl m.

(** What a batch of [total] chunks does for the chunks [done] that go
    through, the first of them being at position [from] of the list: it
    starts each one, reports progress after it and, unless it is the last of
    the list, waits 5 seconds. *)
Fixpoint steps (total from : Z) (done : list Chunk) : list Event :=
  match done with
  | [] => []
  | c :: rest =>
      [Attempt (id c); Progress (from + 1) total]
      ++ (if from + 1 <? total then [Sleep 5000] else [])
      ++ steps total (from + 1) rest
  end.

(** The cache once the entries of the chunks [done] are written, in order. *)
Fixpoint written (w : World) (file : option string) (from : Z)
  (done : list Chunk) (cache : list (Z * list QAPair))
  : list (Z * list QAPair) :=
  match done with
  | [] => cache
  | c :: rest =>
      written w file (from + 1) rest
        match basePairs (w from c) with
        | inr pairs => Cache.set (id c) (finalPairs c file pairs) cache
        | inl _ => cache
        end
  end.

End BatchRuns.

(** ** Export *)

(** The keys of a cache come in ascending order, as the keys of an object
    with integer keys do. *)
Definition ascendingKeys (cache : list (Z * list QAPair)) : Prop :=
  StronglySorted Z.lt (map fst cache).

Definition ascendingIds (l : list Chunk) : Prop :=
  StronglySorted Z.lt (map id l).

(** The cached pairs taken id by id, the ids that have an entry in ascending
    order. *)
Definition pairsInIdOrder (s : AppState) : list QAPair :=
  flat_map
    (fun k =>
       match Cache.get k (qaCache s) with
       | Some pairs => pairs
       | None => []
       end)
    (Js.sort (fun a b => a - b) (map fst (qaCache s))).

(** The cached pairs taken chunk by chunk in the order of the chunk list. *)
Definition pairsInListOrder (s : AppState) : list QAPair :=
  flat_map
    (fun c =>
       match Cache.get (id c) (qaCache s) with
       | Some pairs => pairs
       | None => []
       end)
    (chunks s).

(** Number of line feeds in a text. *)
Fixpoint lineBreaks (s : string) : Z :=
  match s with
  | EmptyString => 0
  | String c s' => (if Js.code c =? 10 then 1 else 0) + lineBreaks s'
  end.

End Spec.

(* ===================================================================== *)
(** * Concrete documents and runs used in the examples *)
(* ===================================================================== *)

Module Examples.

(** A 9-page document without a table of contents. *)
Definition plainPdf : PDFDocumentProxy :=
  mkPdf 9 None (fun _ => None) (fun _ => None).

(** A 9-page document whose outline has three entries, none of which leads to
    a page: a name the document cannot look up, a [null] target, no target. *)
Definition brokenPdf : PDFDocumentProxy :=
  mkPdf 9
    (Some [Item "Intro" (DestName "intro") [Item "Scope" (DestArray [ElNull]) []];
           Item "Annex" DestNone []])
    (fun _ => None) (fun _ => None).


(** An endpoint that refuses the key. *)
Definition deniedEndpoint : GeminiService.Endpoint :=
  fun _ =>
    GeminiService.Rejected
      (GeminiService.mkError (Some "API key not valid. Please pass a valid API key.")
         (GeminiService.Str "INVALID_ARGUMENT") (GeminiService.Num 400)
         (GeminiService.Str "INVALID_ARGUMENT")).


(** An endpoint whose answer has the two keys, with an empty question and a
    number for an answer. *)
Definition sloppyEndpoint : GeminiService.Endpoint :=
  fun _ =>
    GeminiService.Parsed
      (GeminiService.JArray
         [GeminiService.JObject
            [("question", GeminiService.JString EmptyString);
             ("answer", GeminiService.JNumber 5)]]).

(** Three chunks added by hand to the 9-page document, and collaborators that
    deliver text and one pair for every chunk but the second, for which the
    service throws. *)
Definition threeChunks : AppState :=
  Chunks.addChunk 9 9
    (Chunks.addChunk 5 8 (Chunks.addChunk 1 4 (loaded "doc.pdf" plainPdf))).

Definition secondFails : Batch.World :=
  fun _ chunk =>
    Normalizer.mkDelivery "some text" None
      (if id chunk =? 2 then inl GeminiService.rateLimitMessage
       else inr [Normalizer.mkRaw (Some "What is x") (Some "y")]).

(** Pages 5-6 are added first and pages 1-2 second, then a pair is generated
    for each chunk. *)
Definition pageWorld : Batch.World :=
  fun _ chunk =>
    Normalizer.mkDelivery "some text" None
      (inr [Normalizer.mkRaw
              (Some ("What is on page " ++ Js.numberToString (startPage chunk))%string)
              (Some "y")]).

Definition outOfOrder : AppState :=
  fst (Batch.handleGenerateAllQa pageWorld
         (Chunks.addChunk 1 2
            (Chunks.addChunk 5 6 (loaded "doc.pdf" plainPdf)))).

End Examples.

(* ===================================================================== *)
(** * The rest of the application *)
(* ===================================================================== *)

(** ** Page extraction ([utils/pdfUtils]) *)

Module PdfUtils.

(** [Array.from({ length: endPage - startPage + 1 }, (_, i) => startPage - 1 + i)]:
    a negative length counts as 0. *)
Definition pageIndices (startPage endPage : Z) : list Z :=
  map (fun i => startPage - 1 + Z.of_nat i)
    (seq 0 (Z.to_nat (endPage - startPage + 1))).

(** [newPdfDoc.copyPages(pdfDoc, pageIndices)] on a document seen as the list
    of its pages: it throws ([None]) when an index is not that of a page. *)
Fixpoint copyPages {P : Type} (pages : list P) (indices : list Z)
  : option (list P) :=
  match indices with
  | [] => Some []
  | i :: rest =>
      match Js.at_index pages i, copyPages pages rest with
      | Some p, Some ps => Some (p :: ps)
      | _, _ => None
      end
  end.

(** [newPdfDoc.save()], as far as the pages go: a document to which no page
    was added is saved with one default page. *)
Definition savedPages {P : Type} (defaultPage : P) (added : list P) : list P :=
  match added with
  | [] => [defaultPage]
  | _ => added
  end.

(** [extractPdfPages], up to loading and serialising: the pages of the
    document returned. *)
Definition extractPdfPages {P : Type} (defaultPage : P) (pages : list P)
  (startPage endPage : Z) : option (list P) :=
  option_map (savedPages defaultPage)
    (copyPages pages (pageIndices startPage endPage)).

(** The binary string built by the loop of [arrayBufferToBase64]: one
    character per byte. *)
Fixpoint binaryString (bytes : list Byte.byte) : string :=
  match bytes with
  | [] => EmptyString
  | b :: rest => String (ascii_of_byte b) (binaryString rest)
  end.

(** [btoa]: base64 with padding. *)
Definition b64char (n : Z) : ascii :=
  if n <? 26 then Js.chr (65 + n)
  else if n <? 52 then Js.chr (71 + n)
  else if n <? 62 then Js.chr (n - 4)
  else if n =? 62 then "+"%char
  else "/"%char.

Fixpoint btoa (s : string) : string :=
  match s with
  | EmptyString => EmptyString
  | String a EmptyString =>
      String (b64char (Js.code a / 4))
        (String (b64char (Js.code a mod 4 * 16)) "==")
  | String a (String b EmptyString) =>
      String (b64char (Js.code a / 4))
        (String (b64char (Js.code a mod 4 * 16 + Js.code b / 16))
           (String (b64char (Js.code b mod 16 * 4)) "="))
  | String a (String b (String c rest)) =>
      String (b64char (Js.code a / 4))
        (String (b64char (Js.code a mod 4 * 16 + Js.code b / 16))
           (String (b64char (Js.code b mod 16 * 4 + Js.code c / 64))
              (String (b64char (Js.code c mod 64)) (btoa rest))))
  end.

Definition arrayBufferToBase64 (buffer : list Byte.byte) : string :=
  btoa (binaryString buffer).

End PdfUtils.

(** ** Text of a chunk ([extractTextForChunk]) and a single generation *)

Module Content.

(** What [pdfDoc.getPage(i)] and [page.getTextContent()] give for page [i]:
    the [str] of its items, or [None] when one of the two throws. *)
Definition PageTexts : Type := Z -> option (list string).

Definition pageBreak : string := (Js.LF ++ Js.LF)%string.

(** What one turn of the loop appends to [fullText]. *)
Definition pageBlock (texts : PageTexts) (i : Z) : string :=
  match texts i with
  | Some items => (Js.join " " items ++ pageBreak)%string
  | None =>
      ("[Error extracting text from page " ++ Js.numberToString i ++ "]"
         ++ pageBreak)%string
  end.

(** The [for (let i = chunk.startPage; i <= chunk.endPage; i++)] loop. *)
Equations? textLoop (texts : PageTexts) (i endPage_ : Z) (fullText : string)
  : string by wf (Z.to_nat (endPage_ + 1 - i)) lt :=
  textLoop texts i endPage_ fullText with Z_le_gt_dec i endPage_ => {
    | left _ =>
        textLoop texts (i + 1) endPage_ (fullText ++ pageBlock texts i)%string;
    | right _ => fullText }.
Proof. lia. Qed.

(** [extractTextForChunk]; [None] for the texts when no document is
    loaded. *)
Definition extractTextForChunk (texts : option PageTexts) (chunk : Chunk)
  : string :=
  match texts with
  | None => EmptyString
  | Some t => textLoop t (startPage chunk) (endPage chunk) EmptyString
  end.

(** [extractPdfForChunk]: the base64 of the chunk's pages, [None] ([null])
    when no file is held or the extraction throws.  [save] stands for the
    serialisation of the new document. *)
Definition extractPdfForChunk {P : Type} (defaultPage : P)
  (save : list P -> list Byte.byte) (pdfPages : option (list P))
  (chunk : Chunk) : option string :=
  match pdfPages with
  | None => None
  | Some pages =>
      match PdfUtils.extractPdfPages defaultPage pages (startPage chunk)
              (endPage chunk) with
      | Some extracted => Some (PdfUtils.arrayBufferToBase64 (save extracted))
      | None => None
      end
  end.

(** The [useState] cells of [QaGenerator]. *)
Record Panel : Type := mkPanel {
  isLoading : bool;
  panelError : option string
}.

(** [handleGenerateQA]: a generation for the selected chunk alone.  The
    message of a thrown error is shown in the panel, with a fallback when it
    is empty. *)
Definition handleGenerateQA (d : Normalizer.Delivery) (p : Panel) (s : AppState)
  : Panel * AppState :=
  match selectedChunk s with
  | None => (p, s)
  | Some chunk =>
      match Normalizer.generateQaForChunk d chunk s with
      | inr s1 => (mkPanel false None, s1)
      | inl message =>
          (mkPanel false
             (Some (if Js.truthy message then message
                    else "An unknown error occurred.")),
           s)
      end
  end.

(** [canSave]: [Object.keys(qaCache).length > 0]. *)
Definition canSave (s : AppState) : bool :=
  0 <? Js.length (map fst (qaCache s)).

End Content.

(** ** Loading a file ([handleFileChange]) *)

Module Upload.

(** The file picked: its name, its MIME type and what the [FileReader] makes
    of it, the bytes or a read error ([None]). *)
Record File : Type := mkFile {
  name : string;
  type : string;
  bytes : option (list Byte.byte)
}.

(** [pdfjsLib.getDocument({ data })]: the message of the error thrown, or the
    document with the texts of its pages. *)
Definition Parser : Type :=
  list Byte.byte -> string + (PDFDocumentProxy * Content.PageTexts).

(** The cells of [App] beside those of [AppState]. *)
Record Shell : Type := mkShell {
  app : AppState;
  pdfArrayBuffer : option (list Byte.byte);
  isParsing : bool;
  isTextBased : option bool
}.

Definition setFile (v : option string) (s : AppState) : AppState :=
  mkState v (pdfDoc s) (appError s) (chunks s) (nextChunkId s)
    (selectedChunk s) (isAutoSplitting s) (hasOutline s) (qaCache s)
    (isGeneratingAll s) (generationProgress s).

Definition setPdfDoc (v : option PDFDocumentProxy) (s : AppState) : AppState :=
  mkState (fileName s) v (appError s) (chunks s) (nextChunkId s)
    (selectedChunk s) (isAutoSplitting s) (hasOutline s) (qaCache s)
    (isGeneratingAll s) (generationProgress s).

Definition resetStateForNewFile (sh : Shell) : Shell :=
  mkShell
    (setGenerationProgress (0, 0)
       (setIsGeneratingAll false
          (setQaCache []
             (setHasOutline None
                (setNextChunkId 1
                   (setSelectedChunk None
                      (setChunks []
                         (setAppError None
                            (setPdfDoc None (setFile None (app sh)))))))))))
    None (isParsing sh) None.

Definition withApp (f : AppState -> AppState) (sh : Shell) : Shell :=
  mkShell (f (app sh)) (pdfArrayBuffer sh) (isParsing sh) (isTextBased sh).

Definition setIsParsing (v : bool) (sh : Shell) : Shell :=
  mkShell (app sh) (pdfArrayBuffer sh) v (isTextBased sh).

(** The text check on page 1: some item has a character that is not white
    space; [false] when the page or its text cannot be had. *)
Definition textFound (pdf : PDFDocumentProxy) (texts : Content.PageTexts)
  : bool :=
  if 0 <? numPages pdf then
    match texts 1 with
    | Some items => existsb (fun str => 0 <? Z.of_nat (String.length (Js.trim str))) items
    | None => false
    end
  else false.

(** [handleFileChange], the reader's callback included. *)
Definition handleFileChange (parse : Parser) (selectedFile : option File)
  (sh : Shell) : Shell :=
  let invalid :=
    withApp (fun s => setPdfDoc None
                        (setFile None
                           (setAppError (Some "Please select a valid PDF file.") s)))
      sh in
  match selectedFile with
  | None => invalid
  | Some f =>
      if negb (String.eqb (type f) "application/pdf") then invalid
      else
        let sh1 :=
          setIsParsing true
            (withApp (setFile (Some (name f))) (resetStateForNewFile sh)) in
        match bytes f with
        | None =>
            setIsParsing false
              (withApp (setAppError (Some "Failed to read file.")) sh1)
        | Some arrayBuffer =>
            let sh2 :=
              mkShell (app sh1) (Some arrayBuffer) (isParsing sh1)
                (isTextBased sh1) in
            match parse arrayBuffer with
            | inr (pdf, texts) =>
                setIsParsing false
                  (mkShell
                     (setHasOutline (Some (outlinePresent pdf))
                        (setPdfDoc (Some pdf) (app sh2)))
                     (pdfArrayBuffer sh2) (isParsing sh2)
                     (Some (textFound pdf texts)))
            | inl message =>
                setIsParsing false
                  (resetStateForNewFile
                     (withApp
                        (setAppError
                           (Some ("Error parsing PDF: " ++ message)%string))
                        sh2))
            end
        end
  end.

End Upload.

(* ===================================================================== *)
(** * Further statements *)
(* ===================================================================== *)

Module More.

(** Chunk ids are positive, pairwise distinct and below the counter. *)
Definition wellNumbered (s : AppState) : Prop :=
  1 <= nextChunkId s
  /\ NoDup (map id (chunks s))
  /\ Forall (fun c => 1 <= id c < nextChunkId s) (chunks s).

(** The nodes of an outline in document order, parents before children. *)
Fixpoint nodes (item : OutlineItem) : list (string * Dest) :=
  match item with
  | Item t d items =>
      (t, d)
      :: (fix nodesOf (l : list OutlineItem) : list (string * Dest) :=
            match l with
            | [] => []
            | i :: l' => nodes i ++ nodesOf l'
            end) items
  end.

(** Total of the waits of a batch, of a call to the service. *)
Fixpoint batchWait (trace : list Batch.Event) : Z :=
  match trace with
  | [] => 0
  | Batch.Sleep ms :: t => ms + batchWait t
  | _ :: t => batchWait t
  end.

Fixpoint serviceWait (trace : list GeminiService.Event) : Z :=
  match trace with
  | [] => 0
  | GeminiService.Sleep ms :: t => ms + serviceWait t
  | _ :: t => serviceWait t
  end.

(** Reading a dataset back: lines, then on each line the two JSON strings
    inside the fixed framing. *)
Fixpoint splitLines (s : string) : list string :=
  match s with
  | EmptyString => [EmptyString]
  | String c rest =>
      if Js.code c =? 10 then EmptyString :: splitLines rest
      else
        match splitLines rest with
        | h :: t => String c h :: t
        | [] => [String c EmptyString]
        end
  end.

Fixpoint stripPrefix (p s : string) : option string :=
  match p with
  | EmptyString => Some s
  | String a p' =>
      match s with
      | String b s' => if Ascii.eqb a b then stripPrefix p' s' else None
      | EmptyString => None
      end
  end.

Definition hexVal (c : ascii) : Z :=
  let n := Js.code c in
  if n <? 58 then n - 48 else n - 87.

(** The body of a JSON string up to its closing quote, and what follows. *)
Fixpoint unquoteBody (s : string) : option (string * string) :=
  match s with
  | EmptyString => None
  | String c rest =>
      if Js.code c =? 34 then Some (EmptyString, rest)
      else if Js.code c =? 92 then
        match rest with
        | String e rest' =>
            let continue (ch : ascii) (r : string) :=
              match unquoteBody r with
              | Some (body, after) => Some (String ch body, after)
              | None => None
              end in
            if Js.code e =? 98 then continue (Js.chr 8) rest'
            else if Js.code e =? 116 then continue (Js.chr 9) rest'
            else if Js.code e =? 110 then continue (Js.chr 10) rest'
            else if Js.code e =? 102 then continue (Js.chr 12) rest'
            else if Js.code e =? 114 then continue (Js.chr 13) rest'
            else if Js.code e =? 117 then
              match rest' with
              | String _ (String _ (String h1 (String h0 r))) =>
                  continue (Js.chr (16 * hexVal h1 + hexVal h0)) r
              | _ => None
              end
            else continue e rest'
        | EmptyString => None
        end
      else
        match unquoteBody rest with
        | Some (body, after) => Some (String c body, after)
        | None => None
        end
  end.

Definition parseLine (line : string) : option QAPair :=
  match stripPrefix (Js.dq "{'messages':[{'role':'user','content':'") line with
  | None => None
  | Some r1 =>
      match unquoteBody r1 with
      | None => None
      | Some (input, r2) =>
          match stripPrefix (Js.dq "},{'role':'model','content':'") r2 with
          | None => None
          | Some r3 =>
              match unquoteBody r3 with
              | Some (output, "}]}") => Some (mkQAPair input output)
              | _ => None
              end
          end
      end
  end.

Fixpoint parseLines (lines : list string) : option (list QAPair) :=
  match lines with
  | [] => Some []
  | l :: rest =>
      match parseLine l, parseLines rest with
      | Some p, Some ps => Some (p :: ps)
      | _, _ => None
      end
  end.

Definition readDataset (content : string) : option (list QAPair) :=
  parseLines (splitLines content).

(** Reading base64 back. *)
Definition b64val (c : ascii) : Z :=
  let n := Js.code c in
  if n =? 43 then 62
  else if n =? 47 then 63
  else if n <? 58 then n + 4
  else if n <? 91 then n - 65
  else n - 71.

Fixpoint atob (s : string) : string :=
  match s with
  | String w (String x (String y (String z rest))) =>
      let a := Js.chr (b64val w * 4 + b64val x / 16) in
      let b := Js.chr (b64val x mod 16 * 16 + b64val y / 4) in
      let c := Js.chr (b64val y mod 4 * 64 + b64val z) in
      if Js.code y =? 61 then String a EmptyString
      else if Js.code z =? 61 then String a (String b EmptyString)
      else String a (String b (String c (atob rest)))
  | _ => EmptyString
  end.

End More.

(* ===================================================================== *)
(** * Properties *)
(* ===================================================================== *)

(** ** The stable sort *)

Section SortByKey.
Context {A : Type} (key : A -> Z).

Local Abbreviation cmp := (fun a b : A => key a - key b).
Local Abbreviation le := (fun a b : A => key a <= key b).

Lemma sort_insert_perm (x : A) (l : list A) :
  Permutation (Js.sort_insert cmp x l) (x :: l).
Proof.
  induction l as [|y l IH]; simpl; [reflexivity|].
  destruct (key x - key y <=? 0); [reflexivity|].
  rewrite IH. apply perm_swap.
Qed.

Lemma sort_perm (l : list A) : Permutation (Js.sort cmp l) l.
Proof.
  induction l as [|x l IH]; simpl; [constructor|].
  rewrite sort_insert_perm. now constructor.
Qed.

Lemma sort_insert_sorted (x : A) (l : list A) :
  StronglySorted le l -> StronglySorted le (Js.sort_insert cmp x l).
Proof.
  induction 1 as [|y l Hs IH Hy]; simpl.
  - repeat constructor.
  - destruct (Z.leb_spec (key x - key y) 0) as [Hc|Hc]; simpl in *.
    + constructor; [now constructor|].
      constructor; [lia|].
      rewrite Forall_forall in *. intros z Hz. specialize (Hy z Hz). lia.
    + constructor; [assumption|].
      rewrite Forall_forall in *. intros z Hz.
      apply (Permutation_in _ (sort_insert_perm x l)) in Hz.
      destruct Hz as [<-|Hz]; [lia|auto].
Qed.

Lemma sort_sorted (l : list A) : StronglySorted le (Js.sort cmp l).
Proof.
  induction l as [|x l IH]; simpl; [constructor|].
  now apply sort_insert_sorted.
Qed.

(** Stability: the elements that share a key keep their order. *)
Lemma sort_insert_stable (p : Z) (x : A) (l : list A) :
  filter (fun a => key a =? p) (Js.sort_insert cmp x l)
  = filter (fun a => key a =? p) (x :: l).
Proof.
  induction l as [|y l IH]; simpl; [reflexivity|].
  destruct (Z.leb_spec (key x - key y) 0) as [Hc|Hc]; [reflexivity|].
  simpl. rewrite IH. simpl.
  destruct (Z.eqb_spec (key x) p), (Z.eqb_spec (key y) p); try reflexivity.
  lia.
Qed.

Lemma sort_stable (p : Z) (l : list A) :
  filter (fun a => key a =? p) (Js.sort cmp l)
  = filter (fun a => key a =? p) l.
Proof.
  induction l as [|x l IH]; simpl; [reflexivity|].
  rewrite sort_insert_stable. simpl. now rewrite IH.
Qed.
End SortByKey.

(** ** Manual chunks *)

Module ChunksProps.
Import Chunks Spec.

Lemma addChunk_chunks (start end_ : Z) (s : AppState) :
  chunks (addChunk start end_ s)
  = Js.sort compareStart (chunks s ++ [mkChunk (nextChunkId s) start end_ None]).
Proof. reflexivity. Qed.

(** Whatever the collaborators deliver, a batch starts generations on a
    prefix of the chunk list, in list order. *)
Lemma loop_attempted (w : Batch.World) (total : Z) (rest : list Chunk) :
  forall completed s trace,
  exists k,
    attempted (snd (Batch.loop w total rest completed s trace))
    = attempted trace ++ firstn k (map id rest).
Proof.
  assert (Happ : forall t1 t2, attempted (t1 ++ t2) = attempted t1 ++ attempted t2).
  { induction t1 as [|[i|c t|ms] t1 IH]; intros t2; simpl; rewrite ?IH; reflexivity. }
  induction rest as [|chunk rest IH]; intros completed s trace; simpl.
  - exists 0%nat. now rewrite app_nil_r.
  - destruct (Normalizer.generateQaForChunk _ chunk s) as [msg|s1]; simpl.
    + exists 1%nat. now rewrite Happ.
    + destruct (completed + 1 <? total);
        match goal with
        | |- context [Batch.loop w total rest ?c ?s' ?t] =>
            destruct (IH c s' t) as [k Hk]
        end;
        exists (S k); rewrite Hk, !Happ; simpl;
        rewrite ?app_nil_r, <- app_assoc; reflexivity.
Qed.

Lemma batch_attempted (w : Batch.World) (s : AppState) :
  exists k,
    attempted (snd (Batch.handleGenerateAllQa w s)) = firstn k (map id (chunks s)).
Proof.
  unfold Batch.handleGenerateAllQa.
  destruct (chunks s) as [|c cs] eqn:E.
  - exists 0%nat. reflexivity.
  - match goal with
    | |- context [Batch.loop w ?tot ?r ?c0 ?s' ?t] =>
        destruct (loop_attempted w tot r c0 s' t) as [k Hk]
    end.
    exists k. exact Hk.
Qed.

(** C10.  Every manual add appends the new chunk and sorts the whole chunk
    list by start page: after [addChunk] the list is ordered by [startPage]
    (whatever its order before) and holds exactly the old chunks and the new
    one; the new chunk takes the current id counter, which then moves up by
    one, so ids follow creation order; and a batch started on the new state
    runs over the chunks in this list order. *)
Theorem addChunk_orders_by_startPage (start end_ : Z) (s : AppState) :
  let newChunk := mkChunk (nextChunkId s) start end_ None in
  let s' := addChunk start end_ s in
  orderedByStart (chunks s')
  /\ Permutation (chunks s') (chunks s ++ [newChunk])
  /\ selectedChunk s' = Some newChunk
  /\ nextChunkId s' = nextChunkId s + 1
  /\ (Forall (fun c => id c < nextChunkId s) (chunks s) ->
      Forall (fun c => id c < id newChunk) (chunks s)
      /\ Forall (fun c => id c < nextChunkId s') (chunks s'))
  /\ (forall w : Batch.World,
        exists k,
          attempted (snd (Batch.handleGenerateAllQa w s'))
          = firstn k (map id (chunks s'))).
Proof.
  intros newChunk s'.
  assert (Hp : Permutation (chunks s') (chunks s ++ [newChunk]))
    by apply (sort_perm startPage).
  split; [apply (sort_sorted startPage)|].
  split; [exact Hp|].
  split; [reflexivity|]. split; [reflexivity|].
  split.
  - intros Hid. split; [exact Hid|].
    rewrite Forall_forall in *. intros c Hc.
    apply (Permutation_in _ Hp), in_app_or in Hc.
    destruct Hc as [Hc|[<-|[]]].
    + specialize (Hid c Hc). simpl. lia.
    + simpl. lia.
  - intros w. apply batch_attempted.
Qed.

(** The list order after two adds is by start page while the ids record the
    order of creation. *)
Lemma addChunk_orders_by_startPage_witness :
  let s := addChunk 5 6 (loaded "doc.pdf" (mkPdf 9 None (fun _ => None) (fun _ => None))) in
  Forall (fun c => id c < nextChunkId s) (chunks s)
  /\ map (fun c => (id c, startPage c)) (chunks (addChunk 1 2 s)) = [(2, 1); (1, 5)]
  /\ Forall (fun c => id c < nextChunkId (addChunk 1 2 s)) (chunks (addChunk 1 2 s)).
Proof.
  intros s.
  pose proof (addChunk_orders_by_startPage 1 2 s) as H. cbv zeta in H.
  destruct H as (_ & _ & _ & _ & Hids & _).
  assert (H0 : Forall (fun c => id c < nextChunkId s) (chunks s)).
  { repeat constructor. }
  split; [exact H0|]. split; [reflexivity|].
  exact (proj2 (Hids H0)).
Defined.

Lemma positiveInteger_Some (n : Z) : positiveInteger (Some n) <-> 0 < n.
Proof.
  split.
  - intros (m & [= ->] & H). exact H.
  - intros H. now exists n.
Qed.

Lemma positiveInteger_None : ~ positiveInteger None.
Proof. intros (m & [=] & _). Qed.

(** C9.  The manual-add path refuses, with an error message and leaving the
    whole application state (so the chunk list) as it was, every request
    whose start or end page, as read from the inputs, is not a positive
    integer, whose start exceeds its end, whose start or end exceeds the page
    count, or whose span exceeds 4 pages; every other request adds exactly the
    chunk asked for, which lies within the document and spans at most 4
    pages. *)
Theorem handleAddChunk_validates (numPages : Z) (f : Form) (s : AppState) :
  let start := Js.parseInt (startPageInput f) in
  let end_ := Js.parseInt (endPageInput f) in
  let r := handleAddChunk numPages f s in
  (invalidRequest numPages start end_ ->
     snd r = s /\ error (fst r) <> EmptyString)
  /\ (~ invalidRequest numPages start end_ ->
     exists a b,
       start = Some a /\ end_ = Some b
       /\ snd r = addChunk a b s /\ error (fst r) = EmptyString
       /\ 1 <= a /\ a <= b /\ b <= numPages /\ b - a + 1 <= 4).
Proof.
  intros start end_ r. subst r. unfold handleAddChunk.
  fold start. fold end_.
  destruct start as [a|], end_ as [b|].
  2-4: split; [intros _; split; [reflexivity|discriminate]|];
       intros H; exfalso; apply H; unfold invalidRequest;
       (left; exact positiveInteger_None)
       || (right; left; exact positiveInteger_None).
  destruct (Z.leb_spec a 0) as [Ha|Ha]; simpl.
  { split; [intros _; split; [reflexivity|discriminate]|].
    intros H; exfalso; apply H. left. rewrite positiveInteger_Some. lia. }
  destruct (Z.leb_spec b 0) as [Hb|Hb]; simpl.
  { split; [intros _; split; [reflexivity|discriminate]|].
    intros H; exfalso; apply H. right; left. rewrite positiveInteger_Some. lia. }
  assert (Hbad : forall P : Prop,
             (a > b \/ a > numPages \/ b > numPages \/ b - a + 1 > 4) ->
             (~ invalidRequest numPages (Some a) (Some b) -> P)).
  { intros P Hc H. exfalso. apply H. right; right. now exists a, b. }
  destruct (Z.gtb_spec a b) as [Hab|Hab].
  { split; [intros _; split; [reflexivity|discriminate]|]. apply Hbad. lia. }
  destruct (Z.gtb_spec a numPages) as [Han|Han]; simpl.
  { split; [intros _; split; [reflexivity|]|apply Hbad; lia].
    simpl. discriminate. }
  destruct (Z.gtb_spec b numPages) as [Hbn|Hbn]; simpl.
  { split; [intros _; split; [reflexivity|]|apply Hbad; lia].
    simpl. discriminate. }
  destruct (Z.gtb_spec (b - a + 1) 4) as [Hsp|Hsp].
  { split; [intros _; split; [reflexivity|discriminate]|]. apply Hbad. lia. }
  split.
  - intros [H|[H|(a' & b' & [= <-] & [= <-] & H)]].
    + rewrite positiveInteger_Some in H. lia.
    + rewrite positiveInteger_Some in H. lia.
    + lia.
  - intros _. exists a, b. simpl. repeat split; try reflexivity; lia.
Qed.

(** A request for pages 2 to 7 of a 9-page document spans 6 pages and is
    refused; a request for pages 2 to 5 is accepted. *)
Lemma handleAddChunk_validates_witness :
  let pdf := mkPdf 9 None (fun _ => None) (fun _ => None) in
  let s := loaded "doc.pdf" pdf in
  (snd (handleAddChunk 9 (mkForm "2" "7" EmptyString) s) = s
   /\ error (fst (handleAddChunk 9 (mkForm "2" "7" EmptyString) s))
      = "Chunk cannot exceed 4 pages.")
  /\ map (fun c => (startPage c, endPage c))
       (chunks (snd (handleAddChunk 9 (mkForm "2" "5" EmptyString) s)))
     = [(2, 5)].
Proof.
  intros pdf s. split.
  - destruct (handleAddChunk_validates 9 (mkForm "2" "7" EmptyString) s)
      as [Hrej _].
    cbv zeta in Hrej.
    assert (Hinv : invalidRequest 9 (Js.parseInt "2") (Js.parseInt "7")).
    { right; right. exists 2, 7. repeat split. right; right; right. reflexivity. }
    split; [exact (proj1 (Hrej Hinv))|reflexivity].
  - destruct (handleAddChunk_validates 9 (mkForm "2" "5" EmptyString) s)
      as [_ Hacc].
    cbv zeta in Hacc.
    assert (Hok : ~ invalidRequest 9 (Js.parseInt "2") (Js.parseInt "5")).
    { intros [H|[H|(a & b & Ha & Hb & H)]].
      - apply H. exists 2. split; [reflexivity|lia].
      - apply H. exists 5. split; [reflexivity|lia].
      - vm_compute in Ha, Hb. injection Ha as <-. injection Hb as <-. lia. }
    destruct (Hacc Hok) as (a & b & Ha & Hb & Hs & _).
    vm_compute in Ha, Hb. injection Ha as <-. injection Hb as <-.
    rewrite Hs. reflexivity.
Defined.

End ChunksProps.

(** ** Outline failures *)

Module OutlineProps.
Import AutoSplit Examples Spec.

(** C8, as the program has it.  When auto-split runs on an outline that is
    there but of which no bookmark resolves, it sets an explicit error, clears
    the chunk list and resets the id counter and the selection: nothing
    partial is applied.  The no-outline case is a different path: a document
    loaded without outline has [hasOutline] false, auto-split is unavailable
    and returns at once, so no error is set and the state, chunk list
    included, stays as it was.  (Were the outline found missing once
    auto-split runs, it would fail in the same way with an error of its
    own.) *)
Theorem outline_failure_is_explicit (pdf : PDFDocumentProxy) (s : AppState) :
  pdfDoc s = Some pdf ->
  (forall outline,
      hasOutline s = Some true ->
      getOutline pdf = Some outline ->
      processOutline pdf outline = [] ->
      appError (autoSplitPdf s) = Some structureError
      /\ chunks (autoSplitPdf s) = []
      /\ nextChunkId (autoSplitPdf s) = 1
      /\ selectedChunk (autoSplitPdf s) = None)
  /\ (hasOutline s = Some (outlinePresent pdf) ->
      getOutline pdf = None ->
      autoSplitPdf s = s)
  /\ (hasOutline s = Some true ->
      getOutline pdf = None ->
      appError (autoSplitPdf s) = Some noOutlineError
      /\ chunks (autoSplitPdf s) = []
      /\ nextChunkId (autoSplitPdf s) = 1
      /\ selectedChunk (autoSplitPdf s) = None)
  /\ hasOutline (loaded "doc.pdf" pdf) = Some (outlinePresent pdf)
  /\ structureError <> noOutlineError.
Proof.
  intros Hdoc. unfold autoSplitPdf. rewrite Hdoc.
  split; [|split; [|split; [|split; [reflexivity|discriminate]]]].
  - intros outline Hout Hget Hnone. rewrite Hout.
    unfold trySplit. rewrite Hget, Hnone. repeat split.
  - intros Hout Hget. rewrite Hout. unfold outlinePresent. now rewrite Hget.
  - intros Hout Hget. rewrite Hout. unfold trySplit. rewrite Hget. repeat split.
Qed.

Lemma outline_failure_is_explicit_witness :
  (appError (autoSplitPdf (Chunks.addChunk 1 2 (loaded "doc.pdf" brokenPdf)))
   = Some structureError
   /\ chunks (autoSplitPdf (Chunks.addChunk 1 2 (loaded "doc.pdf" brokenPdf))) = [])
  /\ autoSplitPdf (loaded "doc.pdf" plainPdf) = loaded "doc.pdf" plainPdf.
Proof.
  split.
  - destruct (outline_failure_is_explicit brokenPdf
                (Chunks.addChunk 1 2 (loaded "doc.pdf" brokenPdf))
                eq_refl) as [Hhard _].
    destruct (Hhard _ eq_refl eq_refl eq_refl) as (He & Hc & _).
    split; assumption.
  - destruct (outline_failure_is_explicit plainPdf (loaded "doc.pdf" plainPdf)
                eq_refl) as (_ & Hnone & _).
    exact (Hnone eq_refl eq_refl).
Defined.

(** The claim as written has the chunk list end up empty in the no-outline
    case too.  It does not: a chunk added by hand to a document without an
    outline is still there after auto-split is invoked. *)
Lemma no_outline_keeps_chunks :
  let s := Chunks.addChunk 1 2 (loaded "doc.pdf" plainPdf) in
  pdfDoc s = Some plainPdf
  /\ getOutline plainPdf = None
  /\ hasOutline s = Some (outlinePresent plainPdf)
  /\ chunks (autoSplitPdf s) = [mkChunk 1 1 2 None]
  /\ chunks (autoSplitPdf s) <> [].
Proof.
  cbv zeta. repeat split. discriminate.
Qed.

End OutlineProps.

(** ** Strings *)

Module StringProps.
Import Spec.

Lemma append_nil_r (s : string) : (s ++ EmptyString)%string = s.
Proof. induction s; simpl; congruence. Qed.

Lemma append_assoc (a b c : string) :
  ((a ++ b) ++ c)%string = (a ++ b ++ c)%string.
Proof. induction a; simpl; congruence. Qed.

Lemma startsWith_append (p s : string) : Js.startsWith (p ++ s) p = true.
Proof.
  induction p as [|c p IH]; simpl; [now destruct s|].
  now rewrite Ascii.eqb_refl, IH.
Qed.

Lemma endsWithChar_append (a b : string) (c : ascii) :
  b <> EmptyString -> Js.endsWithChar (a ++ b) c = Js.endsWithChar b c.
Proof.
  intros Hb. induction a as [|x a IH]; simpl; [reflexivity|].
  destruct (a ++ b)%string eqn:E; [|exact IH].
  destruct a; simpl in E; [contradiction|discriminate].
Qed.

Lemma endsWithChar_snoc (a : string) (c : ascii) :
  Js.endsWithChar (a ++ String c EmptyString) c = true.
Proof.
  rewrite endsWithChar_append by discriminate. simpl. apply Ascii.eqb_refl.
Qed.

Lemma withQuestionMark_ends (q : string) :
  Js.endsWithChar (withQuestionMark q) "?" = true.
Proof.
  unfold withQuestionMark. destruct (Js.endsWithChar q "?") eqn:E; [exact E|].
  apply endsWithChar_snoc.
Qed.

Lemma withQuestionMark_nonempty (q : string) : withQuestionMark q <> EmptyString.
Proof.
  intros H. pose proof (withQuestionMark_ends q) as E. now rewrite H in E.
Qed.

Lemma lowerFirst_ends (q : string) :
  Js.endsWithChar q "?" = true -> Js.endsWithChar (lowerFirst q) "?" = true.
Proof.
  destruct q as [|c [|d q]]; simpl; try easy.
  intros H. apply Ascii.eqb_eq in H. subst c. reflexivity.
Qed.

Lemma lowerFirst_nonempty (q : string) :
  q <> EmptyString -> lowerFirst q <> EmptyString.
Proof. destruct q; simpl; [contradiction|discriminate]. Qed.

Lemma lowerFirst_charAt (q : string) :
  (Js.toLowerCase (Js.charAt0 q) ++ Js.slice1 q)%string = lowerFirst q.
Proof. destruct q; reflexivity. Qed.

(** [trim] *)

Lemma trimStart_shape (s : string) :
  Js.trimStart s = EmptyString
  \/ exists c t, Js.trimStart s = String c t /\ Js.isWhiteSpace c = false.
Proof.
  induction s as [|c s IH]; simpl; [now left|].
  destruct (Js.isWhiteSpace c) eqn:E; [exact IH|].
  right. now exists c, s.
Qed.

Lemma trimStart_empty_iff (s : string) :
  Js.trimStart s = EmptyString <-> allWhiteSpace s = true.
Proof.
  induction s as [|c s IH]; simpl; [tauto|].
  destruct (Js.isWhiteSpace c); simpl; [exact IH|].
  split; discriminate.
Qed.

Lemma trimEnd_keeps_head (c : ascii) (s : string) :
  Js.isWhiteSpace c = false -> exists t, Js.trimEnd (String c s) = String c t.
Proof.
  intros Hc. simpl. destruct (Js.trimEnd s) as [|d t].
  - rewrite Hc. now exists EmptyString.
  - now exists (String d t).
Qed.

Lemma trimEnd_idempotent (s : string) : Js.trimEnd (Js.trimEnd s) = Js.trimEnd s.
Proof.
  induction s as [|c s IH]; simpl; [reflexivity|].
  destruct (Js.trimEnd s) as [|d t] eqn:E.
  - destruct (Js.isWhiteSpace c) eqn:Hc; simpl; [reflexivity|].
    now rewrite Hc.
  - change (Js.trimEnd (String c (String d t)))
      with (match Js.trimEnd (String d t) with
            | EmptyString =>
                if Js.isWhiteSpace c then EmptyString else String c EmptyString
            | u => String c u
            end).
    now rewrite IH.
Qed.

Lemma trim_idempotent (s : string) : Js.trim (Js.trim s) = Js.trim s.
Proof.
  unfold Js.trim.
  destruct (trimStart_shape s) as [E|(c & t & E & Hc)]; rewrite E.
  - reflexivity.
  - destruct (trimEnd_keeps_head c t Hc) as (u & Eu).
    rewrite Eu. simpl Js.trimStart. rewrite Hc, <- Eu.
    apply trimEnd_idempotent.
Qed.

Lemma trim_empty_iff (s : string) :
  Js.trim s = EmptyString <-> allWhiteSpace s = true.
Proof.
  rewrite <- trimStart_empty_iff. unfold Js.trim.
  destruct (trimStart_shape s) as [E|(c & t & E & Hc)]; rewrite E.
  - simpl. tauto.
  - destruct (trimEnd_keeps_head c t Hc) as (u & Eu). rewrite Eu.
    split; discriminate.
Qed.

End StringProps.

(** ** Normalisation *)

Module NormalizerProps.
Import Normalizer Spec StringProps.

Lemma contextPrefix_clause (title file : option string) :
  contextPrefix title file = clause (presentTitle title) (documentName file).
Proof. destruct title as [[|c t]|]; reflexivity. Qed.

Lemma normalizePair_spec (chunk : Chunk) (file : option string) (q a : string) :
  q <> EmptyString -> a <> EmptyString ->
  normalizePair chunk file (mkRaw (Some q) (Some a))
  = Some (mkQAPair
            (clause (presentTitle (contextTitle chunk)) (documentName file)
               ++ lowerFirst (withQuestionMark (Js.trim q)))
            (Js.trim a)).
Proof.
  intros Hq Ha. unfold normalizePair. simpl.
  destruct q as [|cq q]; [contradiction|]. destruct a as [|ca a]; [contradiction|].
  cbn [Js.truthy negb orb].
  rewrite contextPrefix_clause, lowerFirst_charAt. reflexivity.
Qed.

Lemma finalPairs_normalize (chunk : Chunk) (file : option string)
  (rawPairs : list RawPair) :
  finalPairs chunk file rawPairs
  = normalize rawPairs (presentTitle (contextTitle chunk)) (documentName file).
Proof.
  unfold finalPairs.
  induction rawPairs as [|[q a] rest IH]; [reflexivity|].
  cbn [map filterNull normalize question answer].
  destruct q as [[|cq q]|], a as [[|ca a]|];
    try (cbn; exact IH); try (destruct q; cbn; exact IH).
  rewrite normalizePair_spec by discriminate.
  cbn [filterNull]. now rewrite IH.
Qed.

(** C3, as the program has it.  The pairs written for a chunk are the raw
    pairs, in order, less those with a missing or empty question or answer,
    each turned into: input_text, the context clause followed by the trimmed
    question, with a question mark appended unless it ends with one and its
    first character lowercased; output_text, the trimmed answer.  The clause
    names the section when the chunk has a context title that is not empty,
    and only the document otherwise.  The pair (what is x, y between blanks)
    under the title Intro in doc.pdf gives the expected texts. *)
Theorem finalPairs_transform (chunk : Chunk) (file : option string)
  (rawPairs : list RawPair) :
  finalPairs chunk file rawPairs
  = normalize rawPairs (presentTitle (contextTitle chunk)) (documentName file)
  /\ finalPairs (mkChunk 1 1 4 (Some "Intro")) (Some "doc.pdf")
       [mkRaw (Some "what is x") (Some " y ")]
     = [mkQAPair
          (Js.dq "In the section 'Intro' of the document 'doc.pdf', what is x?")
          "y"].
Proof. split; [apply finalPairs_normalize|reflexivity]. Qed.

(** The claim as written puts the section clause whenever a title is present.
    A chunk whose title is the empty string (a bookmark without text) gets the
    document clause instead. *)
Lemma empty_title_is_not_a_section :
  finalPairs (mkChunk 1 1 4 (Some EmptyString)) (Some "doc.pdf")
    [mkRaw (Some "what is x") (Some " y ")]
  <> normalize [mkRaw (Some "what is x") (Some " y ")]
       (Some EmptyString) "doc.pdf".
Proof. vm_compute. discriminate. Qed.

Lemma normalize_Forall (P : QAPair -> Prop) (title : option string)
  (doc : string) (rawPairs : list RawPair) :
  (forall r q a,
      In r rawPairs -> question r = Some q -> answer r = Some a ->
      q <> EmptyString -> a <> EmptyString ->
      P (mkQAPair (clause title doc ++ lowerFirst (withQuestionMark (Js.trim q)))
           (Js.trim a))) ->
  Forall P (normalize rawPairs title doc).
Proof.
  induction rawPairs as [|r rest IH]; intros H; simpl; [constructor|].
  assert (Hrest : Forall P (normalize rest title doc)).
  { apply IH. intros r' q a Hin. apply H. now right. }
  destruct (question r) as [[|cq q]|] eqn:Eq; try exact Hrest.
  destruct (answer r) as [[|ca a]|] eqn:Ea; try exact Hrest.
  constructor; [|exact Hrest].
  apply (H r); try assumption; try discriminate. now left.
Qed.

Lemma clause_nonempty (title : option string) (doc : string) :
  clause title doc <> EmptyString.
Proof. destruct title; discriminate. Qed.

(** What does hold of every pair written for a chunk: the input_text is not
    empty, ends with a question mark and begins with the context clause; the
    output_text is trimmed, and it is the trimmed form of a raw answer that
    was not empty, so it is empty exactly when that answer is white space
    only. *)
Lemma finalPairs_shape (chunk : Chunk) (file : option string)
  (rawPairs : list RawPair) :
  Forall
    (fun p =>
       input_text p <> EmptyString
       /\ Js.endsWithChar (input_text p) "?" = true
       /\ Js.startsWith (input_text p)
            (clause (presentTitle (contextTitle chunk)) (documentName file)) = true
       /\ Js.trim (output_text p) = output_text p
       /\ exists r a,
            In r rawPairs /\ answer r = Some a /\ a <> EmptyString
            /\ output_text p = Js.trim a
            /\ (output_text p = EmptyString <-> allWhiteSpace a = true))
    (finalPairs chunk file rawPairs).
Proof.
  rewrite finalPairs_normalize. apply normalize_Forall.
  intros r q a Hin Hq Ha Hqne Hane. cbn [input_text output_text].
  set (c := clause _ _). set (t := lowerFirst _).
  assert (Ht : t <> EmptyString)
    by (apply lowerFirst_nonempty, withQuestionMark_nonempty).
  repeat split.
  - intros H. destruct c eqn:Ec; [now apply (clause_nonempty _ _ Ec)|discriminate].
  - rewrite endsWithChar_append by exact Ht.
    apply lowerFirst_ends, withQuestionMark_ends.
  - apply startsWith_append.
  - apply trim_idempotent.
  - exists r, a. repeat split; try assumption; apply trim_empty_iff.
Qed.

(** C6.  The invariant asks every pair produced by the normalisation for a
    non-empty, trimmed output_text.  The pair (what is x, one blank) under
    the title Intro in doc.pdf is kept, the test for an empty answer being
    made before the trim, and is written with the empty string for
    output_text: the invariant fails on it. *)
Lemma blank_answer_gives_empty_output :
  finalPairs (mkChunk 1 1 4 (Some "Intro")) (Some "doc.pdf")
    [mkRaw (Some "what is x") (Some " ")]
  = [mkQAPair
       (Js.dq "In the section 'Intro' of the document 'doc.pdf', what is x?")
       EmptyString]
  /\ ~ Forall (qaInvariant (Some "Intro") "doc.pdf")
         (finalPairs (mkChunk 1 1 4 (Some "Intro")) (Some "doc.pdf")
            [mkRaw (Some "what is x") (Some " ")]).
Proof.
  split; [reflexivity|].
  intros H. inversion H as [|p l Hp _ E]; subst.
  destruct Hp as (_ & _ & _ & Hne & _). now apply Hne.
Qed.

End NormalizerProps.

(** ** The generation service *)

Module GeminiProps.
Import GeminiService Spec Examples.

(** One turn of the loop, read off its defining equations. *)
Lemma retryLoop_unfold (endpoint : Endpoint) (attempt : Z)
  (lastError : option ApiError) (trace : list Event) :
  retryLoop endpoint attempt lastError trace
  = if Z_le_gt_dec attempt MAX_RETRIES then
      match attemptOnce (endpoint attempt) with
      | inr parsedData => (inr parsedData, trace ++ [Call attempt])
      | inl error =>
          match classify error with
          | AccessDenied => (inl deniedMessage, trace ++ [Call attempt])
          | LocationUnsupported => (inl locationMessage, trace ++ [Call attempt])
          | Retriable =>
              if attempt <? MAX_RETRIES then
                retryLoop endpoint (attempt + 1) (Some error)
                  (trace ++ [Call attempt; Sleep (backoff attempt)])
              else
                retryLoop endpoint (attempt + 1) (Some error)
                  (trace ++ [Call attempt])
          end
      end
    else (inl (finalMessage lastError), trace).
Proof.
  funelim (retryLoop endpoint attempt lastError trace);
    try clear Heqcall;
    repeat match goal with
           | H : ?l = _ |- context [?l] => rewrite H
           end;
    reflexivity.
Qed.






Ltac enter_turn :=
  rewrite retryLoop_unfold;
  match goal with
  | |- context [Z_le_gt_dec ?a MAX_RETRIES] =>
      destruct (Z_le_gt_dec a MAX_RETRIES) as [_|Hgt];
      [|exfalso; unfold MAX_RETRIES in Hgt; lia]
  end.

Ltac retried_before :=
  let j := fresh "j" in
  let Hj := fresh "Hj" in
  intros j Hj;
  first
    [ exfalso; lia
    | assert (j = 1) as -> by lia; eexists; split; eassumption
    | assert (j = 1 \/ j = 2) as [-> | ->] by lia; eexists; split; eassumption ].

(** The loop started at attempt 1, whatever the endpoint does. *)
Lemma retryLoop_policy (endpoint : Endpoint) :
  exists k,
    1 <= k <= MAX_RETRIES
    /\ calls (snd (retryLoop endpoint 1 None [])) = k
    /\ snd (retryLoop endpoint 1 None []) = traceUpTo k
    /\ (forall j, 1 <= j < k -> retriedAt endpoint j)
    /\ match attemptOnce (endpoint k) with
       | inr parsedData => fst (retryLoop endpoint 1 None []) = inr parsedData
       | inl e =>
           match classify e with
           | AccessDenied =>
               fst (retryLoop endpoint 1 None []) = inl deniedMessage
           | LocationUnsupported =>
               fst (retryLoop endpoint 1 None []) = inl locationMessage
           | Retriable =>
               k = MAX_RETRIES
               /\ fst (retryLoop endpoint 1 None [])
                  = inl (if rateLimited (Some e)
                         then rateLimitMessage else failedMessage)
           end
       end.
Proof.
  enter_turn.
  destruct (attemptOnce (endpoint 1)) as [e1|p1] eqn:E1;
    [destruct (classify e1) eqn:C1|].
  1,2,4: exists 1; rewrite E1, ?C1;
         (split; [unfold MAX_RETRIES; lia|]);
         (split; [reflexivity|]); (split; [reflexivity|]);
         (split; [retried_before|reflexivity]).
  change (1 <? MAX_RETRIES) with true. cbv iota. change (1 + 1) with 2.
  enter_turn.
  destruct (attemptOnce (endpoint 2)) as [e2|p2] eqn:E2;
    [destruct (classify e2) eqn:C2|].
  1,2,4: exists 2; rewrite E2, ?C2;
         (split; [unfold MAX_RETRIES; lia|]);
         (split; [reflexivity|]); (split; [reflexivity|]);
         (split; [retried_before|reflexivity]).
  change (2 <? MAX_RETRIES) with true. cbv iota. change (2 + 1) with 3.
  enter_turn.
  destruct (attemptOnce (endpoint 3)) as [e3|p3] eqn:E3;
    [destruct (classify e3) eqn:C3|].
  1,2,4: exists 3; rewrite E3, ?C3;
         (split; [unfold MAX_RETRIES; lia|]);
         (split; [reflexivity|]); (split; [reflexivity|]);
         (split; [retried_before|reflexivity]).
  change (3 <? MAX_RETRIES) with false. cbv iota. change (3 + 1) with 4.
  rewrite retryLoop_unfold.
  destruct (Z_le_gt_dec 4 MAX_RETRIES) as [Hle|_];
    [exfalso; unfold MAX_RETRIES in Hle; lia|].
  exists 3. rewrite E3, C3.
  split; [unfold MAX_RETRIES; lia|].
  split; [reflexivity|]. split; [reflexivity|].
  split; [retried_before|]. split; reflexivity.
Qed.

(** *** The format test *)

Lemma hasKey_iff (k : string) (fields : list (string * Json)) :
  hasKey k (JObject fields) = true <-> In k (map fst fields).
Proof.
  simpl. rewrite existsb_exists, in_map_iff. split.
  - intros (f & Hin & E). apply String.eqb_eq in E. now exists f.
  - intros (f & E & Hin). exists f. split; [exact Hin|now apply String.eqb_eq].
Qed.

Lemma isQa_iff (item : Json) : isQa item = true <-> qaObject item.
Proof.
  unfold isQa, qaObject. split.
  - destruct item as [| | | | |fields]; try discriminate.
    rewrite !andb_true_iff, !hasKey_iff. intros [[_ Hq] Ha]. now exists fields.
  - intros (fields & -> & Hq & Ha).
    rewrite !andb_true_iff, !hasKey_iff. now repeat split.
Qed.

Lemma checkFormat_iff (parsedData : Json) (items : list Json) :
  checkFormat parsedData = Some items
  <-> parsedData = JArray items /\ Forall qaObject items.
Proof.
  unfold checkFormat. split.
  - destruct parsedData as [| | | |l|]; try discriminate.
    destruct (Js.length l =? 0) eqn:E0; simpl.
    + intros [= <-]. split; [reflexivity|].
      destruct l; [constructor|discriminate].
    + destruct (forallb isQa l) eqn:Ef; [|discriminate].
      intros [= <-]. split; [reflexivity|].
      rewrite forallb_forall in Ef. apply Forall_forall.
      intros item Hin. now apply isQa_iff, Ef.
  - intros [-> H].
    assert (Ef : forallb isQa items = true).
    { apply forallb_forall. rewrite Forall_forall in H.
      intros item Hin. now apply isQa_iff, H. }
    rewrite Ef, orb_true_r. reflexivity.
Qed.

Lemma attemptOnce_iff (r : Reply) (items : list Json) :
  attemptOnce r = inr items
  <-> r = Parsed (JArray items) /\ Forall qaObject items.
Proof.
  split.
  - destruct r as [e|m|d]; simpl; try discriminate.
    destruct (checkFormat d) as [l|] eqn:E; [|discriminate].
    intros [= <-]. apply checkFormat_iff in E as [-> H]. now split.
  - intros [-> H]. unfold attemptOnce.
    now rewrite (proj2 (checkFormat_iff (JArray items) items) (conj eq_refl H)).
Qed.

(** *** The retry policy *)








(** C7, as the program has it.  An attempt succeeds exactly when the answer
    parses as an array whose elements are all objects having the keys
    question and answer (the empty array included); what the values under
    those keys are is not looked at.  So every element of a list returned by
    [generateQuestionsAndAnswers] is an object with both keys, and a list
    that is not empty is the whole array answered to one of the three
    attempts. *)
Theorem generate_checks_keys (endpoint : Endpoint) (text : string)
  (images : option (list string)) (items : list Json) :
  fst (generateQuestionsAndAnswers endpoint text images) = inr items ->
  Forall qaObject items
  /\ (items = [] \/
      exists k, 1 <= k <= 3 /\ endpoint k = Parsed (JArray items))
  /\ (forall r l,
        attemptOnce r = inr l <-> r = Parsed (JArray l) /\ Forall qaObject l).
Proof.
  intros Hret.
  assert (Hmain : Forall qaObject items
                  /\ (items = [] \/
                      exists k, 1 <= k <= 3 /\ endpoint k = Parsed (JArray items))).
  { unfold generateQuestionsAndAnswers in Hret.
    destruct (blank text images).
    - injection Hret as <-. split; [constructor|now left].
    - destruct (retryLoop_policy endpoint) as (k & Hk & _ & _ & _ & Hlast).
      destruct (attemptOnce (endpoint k)) as [e|l] eqn:E.
      + exfalso. destruct (classify e);
          [| |destruct Hlast as [_ Hlast]]; congruence.
      + assert (l = items) as -> by congruence.
        apply attemptOnce_iff in E as [E H].
        split; [exact H|]. right. exists k. now split. }
  destruct Hmain as [H1 H2].
  split; [exact H1|]. split; [exact H2|].
  intros r l. apply attemptOnce_iff.
Qed.

Lemma generate_checks_keys_witness :
  Forall qaObject
    [JObject [("question", JString EmptyString); ("answer", JNumber 5)]].
Proof.
  exact (proj1 (generate_checks_keys sloppyEndpoint "some text" None _ eq_refl)).
Defined.

(** The claim as written has every returned element carry a question and an
    answer that are non-empty strings.  An answer whose only element has an
    empty question and a number for an answer passes the format test and is
    returned as it is. *)
Lemma sloppy_pairs_are_returned :
  fst (generateQuestionsAndAnswers sloppyEndpoint "some text" None)
  = inr [JObject [("question", JString EmptyString); ("answer", JNumber 5)]]
  /\ ~ Forall
         (fun item =>
            nonEmptyStringField "question" item
            /\ nonEmptyStringField "answer" item)
         [JObject [("question", JString EmptyString); ("answer", JNumber 5)]].
Proof.
  split; [reflexivity|].
  intros H. inversion H as [|item l [(fields & v & E & Hin & Hv) _] _]; subst.
  injection E as <-.
  destruct Hin as [Hin|[Hin|[]]]; [|discriminate Hin].
  injection Hin as <-. now apply Hv.
Qed.

End GeminiProps.

(** ** The cache *)

Module CacheProps.
Import Spec.

Lemma get_set_same (k : Z) (v : list QAPair) (c : list (Z * list QAPair)) :
  Cache.get k (Cache.set k v c) = Some v.
Proof.
  induction c as [|[k' v'] c IH]; simpl.
  - now rewrite Z.eqb_refl.
  - destruct (Z.ltb_spec k k'); simpl.
    + now rewrite Z.eqb_refl.
    + destruct (Z.eqb_spec k k'); simpl.
      * now rewrite Z.eqb_refl.
      * destruct (Z.eqb_spec k k'); [contradiction|exact IH].
Qed.

Lemma get_set_other (k k0 : Z) (v : list QAPair) (c : list (Z * list QAPair)) :
  k <> k0 -> Cache.get k (Cache.set k0 v c) = Cache.get k c.
Proof.
  intros Hne. induction c as [|[k' v'] c IH]; simpl.
  - destruct (Z.eqb_spec k k0); [contradiction|reflexivity].
  - destruct (Z.ltb_spec k0 k'); simpl.
    + destruct (Z.eqb_spec k k0); [contradiction|reflexivity].
    + destruct (Z.eqb_spec k0 k'); simpl.
      * subst k'. destruct (Z.eqb_spec k k0); [contradiction|reflexivity].
      * now rewrite IH.
Qed.

Lemma get_set_defined (k k0 : Z) (v : list QAPair) (c : list (Z * list QAPair)) :
  Cache.get k c <> None -> Cache.get k (Cache.set k0 v c) <> None.
Proof.
  intros H. destruct (Z.eq_dec k k0) as [->|Hne].
  - now rewrite get_set_same.
  - now rewrite get_set_other.
Qed.

Lemma set_keys_in (k k0 : Z) (v : list QAPair) (c : list (Z * list QAPair)) :
  In k (map fst (Cache.set k0 v c)) -> k = k0 \/ In k (map fst c).
Proof.
  induction c as [|[k' v'] c IH]; simpl.
  - intros [<-|[]]. now left.
  - destruct (Z.ltb_spec k0 k'); simpl.
    + intros [<-|H']; [now left|now right].
    + destruct (Z.eqb_spec k0 k'); simpl.
      * intros [<-|H']; [now left|right; now right].
      * intros [<-|H']; [right; now left|].
        destruct (IH H') as [->|Hin]; [now left|right; now right].
Qed.

(** Writing an entry keeps the keys in ascending order. *)
Lemma set_ascending (k : Z) (v : list QAPair) (c : list (Z * list QAPair)) :
  ascendingKeys c -> ascendingKeys (Cache.set k v c).
Proof.
  unfold ascendingKeys.
  induction c as [|[k' v'] c IH]; simpl; intros Hs.
  - repeat constructor.
  - apply StronglySorted_inv in Hs as [Hs Hall].
    destruct (Z.ltb_spec k k'); simpl.
    + constructor; [now constructor|].
      constructor; [assumption|].
      rewrite Forall_forall in *. intros z Hz. specialize (Hall z Hz). lia.
    + destruct (Z.eqb_spec k k'); simpl.
      * subst k'. now constructor.
      * constructor; [now apply IH|].
        rewrite Forall_forall in *. intros z Hz.
        apply set_keys_in in Hz as [->|Hz]; [lia|auto].
Qed.

Lemma delete_ascending (k : Z) (c : list (Z * list QAPair)) :
  ascendingKeys c -> ascendingKeys (Cache.delete k c).
Proof.
  unfold ascendingKeys, Cache.delete.
  induction c as [|[k' v'] c IH]; simpl; intros Hs; [constructor|].
  apply StronglySorted_inv in Hs as [Hs Hall].
  destruct (negb (k' =? k)); simpl; [|now apply IH].
  constructor; [now apply IH|].
  rewrite Forall_forall in *. intros z Hz. apply Hall.
  rewrite in_map_iff in *. destruct Hz as (e & E & Hin).
  apply filter_In in Hin as [Hin _]. now exists e.
Qed.

End CacheProps.

(** ** Batch generation *)

Module BatchProps.
Import Normalizer Batch Spec CacheProps Examples.

Lemma generateQaForChunk_inr (d : Delivery) (chunk : Chunk) (s s1 : AppState) :
  generateQaForChunk d chunk s = inr s1 ->
  exists pairs,
    basePairs d = inr pairs
    /\ s1 = setQaCache
              (Cache.set (id chunk) (finalPairs chunk (fileName s) pairs)
                 (qaCache s)) s.
Proof.
  unfold generateQaForChunk.
  destruct (_ && _); [discriminate|].
  destruct (basePairs d) as [m|pairs]; [discriminate|].
  intros [= <-]. now exists pairs.
Qed.

Lemma attempted_app (t1 t2 : list Event) :
  attempted (t1 ++ t2) = attempted t1 ++ attempted t2.
Proof.
  induction t1 as [|[i|c t|ms] t1 IH]; simpl; rewrite ?IH; reflexivity.
Qed.

Lemma attempted_steps (total from : Z) (done : list Chunk) :
  attempted (steps total from done) = map id done.
Proof.
  revert from. induction done as [|c done IH]; intros from; simpl; [reflexivity|].
  rewrite attempted_app, IH. now destruct (from + 1 <? total).
Qed.

Lemma written_defined (w : World) (file : option string) (done : list Chunk) :
  forall from cache k,
    Cache.get k cache <> None ->
    Cache.get k (written w file from done cache) <> None.
Proof.
  induction done as [|c done IH]; intros from cache k H; simpl; [exact H|].
  apply IH. destruct (basePairs (w from c)); [exact H|].
  now apply get_set_defined.
Qed.

Lemma written_ascending (w : World) (file : option string) (done : list Chunk) :
  forall from cache,
    ascendingKeys cache -> ascendingKeys (written w file from done cache).
Proof.
  induction done as [|c done IH]; intros from cache H; simpl; [exact H|].
  apply IH. destruct (basePairs (w from c)); [exact H|].
  now apply set_ascending.
Qed.

(** Every handler leaves the keys of the cache in ascending order. *)
Lemma loop_ascending (w : World) (total : Z) (rest : list Chunk) :
  forall completed s trace,
    ascendingKeys (qaCache s) ->
    ascendingKeys (qaCache (fst (loop w total rest completed s trace))).
Proof.
  induction rest as [|c rest IH]; intros completed s trace H; simpl; [exact H|].
  destruct (generateQaForChunk (w completed c) c s) as [m|s1] eqn:E;
    [exact H|].
  destruct (generateQaForChunk_inr _ _ _ _ E) as (pairs & _ & ->).
  destruct (completed + 1 <? total); apply IH; simpl; now apply set_ascending.
Qed.

Lemma handleGenerateAllQa_ascending (w : World) (s : AppState) :
  ascendingKeys (qaCache s) ->
  ascendingKeys (qaCache (fst (handleGenerateAllQa w s))).
Proof.
  intros H. unfold handleGenerateAllQa.
  destruct (chunks s); [exact H|]. now apply loop_ascending.
Qed.

Lemma deleteChunk_ascending (i : Z) (s : AppState) :
  ascendingKeys (qaCache s) ->
  ascendingKeys (qaCache (Chunks.deleteChunk i s)).
Proof.
  intros H. unfold Chunks.deleteChunk.
  destruct (selectedChunk s) as [c|]; [destruct (id c =? i)|];
    simpl; now apply delete_ascending.
Qed.

(** The loop over a run of chunks that go through, followed either by the end
    of the list or by a chunk that fails. *)
Lemma loop_run (w : World) (total : Z) (done : list Chunk) :
  forall completed s trace,
    (forall i c, nth_error done i = Some c ->
                 succeedsOn (w (completed + Z.of_nat i) c) c) ->
    (forall failing later m,
        failsWith (w (completed + Js.length done) failing) failing m ->
        let r := loop w total (done ++ failing :: later) completed s trace in
        snd r = trace ++ steps total completed done ++ [Attempt (id failing)]
        /\ appError (fst r) = Some (haltMessage failing m)
        /\ qaCache (fst r) = written w (fileName s) completed done (qaCache s)
        /\ generationProgress (fst r)
           = match done with
             | [] => generationProgress s
             | _ => (completed + Js.length done, total)
             end
        /\ isGeneratingAll (fst r) = false
        /\ chunks (fst r) = chunks s)
    /\ (let r := loop w total done completed s trace in
        snd r = trace ++ steps total completed done
        /\ appError (fst r) = appError s
        /\ qaCache (fst r) = written w (fileName s) completed done (qaCache s)
        /\ generationProgress (fst r)
           = match done with
             | [] => generationProgress s
             | _ => (completed + Js.length done, total)
             end
        /\ isGeneratingAll (fst r) = false
        /\ chunks (fst r) = chunks s).
Proof.
  induction done as [|c done IH]; intros completed s trace Hok.
  - split.
    + intros failing later m Hfail. simpl.
      unfold Js.length in Hfail. simpl in Hfail. rewrite Z.add_0_r in Hfail.
      rewrite (Hfail s). simpl. repeat split.
    + simpl. rewrite app_nil_r. repeat split.
  - destruct (Hok 0%nat c eq_refl s) as [s1 Hs1].
    simpl Z.of_nat in Hs1. rewrite Z.add_0_r in Hs1.
    destruct (generateQaForChunk_inr _ _ _ _ Hs1) as (pairs & Hpairs & ->).
    assert (Hok' : forall i c', nth_error done i = Some c' ->
                     succeedsOn (w (completed + 1 + Z.of_nat i) c') c').
    { intros i c' Hi. specialize (Hok (S i) c' Hi).
      replace (completed + 1 + Z.of_nat i) with (completed + Z.of_nat (S i))
        by lia. exact Hok. }
    assert (Hlen : completed + Js.length (c :: done)
                   = completed + 1 + Js.length done).
    { unfold Js.length. simpl List.length. lia. }
    split.
    + intros failing later m Hfail. rewrite Hlen in Hfail.
      cbn [app loop]. rewrite Hs1. cbn zeta.
      destruct (completed + 1 <? total) eqn:Elt;
        match goal with
        | |- context [loop w total (done ++ failing :: later) ?c0 ?s0 ?t0] =>
            destruct (IH c0 s0 t0 Hok') as [IHf _];
            specialize (IHf failing later m Hfail); cbv zeta in IHf;
            destruct IHf as (Ht & He & Hc & Hp & Hg & Hch)
        end;
        (split; [rewrite Ht; cbn [steps]; rewrite Elt, <- ?app_assoc; reflexivity|]);
        (split; [exact He|]);
        (split; [rewrite Hc; cbn [written]; rewrite Hpairs; reflexivity|]);
        (split; [rewrite Hp, Hlen; destruct done; [|reflexivity];
                 unfold Js.length; simpl; f_equal; lia|]);
        (split; [exact Hg|exact Hch]).
    + cbn [loop]. rewrite Hs1. cbn zeta.
      destruct (completed + 1 <? total) eqn:Elt;
        match goal with
        | |- context [loop w total done ?c0 ?s0 ?t0] =>
            destruct (IH c0 s0 t0 Hok') as [_ IHs];
            cbv zeta in IHs;
            destruct IHs as (Ht & He & Hc & Hp & Hg & Hch)
        end;
        (split; [rewrite Ht; cbn [steps]; rewrite Elt, <- ?app_assoc; reflexivity|]);
        (split; [exact He|]);
        (split; [rewrite Hc; cbn [written]; rewrite Hpairs; reflexivity|]);
        (split; [rewrite Hp, Hlen; destruct done; [|reflexivity];
                 unfold Js.length; simpl; f_equal; lia|]);
        (split; [exact Hg|exact Hch]).
Qed.

Lemma succeedsOn_pairs (d : Delivery) (c : Chunk) :
  succeedsOn d c -> exists pairs, basePairs d = inr pairs.
Proof.
  intros H. destruct (H (loaded EmptyString plainPdf)) as [s1 Hs1].
  destruct (generateQaForChunk_inr _ _ _ _ Hs1) as (pairs & Hp & _).
  now exists pairs.
Qed.

Lemma written_covers (w : World) (file : option string) (done : list Chunk) :
  forall from cache,
    (forall i c, nth_error done i = Some c ->
                 succeedsOn (w (from + Z.of_nat i) c) c) ->
    forall c, In c done ->
              Cache.get (id c) (written w file from done cache) <> None.
Proof.
  induction done as [|c0 done IH]; intros from cache Hok c Hin; [destruct Hin|].
  simpl.
  assert (Hok' : forall i c', nth_error done i = Some c' ->
                   succeedsOn (w (from + 1 + Z.of_nat i) c') c').
  { intros i c' Hi. specialize (Hok (S i) c' Hi).
    replace (from + 1 + Z.of_nat i) with (from + Z.of_nat (S i)) by lia.
    exact Hok. }
  destruct Hin as [->|Hin]; [|now apply IH].
  apply written_defined.
  destruct (succeedsOn_pairs _ _ (Hok 0%nat c eq_refl)) as (pairs & Hp).
  simpl Z.of_nat in Hp. rewrite Z.add_0_r in Hp. rewrite Hp.
  rewrite get_set_same. discriminate.
Qed.

Lemma handle_nonempty (w : World) (s : AppState) :
  chunks s <> [] ->
  handleGenerateAllQa w s
  = loop w (Js.length (chunks s)) (chunks s) 0
      (setGenerationProgress (0, Js.length (chunks s))
         (setAppError None (setIsGeneratingAll true s)))
      [Progress 0 (Js.length (chunks s))].
Proof.
  unfold handleGenerateAllQa. destruct (chunks s); [contradiction|reflexivity].
Qed.

(** C5.  A batch takes the chunks in list order, one after the other.  For
    the chunks [done] that go through it starts the generation, reports
    progress (number done, total) after it, and waits 5 seconds unless the
    chunk is the last of the list.  When the chunk that follows fails, the
    batch stops there: that chunk is the last one started, no later chunk is
    attempted, the error shown names its id, the progress stays at the number
    done, and the cache holds the entries written for the chunks done, on top
    of what it held before.  When every chunk goes through, all are started
    in order and the progress ends at (total, total). *)
Theorem batch_halts_on_first_failure (w : World) (s : AppState)
  (done : list Chunk) :
  (forall i c, nth_error done i = Some c -> succeedsOn (w (Z.of_nat i) c) c) ->
  (forall failing later m,
      chunks s = done ++ failing :: later ->
      failsWith (w (Js.length done) failing) failing m ->
      snd (handleGenerateAllQa w s)
      = Progress 0 (Js.length (chunks s))
          :: steps (Js.length (chunks s)) 0 done ++ [Attempt (id failing)]
      /\ attempted (snd (handleGenerateAllQa w s)) = map id done ++ [id failing]
      /\ appError (fst (handleGenerateAllQa w s))
         = Some ("Error on chunk #" ++ Js.numberToString (id failing) ++ ": "
                   ++ m ++ ". Halting process.")%string
      /\ generationProgress (fst (handleGenerateAllQa w s))
         = (Js.length done, Js.length (chunks s))
      /\ qaCache (fst (handleGenerateAllQa w s))
         = written w (fileName s) 0 done (qaCache s)
      /\ (forall c, In c done ->
            Cache.get (id c) (qaCache (fst (handleGenerateAllQa w s))) <> None)
      /\ (forall k, Cache.get k (qaCache s) <> None ->
            Cache.get k (qaCache (fst (handleGenerateAllQa w s))) <> None)
      /\ isGeneratingAll (fst (handleGenerateAllQa w s)) = false
      /\ chunks (fst (handleGenerateAllQa w s)) = chunks s)
  /\ (chunks s = done -> done <> [] ->
      snd (handleGenerateAllQa w s)
      = Progress 0 (Js.length done) :: steps (Js.length done) 0 done
      /\ attempted (snd (handleGenerateAllQa w s)) = map id done
      /\ appError (fst (handleGenerateAllQa w s)) = None
      /\ generationProgress (fst (handleGenerateAllQa w s))
         = (Js.length done, Js.length done)
      /\ qaCache (fst (handleGenerateAllQa w s))
         = written w (fileName s) 0 done (qaCache s)
      /\ isGeneratingAll (fst (handleGenerateAllQa w s)) = false).
Proof.
  intros Hok.
  assert (Hok0 : forall i c, nth_error done i = Some c ->
                   succeedsOn (w (0 + Z.of_nat i) c) c).
  { intros i c Hi. rewrite Z.add_0_l. now apply Hok. }
  split.
  - intros failing later m Hchunks Hfail.
    rewrite handle_nonempty by (rewrite Hchunks; now destruct done).
    set (tot := Js.length (chunks s)). rewrite Hchunks.
    match goal with
    | |- context [loop w ?tot _ 0 ?s0 ?t0] =>
        destruct (loop_run w tot done 0 s0 t0 Hok0) as [Hrun _];
        specialize (Hrun failing later m)
    end.
    rewrite Z.add_0_l in Hrun. specialize (Hrun Hfail). cbv zeta in Hrun.
    destruct Hrun as (Ht & He & Hc & Hp & Hg & Hch).
    split; [rewrite Ht; reflexivity|].
    split; [rewrite Ht; simpl; rewrite attempted_app, attempted_steps;
            reflexivity|].
    split; [exact He|].
    split; [rewrite Hp; destruct done; reflexivity|].
    split; [exact Hc|].
    split; [intros c Hin; rewrite Hc; now apply written_covers|].
    split; [intros k Hk; rewrite Hc; now apply written_defined|].
    split; [exact Hg|]. rewrite Hch. simpl. exact Hchunks.
  - intros Hchunks Hne.
    rewrite handle_nonempty by now rewrite Hchunks.
    rewrite Hchunks.
    match goal with
    | |- context [loop w ?tot _ 0 ?s0 ?t0] =>
        destruct (loop_run w tot done 0 s0 t0 Hok0) as [_ Hrun]
    end.
    cbv zeta in Hrun. destruct Hrun as (Ht & He & Hc & Hp & Hg & Hch).
    split; [rewrite Ht; reflexivity|].
    split; [rewrite Ht; simpl; rewrite attempted_steps; reflexivity|].
    split; [exact He|].
    split; [rewrite Hp; destruct done; [contradiction|reflexivity]|].
    split; [exact Hc|exact Hg].
Qed.

(** Three chunks, the second of which fails: the first chunk's pairs are in
    the cache, chunks 1 and 2 are the only ones started, the progress stays
    at (1, 3) and the error names chunk 2. *)
Lemma batch_halts_on_first_failure_witness :
  Cache.get 1 (qaCache (fst (handleGenerateAllQa secondFails threeChunks)))
  <> None
  /\ attempted (snd (handleGenerateAllQa secondFails threeChunks)) = [1; 2]
  /\ snd (handleGenerateAllQa secondFails threeChunks)
     = [Progress 0 3; Attempt 1; Progress 1 3; Sleep 5000; Attempt 2]
  /\ generationProgress (fst (handleGenerateAllQa secondFails threeChunks))
     = (1, 3)
  /\ appError (fst (handleGenerateAllQa secondFails threeChunks))
     = Some ("Error on chunk #2: " ++ GeminiService.rateLimitMessage
               ++ ". Halting process.")%string.
Proof.
  assert (Hok : forall i c,
             nth_error [mkChunk 1 1 4 None] i = Some c ->
             succeedsOn (secondFails (Z.of_nat i) c) c).
  { intros [|[|i]] c [= <-]. intros st. eexists. reflexivity. }
  destruct (batch_halts_on_first_failure secondFails threeChunks
              [mkChunk 1 1 4 None] Hok) as [Hfail _].
  specialize (Hfail (mkChunk 2 5 8 None) [mkChunk 3 9 9 None]
                GeminiService.rateLimitMessage eq_refl
                (fun st => eq_refl)).
  destruct Hfail as (Ht & Ha & He & Hp & _ & Hin & _).
  split; [apply (Hin (mkChunk 1 1 4 None)); now left|].
  split; [exact Ha|]. split; [exact Ht|]. split; [exact Hp|exact He].
Defined.

End BatchProps.

(** ** Export *)

Module DatasetProps.
Import Dataset Spec Examples StringProps.

Lemma lineBreaks_app (a b : string) :
  lineBreaks (a ++ b) = lineBreaks a + lineBreaks b.
Proof. induction a as [|c a IH]; simpl; [reflexivity|]. rewrite IH. lia. Qed.

Lemma quoteChar_one_line (c : ascii) : lineBreaks (Js.quoteChar c) = 0.
Proof.
  destruct c as [b0 b1 b2 b3 b4 b5 b6 b7].
  destruct b0, b1, b2, b3, b4, b5, b6, b7; reflexivity.
Qed.

Lemma stringify_one_line (s : string) : lineBreaks (Js.stringify s) = 0.
Proof.
  unfold Js.stringify. cbn [lineBreaks].
  change (Js.code Js.dquote =? 10) with false. cbv iota.
  rewrite lineBreaks_app. cbn [lineBreaks].
  change (Js.code Js.dquote =? 10) with false. cbv iota.
  induction s as [|c s IH]; simpl; [reflexivity|].
  rewrite lineBreaks_app, quoteChar_one_line. simpl in IH. lia.
Qed.

(** A line of the dataset is one line. *)
Lemma jsonLine_one_line (p : QAPair) : lineBreaks (jsonLine p) = 0.
Proof.
  unfold jsonLine. rewrite !lineBreaks_app, !stringify_one_line. reflexivity.
Qed.

Lemma join_lineBreaks (l : list string) :
  l <> [] -> Forall (fun x => lineBreaks x = 0) l ->
  lineBreaks (Js.join Js.LF l) = Js.length l - 1.
Proof.
  induction l as [|x l IH]; intros Hne Hall; [contradiction|].
  apply Forall_cons_iff in Hall as [Hx Hl].
  destruct l as [|y l].
  - simpl. rewrite Hx. reflexivity.
  - change (Js.join Js.LF (x :: y :: l))
      with (x ++ Js.LF ++ Js.join Js.LF (y :: l))%string.
    rewrite !lineBreaks_app, Hx, IH by (discriminate || assumption).
    unfold Js.length. simpl List.length. change (lineBreaks Js.LF) with 1. lia.
Qed.

Lemma get_above (k : Z) (c : list (Z * list QAPair)) :
  Forall (fun k' => k < k') (map fst c) -> Cache.get k c = None.
Proof.
  induction c as [|[k' v] c IH]; simpl; intros H; [reflexivity|].
  apply Forall_cons_iff in H as [Hk H].
  destruct (Z.eqb_spec k k'); [lia|now apply IH].
Qed.

Lemma flat_map_agree {A B : Type} (f g : A -> list B) (l : list A) :
  (forall a, In a l -> f a = g a) -> flat_map f l = flat_map g l.
Proof.
  induction l as [|a l IH]; intros H; simpl; [reflexivity|].
  rewrite (H a (or_introl eq_refl)), IH; [reflexivity|].
  intros b Hb. apply H. now right.
Qed.

Lemma sort_ascending (l : list Z) :
  StronglySorted Z.lt l -> Js.sort (fun a b => a - b) l = l.
Proof.
  induction 1 as [|k l Hs IH Hk]; simpl; [reflexivity|].
  rewrite IH. destruct l as [|y l]; [reflexivity|]. simpl.
  apply Forall_cons_iff in Hk as [Hy _].
  destruct (Z.leb_spec (k - y) 0); [reflexivity|lia].
Qed.

(** The values of a cache, in the order of [Object.values], are its entries
    taken by ascending id. *)
Lemma values_in_id_order (s : AppState) :
  ascendingKeys (qaCache s) -> allPairs s = pairsInIdOrder s.
Proof.
  unfold allPairs, pairsInIdOrder, ascendingKeys. intros Hasc.
  rewrite (sort_ascending _ Hasc).
  induction (qaCache s) as [|[k v] c IH]; [reflexivity|].
  simpl in Hasc. apply StronglySorted_inv in Hasc as [Hs Hk].
  cbn [map fst flat_map Cache.get Cache.values List.concat snd].
  rewrite Z.eqb_refl. f_equal.
  unfold Cache.values in IH. rewrite (IH Hs).
  apply flat_map_agree. intros a Ha.
  rewrite Forall_forall in Hk. specialize (Hk a Ha).
  destruct (Z.eqb_spec a k); [lia|reflexivity].
Qed.

(** In a chunk list whose ids ascend, taking the cached pairs chunk by chunk
    gives the values of the cache in key order. *)
Lemma list_order_is_key_order (l : list Chunk) :
  forall cache,
    ascendingIds l -> ascendingKeys cache ->
    (forall k, In k (map fst cache) -> In k (map id l)) ->
    flat_map
      (fun c => match Cache.get (id c) cache with
                | Some pairs => pairs
                | None => []
                end) l
    = List.concat (Cache.values cache).
Proof.
  unfold ascendingIds, ascendingKeys.
  induction l as [|c l IH]; intros cache Hids Hkeys Hsub.
  - destruct cache as [|[k v] cache]; [reflexivity|].
    destruct (Hsub k (or_introl eq_refl)).
  - simpl in Hids. apply StronglySorted_inv in Hids as [Hids Hc].
    rewrite Forall_forall in Hc.
    destruct cache as [|[k v] cache].
    + cbn [flat_map]. rewrite IH; try assumption; [reflexivity|intros k []].
    + simpl in Hkeys. apply StronglySorted_inv in Hkeys as [Hkeys Hk].
      change (List.concat (Cache.values ((k, v) :: cache)))
        with (v ++ List.concat (Cache.values cache)).
      set (f := fun c0 : Chunk =>
                  match Cache.get (id c0) ((k, v) :: cache) with
                  | Some pairs => pairs
                  | None => []
                  end).
      change (flat_map f (c :: l)) with (f c ++ flat_map f l).
      unfold f at 1. cbn [Cache.get].
      destruct (Z.eqb_spec (id c) k) as [E|E].
      * f_equal. subst k.
        rewrite <- (IH cache Hids Hkeys).
        -- apply flat_map_agree. intros c' Hc'. unfold f. cbn [Cache.get].
           specialize (Hc (id c') (in_map id _ _ Hc')).
           destruct (Z.eqb_spec (id c') (id c)); [lia|reflexivity].
        -- intros k Hin. destruct (Hsub k (or_intror Hin)) as [E|Hl]; [|exact Hl].
           rewrite Forall_forall in Hk. specialize (Hk k Hin). simpl in E. lia.
      * assert (Hlt : id c < k).
        { destruct (Hsub k (or_introl eq_refl)) as [E'|Hl]; [simpl in E'; lia|].
          exact (Hc k Hl). }
        rewrite get_above.
        2:{ rewrite Forall_forall in *. intros k' Hk'. specialize (Hk k' Hk'). lia. }
        cbn [app]. unfold f.
        rewrite (IH ((k, v) :: cache) Hids); [reflexivity| |].
        -- simpl. now constructor.
        -- intros k' Hin. destruct (Hsub k' Hin) as [E'|Hl]; [|exact Hl].
           simpl in E'. subst k'. destruct Hin as [E'|Hin]; [simpl in E'; lia|].
           rewrite Forall_forall in Hk. specialize (Hk _ Hin). lia.
Qed.

(** C4, as the program has it.  When the cache holds at least one pair, the
    export offers a file named qa_dataset.json whose content has one line per
    pair, each line being the messages object with the pair's input_text under
    the user role and its output_text under the model role, both as JSON
    strings, and the lines joined by line feeds.  The pairs are those of the
    cache entries taken in ascending order of chunk id (the order in which an
    object lists its integer keys), each entry's pairs in cached order.  That
    is the order of the chunk list when the ids ascend along the list and
    every id with a cache entry is the id of a chunk of the list, as after an
    auto-split that went through; an entry left under an id that no chunk
    has is exported all the same. *)
Theorem export_in_id_order (s : AppState) :
  ascendingKeys (qaCache s) ->
  allPairs s <> [] ->
  exists d,
    handleSaveAllQa s = (s, Some d)
    /\ download d = "qa_dataset.json"
    /\ content d = Js.join Js.LF (map jsonLine (pairsInIdOrder s))
    /\ (forall p,
          jsonLine p
          = (Js.dq "{'messages':[{'role':'user','content':"
               ++ Js.stringify (input_text p)
               ++ Js.dq "},{'role':'model','content':"
               ++ Js.stringify (output_text p) ++ "}]}")%string
          /\ lineBreaks (jsonLine p) = 0)
    /\ lineBreaks (content d) = Js.length (allPairs s) - 1
    /\ (ascendingIds (chunks s) ->
        (forall k, In k (map fst (qaCache s)) -> In k (map id (chunks s))) ->
        content d = Js.join Js.LF (map jsonLine (pairsInListOrder s))).
Proof.
  intros Hasc Hne. unfold handleSaveAllQa.
  destruct (allPairs s) as [|p0 ps] eqn:E; [contradiction|].
  rewrite <- E. eexists. split; [reflexivity|]. cbn [download content].
  split; [reflexivity|].
  split; [now rewrite (values_in_id_order s Hasc)|].
  split; [intros p; split; [reflexivity|apply jsonLine_one_line]|].
  split.
  - rewrite join_lineBreaks.
    + unfold Js.length. now rewrite length_map.
    + rewrite E. discriminate.
    + apply Forall_forall. intros l Hl. apply in_map_iff in Hl as (p & <- & _).
      apply jsonLine_one_line.
  - intros Hids Hsub. unfold pairsInListOrder.
    now rewrite (list_order_is_key_order _ _ Hids Hasc Hsub).
Qed.

(** The cache of the example of the specification: two chunks, one pair
    each, give two lines. *)
Lemma export_in_id_order_witness :
  exists d,
    handleSaveAllQa
      (setQaCache
         (Cache.set 2 [mkQAPair "Q2?" "A2"] (Cache.set 1 [mkQAPair "Q1?" "A1"] []))
         (loaded "doc.pdf" plainPdf))
    = (setQaCache
         (Cache.set 2 [mkQAPair "Q2?" "A2"] (Cache.set 1 [mkQAPair "Q1?" "A1"] []))
         (loaded "doc.pdf" plainPdf),
       Some d)
    /\ download d = "qa_dataset.json"
    /\ content d
       = Js.join Js.LF
           [Js.dq "{'messages':[{'role':'user','content':'Q1?'},{'role':'model','content':'A1'}]}";
            Js.dq "{'messages':[{'role':'user','content':'Q2?'},{'role':'model','content':'A2'}]}"].
Proof.
  assert (Hasc : ascendingKeys
                   (Cache.set 2 [mkQAPair "Q2?" "A2"]
                      (Cache.set 1 [mkQAPair "Q1?" "A1"] []))).
  { repeat constructor. }
  destruct (export_in_id_order
              (setQaCache
                 (Cache.set 2 [mkQAPair "Q2?" "A2"]
                    (Cache.set 1 [mkQAPair "Q1?" "A1"] []))
                 (loaded "doc.pdf" plainPdf))
              Hasc ltac:(discriminate))
    as (d & Hd & Hname & Hcontent & _).
  exists d. split; [exact Hd|]. split; [exact Hname|].
  rewrite Hcontent. vm_compute. reflexivity.
Defined.

(** The claim as written has the pairs come in the order of the chunk list.
    Pages 5-6 added first (id 1) and pages 1-2 second (id 2) give the list
    (2, 1), by start page; after a batch on it the export still puts the
    pairs of chunk 1 first. *)
Lemma export_is_not_in_list_order :
  map id (chunks outOfOrder) = [2; 1]
  /\ map fst (qaCache outOfOrder) = [1; 2]
  /\ option_map content (snd (handleSaveAllQa outOfOrder))
     = Some (Js.join Js.LF
               (map jsonLine
                  [mkQAPair (Js.dq "In the document 'doc.pdf', what is on page 5?") "y";
                   mkQAPair (Js.dq "In the document 'doc.pdf', what is on page 1?") "y"]))
  /\ option_map content (snd (handleSaveAllQa outOfOrder))
     <> Some (Js.join Js.LF (map jsonLine (pairsInListOrder outOfOrder))).
Proof.
  split; [vm_compute; reflexivity|].
  split; [vm_compute; reflexivity|].
  split; [vm_compute; reflexivity|].
  vm_compute. discriminate.
Qed.

End DatasetProps.

(** ** Auto-split *)

Module SplitProps.
Import AutoSplit Spec.

(** *** Removal of duplicate pages *)

Lemma findIndex_from_skip {A : Type} (p : A -> bool) (pre l : list A) (i : Z) :
  existsb p pre = false ->
  Js.findIndex_from p i (pre ++ l)
  = Js.findIndex_from p (i + Js.length pre) l.
Proof.
  revert i. induction pre as [|x pre IH]; intros i H; simpl.
  - unfold Js.length. simpl. now rewrite Z.add_0_r.
  - simpl in H. apply orb_false_iff in H as [Hx Hpre]. rewrite Hx.
    rewrite IH by exact Hpre. f_equal. unfold Js.length. simpl List.length. lia.
Qed.

Lemma findIndex_from_early {A : Type} (p : A -> bool) (pre l : list A) (i : Z) :
  existsb p pre = true ->
  i <= Js.findIndex_from p i (pre ++ l) < i + Js.length pre.
Proof.
  revert i. induction pre as [|x pre IH]; intros i H; simpl in *; [discriminate|].
  unfold Js.length in *. simpl List.length.
  destruct (p x); [lia|]. simpl in H. specialize (IH (i + 1) H). lia.
Qed.

Lemma filter_from_keepFirst (pre l : list Bookmark) :
  Js.filter_from
    (fun bookmark index =>
       index =? Js.findIndex (fun b => page b =? page bookmark) (pre ++ l))
    (Js.length pre) l
  = keepFirst pre l.
Proof.
  revert pre. induction l as [|x l IH]; intros pre; [reflexivity|].
  cbn [Js.filter_from keepFirst].
  assert (Htail :
    Js.filter_from
      (fun bookmark index =>
         index =? Js.findIndex (fun b => page b =? page bookmark) (pre ++ x :: l))
      (Js.length pre + 1) l
    = keepFirst (pre ++ [x]) l).
  { rewrite <- IH. rewrite <- app_assoc. simpl.
    replace (Js.length (pre ++ [x])) with (Js.length pre + 1); [reflexivity|].
    unfold Js.length. rewrite length_app. simpl. lia. }
  rewrite Htail. unfold Js.findIndex.
  destruct (existsb (fun y => page y =? page x) pre) eqn:E.
  - pose proof (findIndex_from_early _ pre (x :: l) 0 E) as Hlt.
    destruct (Z.eqb_spec (Js.length pre)
                (Js.findIndex_from (fun b => page b =? page x) 0 (pre ++ x :: l)));
      [lia|reflexivity].
  - rewrite findIndex_from_skip by exact E. simpl.
    rewrite Z.eqb_refl, Z.eqb_refl. reflexivity.
Qed.

Lemma uniqueBookmarks_keepFirst (bookmarks : list Bookmark) :
  uniqueBookmarks bookmarks = keepFirst [] (Js.sort comparePage bookmarks).
Proof. exact (filter_from_keepFirst [] (Js.sort comparePage bookmarks)). Qed.

Lemma existsb_app_one (f : Bookmark -> bool) (pre : list Bookmark) (x : Bookmark) :
  existsb f (pre ++ [x]) = existsb f pre || f x.
Proof. rewrite existsb_app. simpl. now rewrite orb_false_r. Qed.

Lemma keepFirst_In (l : list Bookmark) :
  forall pre b,
    In b (keepFirst pre l)
    <-> existsb (fun y => page y =? page b) pre = false
        /\ find (fun y => page y =? page b) l = Some b.
Proof.
  induction l as [|x l IH]; intros pre b; cbn [keepFirst find].
  - split; [intros []|intros [_ [=]]].
  - rewrite in_app_iff, IH, existsb_app_one.
    destruct (Z.eqb_spec (page x) (page b)) as [E|E].
    + rewrite orb_true_r. rewrite E. split.
      * intros [H|[[=] _]].
        destruct (existsb _ pre); [destruct H|].
        destruct H as [->|[]]. now split.
      * intros [Hpre [= ->]]. left. rewrite Hpre. now left.
    + rewrite orb_false_r. split.
      * intros [H|H]; [|exact H].
        destruct (existsb (fun y => page y =? page x) pre); [destruct H|].
        destruct H as [->|[]]. contradiction.
      * intros H. now right.
Qed.

Lemma keepFirst_strict (l : list Bookmark) :
  forall pre,
    StronglySorted (fun a b => page a <= page b) l ->
    StronglySorted (fun a b => page a < page b) (keepFirst pre l).
Proof.
  induction l as [|x l IH]; intros pre Hs; cbn [keepFirst]; [constructor|].
  apply StronglySorted_inv in Hs as [Hs Hx].
  specialize (IH (pre ++ [x]) Hs).
  destruct (existsb _ pre); cbn [app]; [exact IH|].
  constructor; [exact IH|].
  apply Forall_forall. intros z Hz.
  apply keepFirst_In in Hz as [Hpre Hfind].
  rewrite existsb_app_one in Hpre. apply orb_false_iff in Hpre as [_ Hne].
  apply find_some in Hfind as [Hin _].
  rewrite Forall_forall in Hx. specialize (Hx z Hin).
  destruct (Z.eqb_spec (page x) (page z)); [discriminate|lia].
Qed.

Lemma find_filter {A : Type} (f : A -> bool) (l : list A) :
  find f l = hd_error (filter f l).
Proof.
  induction l as [|x l IH]; simpl; [reflexivity|].
  now destruct (f x).
Qed.

(** After the sort and the removal of duplicates the pages strictly ascend,
    and the bookmarks kept are the first ones of their page in the order the
    outline gave. *)
Lemma uniqueBookmarks_spec (bookmarks : list Bookmark) :
  StronglySorted (fun a b => page a < page b) (uniqueBookmarks bookmarks)
  /\ forall b, In b (uniqueBookmarks bookmarks)
               <-> firstAt bookmarks (page b) = Some b.
Proof.
  rewrite uniqueBookmarks_keepFirst. split.
  - apply keepFirst_strict. apply (sort_sorted page).
  - intros b. rewrite keepFirst_In. unfold firstAt.
    rewrite !find_filter.
    change (Js.sort comparePage bookmarks)
      with (Js.sort (fun a c => page a - page c) bookmarks).
    rewrite (sort_stable page). simpl. tauto.
Qed.

(** *** Sections *)

Lemma at_index_after (pre : list Bookmark) (x : Bookmark) (l : list Bookmark) :
  Js.at_index (pre ++ x :: l) (Js.length pre + 1) = hd_error l.
Proof.
  unfold Js.at_index, Js.length.
  destruct (Z.ltb_spec (Z.of_nat (List.length pre) + 1) 0); [lia|].
  replace (Z.to_nat (Z.of_nat (List.length pre) + 1)) with (S (List.length pre))
    by lia.
  replace (pre ++ x :: l) with ((pre ++ [x]) ++ l)
    by (rewrite <- app_assoc; reflexivity).
  rewrite nth_error_app2; rewrite length_app; cbn [List.length]; [|lia].
  replace (S (List.length pre) - (List.length pre + 1))%nat with 0%nat by lia.
  now destruct l.
Qed.

Lemma initialChunks_from_sections (N : Z) (l : list Bookmark) :
  forall pre,
    initialChunks_from (pre ++ l) N (Js.length pre) l
    = filter nonEmpty (sectionsOf l N).
Proof.
  induction l as [|x l IH]; intros pre; [reflexivity|].
  cbn [initialChunks_from sectionsOf filter].
  rewrite at_index_after.
  assert (Htail : initialChunks_from (pre ++ x :: l) N (Js.length pre + 1) l
                  = filter nonEmpty (sectionsOf l N)).
  { rewrite <- (IH (pre ++ [x])). rewrite <- app_assoc. simpl.
    replace (Js.length (pre ++ [x])) with (Js.length pre + 1); [reflexivity|].
    unfold Js.length. rewrite length_app. simpl. lia. }
  rewrite Htail.
  assert (Hend :
    (if Js.length pre + 1 <? Js.length (pre ++ x :: l)
     then match hd_error l with
          | Some next => page next - 1
          | None => N
          end
     else N)
    = match l with next :: _ => page next - 1 | [] => N end).
  { destruct l as [|y l]; simpl.
    - now destruct (_ <? _).
    - destruct (Z.ltb_spec (Js.length pre + 1) (Js.length (pre ++ x :: y :: l)))
        as [_|Hge]; [reflexivity|].
      unfold Js.length in Hge. rewrite length_app in Hge. simpl in Hge. lia. }
  rewrite Hend. unfold nonEmpty. cbn [rStart rEnd].
  match goal with
  | |- context [if ?c then [_] else []] => destruct c
  end; reflexivity.
Qed.

Lemma initialChunks_sections (unique : list Bookmark) (N : Z) :
  initialChunks unique N = sections unique N.
Proof. exact (initialChunks_from_sections N unique []). Qed.

(** *** The greedy cut *)

Lemma splitLoop_unfold (currentStart : Z) (chunk : Range) :
  splitLoop currentStart chunk
  = if currentStart <=? rEnd chunk then
      mkRange currentStart
        (Z.min (currentStart + MAX_CHUNK_PAGES - 1) (rEnd chunk)) (rTitle chunk)
      :: splitLoop
           (Z.min (currentStart + MAX_CHUNK_PAGES - 1) (rEnd chunk) + 1) chunk
    else [].
Proof.
  funelim (splitLoop currentStart chunk); try clear Heqcall.
  - destruct (Z.leb_spec currentStart (rEnd chunk)); [reflexivity|lia].
  - destruct (Z.leb_spec currentStart (rEnd chunk)); [lia|reflexivity].
Qed.

Lemma splitLoop_pieces_from (n : nat) :
  forall currentStart chunk,
    n = Z.to_nat ((rEnd chunk - currentStart + 4) / 4) ->
    splitLoop currentStart chunk
    = map (fun k =>
             mkRange (currentStart + 4 * Z.of_nat k)
               (Z.min (currentStart + 4 * Z.of_nat k + 3) (rEnd chunk))
               (rTitle chunk))
        (seq 0 n).
Proof.
  induction n as [|n IH]; intros currentStart chunk Hn;
    rewrite splitLoop_unfold; unfold MAX_CHUNK_PAGES.
  - destruct (Z.leb_spec currentStart (rEnd chunk)); [|reflexivity].
    exfalso.
    assert (1 <= (rEnd chunk - currentStart + 4) / 4)
      by (apply Z.div_le_lower_bound; lia).
    lia.
  - destruct (Z.leb_spec currentStart (rEnd chunk)) as [Hle|Hgt].
    2:{ exfalso.
        assert ((rEnd chunk - currentStart + 4) / 4 <= 0).
        { apply Z.lt_succ_r. apply Z.div_lt_upper_bound; lia. }
        lia. }
    cbn [seq map]. f_equal.
    + f_equal; [lia|f_equal; lia].
    + rewrite <- seq_shift, map_map.
      destruct (Z.le_gt_cases (currentStart + 3) (rEnd chunk)) as [Hfull|Hpart].
      * rewrite Z.min_l by lia.
        rewrite (IH (currentStart + 4 - 1 + 1) chunk).
        -- apply map_ext. intros k. f_equal; [lia|f_equal; lia].
        -- replace (rEnd chunk - (currentStart + 4 - 1 + 1) + 4)
             with ((rEnd chunk - currentStart + 4) + (-1) * 4) by lia.
           rewrite Z.div_add by lia. lia.
      * assert (Hone : (rEnd chunk - currentStart + 4) / 4 = 1).
        { symmetry. apply (Z.div_unique _ 4 1 (rEnd chunk - currentStart)); lia. }
        assert (n = 0%nat) as -> by lia.
        rewrite Z.min_r by lia.
        rewrite splitLoop_unfold.
        destruct (Z.leb_spec (rEnd chunk + 1) (rEnd chunk)); [lia|reflexivity].
Qed.

(** The loop cuts a section into its greedy pieces. *)
Lemma splitLoop_pieces (chunk : Range) :
  splitLoop (rStart chunk) chunk = pieces chunk.
Proof. now apply splitLoop_pieces_from. Qed.

Lemma finalChunks_pieces (initial : list Range) :
  finalChunks initial = flat_map pieces initial.
Proof.
  unfold finalChunks. induction initial as [|r l IH]; simpl; [reflexivity|].
  now rewrite splitLoop_pieces, IH.
Qed.

(** *** Tiling *)

Local Abbreviation rangeSpans := (map (fun r : Range => (rStart r, rEnd r))).

Lemma tiles_app (l1 l2 : list (Z * Z)) (a b c : Z) :
  tiles a l1 b -> tiles (b + 1) l2 c -> tiles a (l1 ++ l2) c.
Proof.
  revert a. induction l1 as [|[x y] l1 IH]; intros a H1 H2; simpl in *.
  - now subst a.
  - destruct H1 as (Hx & Hxy & Hspan & H1). repeat split; try assumption.
    now apply IH.
Qed.

Lemma splitLoop_tiles (n : nat) :
  forall currentStart chunk,
    n = Z.to_nat (rEnd chunk + 1 - currentStart) ->
    currentStart <= rEnd chunk + 1 ->
    tiles currentStart (rangeSpans (splitLoop currentStart chunk)) (rEnd chunk).
Proof.
  induction n as [n IH] using lt_wf_ind. intros currentStart chunk Hn Hle.
  rewrite splitLoop_unfold. unfold MAX_CHUNK_PAGES.
  destruct (Z.leb_spec currentStart (rEnd chunk)) as [Hin|Hout].
  - cbn [map tiles rStart rEnd].
    split; [reflexivity|]. split; [lia|]. split; [lia|].
    apply (IH (Z.to_nat
                 (rEnd chunk + 1
                  - (Z.min (currentStart + 4 - 1) (rEnd chunk) + 1))));
      [lia|reflexivity|lia].
  - simpl. lia.
Qed.

Lemma finalChunks_tiles (N : Z) (l : list Bookmark) :
  forall b rest,
    l = b :: rest ->
    StronglySorted (fun x y => page x < page y) l ->
    Forall (fun x => page x <= N) l ->
    tiles (page b) (rangeSpans (finalChunks (sections l N))) N.
Proof.
  induction l as [|x l IH]; intros b rest E Hs Hall; [discriminate|].
  injection E as -> ->.
  apply StronglySorted_inv in Hs as [Hs Hb].
  apply Forall_cons_iff in Hall as [HbN Hall].
  unfold sections, finalChunks in *. cbn [sectionsOf filter].
  destruct rest as [|b' rest].
  - unfold nonEmpty at 1. cbn [rStart rEnd].
    destruct (Z.leb_spec (page b) N); [|lia].
    cbn [sectionsOf filter flat_map rStart]. rewrite app_nil_r.
    apply (splitLoop_tiles _ (page b) (mkRange (page b) N (title b)) eq_refl).
    simpl. lia.
  - assert (Hlt : page b < page b')
      by (rewrite Forall_forall in Hb; apply Hb; now left).
    unfold nonEmpty at 1. cbn [rStart rEnd].
    destruct (Z.leb_spec (page b) (page b' - 1)); [|lia].
    cbn [flat_map rStart]. rewrite map_app.
    apply tiles_app with (b := page b' - 1).
    + apply (splitLoop_tiles _ (page b)
               (mkRange (page b) (page b' - 1) (title b)) eq_refl).
      simpl. lia.
    + replace (page b' - 1 + 1) with (page b') by lia.
      now apply (IH b' rest).
Qed.

Lemma map_from_spans (final : list Range) :
  forall i,
    map span
      (Js.map_from
         (fun chunk index =>
            mkChunk (index + 1) (rStart chunk) (rEnd chunk) (Some (rTitle chunk)))
         i final)
    = rangeSpans final.
Proof.
  induction final as [|r l IH]; intros i; simpl; [reflexivity|].
  now rewrite IH.
Qed.

Lemma map_from_ids (final : list Range) :
  forall i : nat,
    map id
      (Js.map_from
         (fun chunk index =>
            mkChunk (index + 1) (rStart chunk) (rEnd chunk) (Some (rTitle chunk)))
         (Z.of_nat i) final)
    = map Z.of_nat (seq (S i) (List.length final)).
Proof.
  induction final as [|r l IH]; intros i; simpl; [reflexivity|].
  f_equal; [lia|].
  replace (Z.of_nat i + 1) with (Z.of_nat (S i)) by lia. apply IH.
Qed.

Lemma map_from_length (final : list Range) :
  forall i,
    List.length
      (Js.map_from
         (fun chunk index =>
            mkChunk (index + 1) (rStart chunk) (rEnd chunk) (Some (rTitle chunk)))
         i final)
    = List.length final.
Proof.
  induction final as [|r l IH]; intros i; simpl; [reflexivity|].
  now rewrite IH.
Qed.

(** What a tiling gives for the chunks. *)
Lemma tiles_within (cs : list Chunk) :
  forall a b,
    tiles a (map span cs) b ->
    a <= b + 1
    /\ Forall (fun c => a <= startPage c /\ endPage c <= b) cs.
Proof.
  induction cs as [|c cs IH]; intros a b H; simpl in H.
  - split; [lia|constructor].
  - destruct H as (Ha & Hle & Hspan & H).
    destruct (IH _ _ H) as [Hab Hall]. split; [lia|].
    constructor; [lia|].
    rewrite Forall_forall in *. intros c' Hc'. specialize (Hall c' Hc'). lia.
Qed.

Lemma tiles_cover (cs : list Chunk) :
  forall a b,
    tiles a (map span cs) b ->
    forall p,
      a <= p <= b <-> exists c, In c cs /\ startPage c <= p <= endPage c.
Proof.
  induction cs as [|c cs IH]; intros a b H p; simpl in H.
  - split; [lia|intros (c & [] & _)].
  - destruct H as (Ha & Hle & Hspan & H).
    destruct (tiles_within _ _ _ H) as [Hab Hall].
    specialize (IH _ _ H p). split.
    + intros Hp. destruct (Z.le_gt_cases p (endPage c)) as [Hin|Hafter].
      * exists c. split; [now left|lia].
      * destruct (proj1 IH ltac:(lia)) as (c' & Hc' & Hp').
        exists c'. split; [now right|exact Hp'].
    + intros (c' & [<-|Hc'] & Hp'); [lia|].
      rewrite Forall_forall in Hall. specialize (Hall c' Hc'). lia.
Qed.

Lemma tiles_disjoint (cs : list Chunk) :
  forall a b,
    tiles a (map span cs) b ->
    ForallOrdPairs (fun x y => endPage x < startPage y) cs.
Proof.
  induction cs as [|c cs IH]; intros a b H; simpl in H; [constructor|].
  destruct H as (Ha & Hle & Hspan & H).
  constructor; [|now apply (IH _ _ H)].
  destruct (tiles_within _ _ _ H) as [_ Hall].
  rewrite Forall_forall in *. intros c' Hc'. specialize (Hall c' Hc'). lia.
Qed.

Lemma tiles_spans (cs : list Chunk) :
  forall a b,
    tiles a (map span cs) b ->
    Forall (fun c => 1 <= endPage c - startPage c + 1 <= 4) cs.
Proof.
  induction cs as [|c cs IH]; intros a b H; simpl in H; [constructor|].
  destruct H as (Ha & Hle & Hspan & H).
  constructor; [lia|now apply (IH _ _ H)].
Qed.

(** *** From the document to the chunk list *)

(** The bookmarks resolved in a document whose page-index lookup answers
    with indices of its pages lie on pages 1 to [numPages]. *)
Lemma resolveItem_range (pdf : PDFDocumentProxy) (t : string) (d : Dest) :
  (forall e i, getPageIndex pdf e = Some i -> 0 <= i < numPages pdf) ->
  Forall (fun b => 1 <= page b <= numPages pdf) (resolveItem pdf t d).
Proof.
  intros Hidx. unfold resolveItem.
  assert (Harr : forall a : list DestElem,
             Forall (fun b => 1 <= page b <= numPages pdf)
               match a with
               | e :: _ =>
                   if truthyElem e then
                     match getPageIndex pdf e with
                     | Some pageIndex => [mkBookmark t (pageIndex + 1)]
                     | None => []
                     end
                   else []
               | [] => []
               end).
  { intros [|e a]; [constructor|].
    destruct (truthyElem e); [|constructor].
    destruct (getPageIndex pdf e) as [i|] eqn:E; [|constructor].
    constructor; [|constructor]. specialize (Hidx e i E). simpl. lia. }
  destruct d as [|name|a]; [constructor| |apply Harr].
  destruct (getDestination pdf name) as [[a|]|]; [apply Harr|constructor..].
Qed.

Lemma processItem_range (pdf : PDFDocumentProxy) :
  (forall e i, getPageIndex pdf e = Some i -> 0 <= i < numPages pdf) ->
  forall item,
    Forall (fun b => 1 <= page b <= numPages pdf) (processItem pdf item).
Proof.
  intros Hidx. fix IH 1. intros [t d items]. cbn [processItem].
  apply Forall_app. split; [now apply resolveItem_range|].
  revert items. fix IHl 1. intros [|i items]; [constructor|].
  apply Forall_app. split; [apply IH|apply IHl].
Qed.

Lemma processOutline_range (pdf : PDFDocumentProxy) (outline : list OutlineItem) :
  (forall e i, getPageIndex pdf e = Some i -> 0 <= i < numPages pdf) ->
  Forall (fun b => 1 <= page b <= numPages pdf) (processOutline pdf outline).
Proof.
  intros Hidx. unfold processOutline.
  induction outline as [|item outline IH]; simpl; [constructor|].
  apply Forall_app. split; [now apply processItem_range|exact IH].
Qed.

(** When some bookmark resolves, auto-split replaces the chunk list by the
    chunks computed from the bookmarks, restarts the id counter after them,
    selects the first one and empties the cache. *)
Lemma autoSplitPdf_applies (pdf : PDFDocumentProxy) (s : AppState)
  (outline : list OutlineItem) (b : Bookmark) (rest : list Bookmark) :
  pdfDoc s = Some pdf ->
  hasOutline s = Some true ->
  getOutline pdf = Some outline ->
  processOutline pdf outline = b :: rest ->
  chunks (autoSplitPdf s) = splitBookmarks (b :: rest) (numPages pdf)
  /\ nextChunkId (autoSplitPdf s)
     = Js.length (splitBookmarks (b :: rest) (numPages pdf)) + 1
  /\ selectedChunk (autoSplitPdf s)
     = hd_error (splitBookmarks (b :: rest) (numPages pdf))
  /\ qaCache (autoSplitPdf s) = []
  /\ appError (autoSplitPdf s) = None.
Proof.
  intros Hdoc Hout Hget Hbm. unfold autoSplitPdf, trySplit.
  rewrite Hdoc, Hout, Hget, Hbm. repeat split.
Qed.

Lemma unique_head_page (b0 : Bookmark) (rest : list Bookmark) :
  Forall (fun b => page b0 <= page b) (b0 :: rest) ->
  exists h t, uniqueBookmarks (b0 :: rest) = h :: t /\ page h = page b0.
Proof.
  intros Hmin.
  destruct (uniqueBookmarks_spec (b0 :: rest)) as [Hs Hin].
  assert (H0 : In b0 (uniqueBookmarks (b0 :: rest))).
  { apply Hin. unfold firstAt. simpl. now rewrite Z.eqb_refl. }
  destruct (uniqueBookmarks (b0 :: rest)) as [|h t]; [destruct H0|].
  exists h, t. split; [reflexivity|].
  assert (Hh : In h (b0 :: rest)).
  { assert (Hf : firstAt (b0 :: rest) (page h) = Some h)
      by (apply Hin; now left).
    now apply find_some in Hf as [Hf _]. }
  rewrite Forall_forall in Hmin. specialize (Hmin h Hh).
  destruct H0 as [->|H0]; [reflexivity|].
  apply StronglySorted_inv in Hs as [_ Ht].
  rewrite Forall_forall in Ht. specialize (Ht b0 H0). lia.
Qed.

(** C1.  For resolved bookmarks of an N-page document (pages between 1 and
    N) the first of which is at page 1: after the sort by page and the removal
    of duplicate pages the pages strictly ascend and each bookmark kept is the
    first one of its page, in the sorted list and in the list as given; the sections are those of the bookmarks kept, each
    from its page to the page before the next one's and the last to N, less
    the empty ones; each section is cut greedily, left to right, into pieces
    of at most 4 pages that carry its title; and the chunks that result
    follow one another without gap or overlap from page 1 to page N, so they
    cover exactly the pages 1..N, each spans 1 to 4 pages, and they carry the
    ids 1..count in page order. *)
Theorem autoSplit_tiles_document (b0 : Bookmark) (rest : list Bookmark) (N : Z) :
  page b0 = 1 ->
  Forall (fun b => 1 <= page b <= N) (b0 :: rest) ->
  StronglySorted (fun a b => page a < page b) (uniqueBookmarks (b0 :: rest))
  /\ (forall b, In b (uniqueBookmarks (b0 :: rest))
                <-> firstAt (Js.sort comparePage (b0 :: rest)) (page b) = Some b)
  /\ (forall b, In b (uniqueBookmarks (b0 :: rest))
                <-> firstAt (b0 :: rest) (page b) = Some b)
  /\ initialChunks (uniqueBookmarks (b0 :: rest)) N
     = sections (uniqueBookmarks (b0 :: rest)) N
  /\ finalChunks (initialChunks (uniqueBookmarks (b0 :: rest)) N)
     = flat_map pieces (sections (uniqueBookmarks (b0 :: rest)) N)
  /\ splitBookmarks (b0 :: rest) N
     = Js.map_index
         (fun r index => mkChunk (index + 1) (rStart r) (rEnd r) (Some (rTitle r)))
         (flat_map pieces (sections (uniqueBookmarks (b0 :: rest)) N))
  /\ tiles 1 (map span (splitBookmarks (b0 :: rest) N)) N
  /\ (forall p, 1 <= p <= N
                <-> exists c, In c (splitBookmarks (b0 :: rest) N)
                              /\ startPage c <= p <= endPage c)
  /\ ForallOrdPairs (fun x y => endPage x < startPage y)
       (splitBookmarks (b0 :: rest) N)
  /\ Forall (fun c => 1 <= endPage c - startPage c + 1 <= 4)
       (splitBookmarks (b0 :: rest) N)
  /\ map id (splitBookmarks (b0 :: rest) N)
     = map Z.of_nat (seq 1 (List.length (splitBookmarks (b0 :: rest) N))).
Proof.
  intros Hfirst Hrange.
  destruct (uniqueBookmarks_spec (b0 :: rest)) as [Hs Hin].
  assert (Htiles : tiles 1 (map span (splitBookmarks (b0 :: rest) N)) N).
  { destruct (unique_head_page b0 rest) as (h & t & Eu & Hh).
    { rewrite Hfirst. rewrite Forall_forall in *. intros b Hb.
      specialize (Hrange b Hb). lia. }
    unfold splitBookmarks, newChunksWithId, Js.map_index.
    rewrite map_from_spans, initialChunks_sections.
    rewrite <- Hfirst, <- Hh.
    apply (finalChunks_tiles N _ h t Eu Hs).
    apply Forall_forall. intros b Hb.
    apply Hin in Hb. apply find_some in Hb as [Hb _].
    rewrite Forall_forall in Hrange. specialize (Hrange b Hb). lia. }
  split; [exact Hs|].
  split; [intros b; rewrite uniqueBookmarks_keepFirst, keepFirst_In;
          unfold firstAt; simpl; tauto|].
  split; [exact Hin|].
  split; [apply initialChunks_sections|].
  split; [now rewrite finalChunks_pieces, initialChunks_sections|].
  split.
  { unfold splitBookmarks, newChunksWithId.
    now rewrite finalChunks_pieces, initialChunks_sections. }
  split; [exact Htiles|].
  split; [exact (tiles_cover _ _ _ Htiles)|].
  split; [exact (tiles_disjoint _ _ _ Htiles)|].
  split; [exact (tiles_spans _ _ _ Htiles)|].
  unfold splitBookmarks, newChunksWithId, Js.map_index.
  rewrite map_from_length. apply (map_from_ids _ 0%nat).
Qed.

(** Bookmarks at pages 1, 5, 5 and 12 of a 14-page document: the second
    bookmark of page 5 goes, the sections are 1-4, 5-11 and 12-14, and the
    chunks 1-4, 5-8, 9-11, 12-14 with the ids 1 to 4. *)
Lemma autoSplit_tiles_document_witness :
  splitBookmarks
    [mkBookmark "Intro" 1; mkBookmark "Setup" 5; mkBookmark "Wiring" 5;
     mkBookmark "Annex" 12] 14
  = [mkChunk 1 1 4 (Some "Intro"); mkChunk 2 5 8 (Some "Setup");
     mkChunk 3 9 11 (Some "Setup"); mkChunk 4 12 14 (Some "Annex")]
  /\ tiles 1
       (map span
          (splitBookmarks
             [mkBookmark "Intro" 1; mkBookmark "Setup" 5; mkBookmark "Wiring" 5;
              mkBookmark "Annex" 12] 14)) 14.
Proof.
  assert (Hrange : Forall (fun b => 1 <= page b <= 14)
                     [mkBookmark "Intro" 1; mkBookmark "Setup" 5;
                      mkBookmark "Wiring" 5; mkBookmark "Annex" 12]).
  { repeat constructor; simpl; lia. }
  destruct (autoSplit_tiles_document (mkBookmark "Intro" 1)
              [mkBookmark "Setup" 5; mkBookmark "Wiring" 5; mkBookmark "Annex" 12]
              14 eq_refl Hrange) as (_ & _ & _ & _ & _ & _ & Htiles & _).
  split; [vm_compute; reflexivity|exact Htiles].
Defined.

End SplitProps.

(* ===================================================================== *)
(** * Further properties *)
(* ===================================================================== *)

(** ** More on the stable sort *)

Section SortAndFilter.
Context {A : Type} (key : A -> Z).

Local Abbreviation cmp := (fun a b : A => key a - key b).
Local Abbreviation le := (fun a b : A => key a <= key b).

Lemma sort_insert_front (x : A) (l : list A) :
  Forall (fun y => key x <= key y) l -> Js.sort_insert cmp x l = x :: l.
Proof.
  destruct l as [|y l]; [reflexivity|]. intros H.
  apply Forall_cons_iff in H as [Hy _]. simpl.
  destruct (Z.leb_spec (key x - key y) 0); [reflexivity|lia].
Qed.

Lemma sort_of_sorted (l : list A) : StronglySorted le l -> Js.sort cmp l = l.
Proof.
  induction 1 as [|x l Hs IH Hx]; simpl; [reflexivity|].
  rewrite IH. now apply sort_insert_front.
Qed.

Lemma filter_sorted (p : A -> bool) (l : list A) :
  StronglySorted le l -> StronglySorted le (filter p l).
Proof.
  induction 1 as [|x l Hs IH Hx]; simpl; [constructor|].
  destruct (p x); [|exact IH]. constructor; [exact IH|].
  rewrite Forall_forall in *. intros y Hy. apply filter_In in Hy as [Hy _]. auto.
Qed.

Lemma filter_sort_insert (p : A -> bool) (x : A) (l : list A) :
  StronglySorted le l ->
  filter p (Js.sort_insert cmp x l)
  = if p x then Js.sort_insert cmp x (filter p l) else filter p l.
Proof.
  induction 1 as [|y l Hs IH Hy]; simpl.
  - now destruct (p x).
  - destruct (Z.leb_spec (key x - key y) 0) as [Hle|Hgt].
    + cbn [filter]. destruct (p x) eqn:Px; [|reflexivity].
      symmetry. apply sort_insert_front.
      apply Forall_forall. intros z Hz.
      assert (Hin : In z (y :: l)).
      { destruct (p y); [destruct Hz as [<-|Hz]; [now left|]|];
          right; now apply filter_In in Hz as [Hz _]. }
      destruct Hin as [<-|Hin]; [lia|].
      rewrite Forall_forall in Hy. specialize (Hy z Hin). lia.
    + cbn [filter]. rewrite IH.
      destruct (p x), (p y); try reflexivity.
      simpl. destruct (Z.leb_spec (key x - key y) 0); [lia|reflexivity].
Qed.

(** Filtering commutes with the sort. *)
Lemma filter_sort (p : A -> bool) (l : list A) :
  filter p (Js.sort cmp l) = Js.sort cmp (filter p l).
Proof.
  induction l as [|x l IH]; simpl; [reflexivity|].
  rewrite filter_sort_insert by apply (sort_sorted key).
  rewrite IH. now destruct (p x).
Qed.
End SortAndFilter.

(** ** The chunk list and its cache *)

Module ChunkListProps.
Import Chunks Spec More CacheProps.

Lemma get_delete_same (k : Z) (c : list (Z * list QAPair)) :
  Cache.get k (Cache.delete k c) = None.
Proof.
  unfold Cache.delete. induction c as [|[k' v] c IH]; simpl; [reflexivity|].
  destruct (Z.eqb_spec k' k) as [->|Hne]; simpl; [exact IH|].
  destruct (Z.eqb_spec k k'); [congruence|exact IH].
Qed.

Lemma get_delete_other (k k0 : Z) (c : list (Z * list QAPair)) :
  k <> k0 -> Cache.get k (Cache.delete k0 c) = Cache.get k c.
Proof.
  intros Hne. unfold Cache.delete.
  induction c as [|[k' v] c IH]; simpl; [reflexivity|].
  destruct (Z.eqb_spec k' k0) as [->|Hne']; simpl.
  - destruct (Z.eqb_spec k k0); [contradiction|exact IH].
  - now rewrite IH.
Qed.

Lemma delete_absent (k : Z) (c : list (Z * list QAPair)) :
  ~ In k (map fst c) -> Cache.delete k c = c.
Proof.
  unfold Cache.delete. induction c as [|[k' v] c IH]; simpl; intros H;
    [reflexivity|].
  destruct (Z.eqb_spec k' k) as [->|Hne]; simpl.
  - exfalso. apply H. now left.
  - rewrite IH; [reflexivity|]. intros Hin. apply H. now right.
Qed.

Lemma deleteChunk_fields (i : Z) (s : AppState) :
  chunks (deleteChunk i s) = filter (fun c => negb (id c =? i)) (chunks s)
  /\ qaCache (deleteChunk i s) = Cache.delete i (qaCache s)
  /\ nextChunkId (deleteChunk i s) = nextChunkId s
  /\ appError (deleteChunk i s) = appError s.
Proof.
  unfold deleteChunk.
  destruct (selectedChunk s) as [c|]; [destruct (id c =? i)|]; repeat split.
Qed.

(** X1.  [deleteChunk] removes the chunks with the given id and no other,
    evicts the cache entry of that id and no other, clears the selection
    exactly when the selected chunk has that id, does not move the id
    counter back, and keeps a list ordered by start page ordered. *)
Theorem deleteChunk_removes_and_evicts (i : Z) (s : AppState) :
  (forall c, In c (chunks (deleteChunk i s)) <-> In c (chunks s) /\ id c <> i)
  /\ Cache.get i (qaCache (deleteChunk i s)) = None
  /\ (forall k, k <> i ->
        Cache.get k (qaCache (deleteChunk i s)) = Cache.get k (qaCache s))
  /\ selectedChunk (deleteChunk i s)
     = match selectedChunk s with
       | Some c => if id c =? i then None else Some c
       | None => None
       end
  /\ nextChunkId (deleteChunk i s) = nextChunkId s
  /\ (orderedByStart (chunks s) -> orderedByStart (chunks (deleteChunk i s))).
Proof.
  destruct (deleteChunk_fields i s) as (Hc & Hq & Hn & _).
  rewrite Hc, Hq, Hn.
  split.
  { intros c. rewrite filter_In, negb_true_iff, Z.eqb_neq. tauto. }
  split; [apply get_delete_same|].
  split; [intros k Hk; now apply get_delete_other|].
  split.
  { unfold deleteChunk.
    destruct (selectedChunk s) as [c|] eqn:E; [destruct (id c =? i)|];
      simpl; try reflexivity; exact E. }
  split; [reflexivity|].
  apply (filter_sorted startPage).
Qed.


Lemma deleteChunk_removes_and_evicts_witness :
  let s := addChunk 3 4 (addChunk 1 2 (loaded "doc.pdf" Examples.plainPdf)) in
  map id (chunks (deleteChunk 1 s)) = [2]
  /\ orderedByStart (chunks (deleteChunk 1 s)).
Proof.
  intros s.
  destruct (deleteChunk_removes_and_evicts 1 s) as (_ & _ & _ & _ & _ & Hord).
  split; [reflexivity|]. apply Hord.
  vm_compute. repeat constructor; discriminate.
Defined.

(** X2.  Deleting the chunk that was just added gives back the chunk list as
    it was, when that list was ordered by start page and did not use the id
    of the counter; the cache is as it was when it had no entry under that
    id; the counter stays one up, so the id is not given again. *)
Theorem add_then_delete (start end_ : Z) (s : AppState) :
  orderedByStart (chunks s) ->
  Forall (fun c => id c <> nextChunkId s) (chunks s) ->
  chunks (deleteChunk (nextChunkId s) (addChunk start end_ s)) = chunks s
  /\ nextChunkId (deleteChunk (nextChunkId s) (addChunk start end_ s))
     = nextChunkId s + 1
  /\ selectedChunk (deleteChunk (nextChunkId s) (addChunk start end_ s)) = None
  /\ (~ In (nextChunkId s) (map fst (qaCache s)) ->
      qaCache (deleteChunk (nextChunkId s) (addChunk start end_ s)) = qaCache s).
Proof.
  intros Hord Hfresh.
  destruct (deleteChunk_fields (nextChunkId s) (addChunk start end_ s))
    as (Hc & Hq & Hn & _).
  rewrite Hc, Hq, Hn.
  split.
  { change (chunks (addChunk start end_ s))
      with (Js.sort (fun a b => startPage a - startPage b)
              (chunks s ++ [mkChunk (nextChunkId s) start end_ None])).
    rewrite (filter_sort startPage), filter_app. cbn [filter id].
    rewrite Z.eqb_refl. cbn [negb]. rewrite app_nil_r.
    assert (Hall : filter (fun c => negb (id c =? nextChunkId s)) (chunks s)
                   = chunks s).
    { clear Hord. induction (chunks s) as [|c l IH]; [reflexivity|].
      apply Forall_cons_iff in Hfresh as [Hc' Hl]. simpl.
      destruct (Z.eqb_spec (id c) (nextChunkId s)); [contradiction|].
      simpl. now rewrite IH. }
    rewrite Hall. now apply (sort_of_sorted startPage). }
  split; [reflexivity|].
  split.
  { unfold deleteChunk, addChunk. simpl. now rewrite Z.eqb_refl. }
  intros Habsent. now apply delete_absent.
Qed.

Lemma add_then_delete_witness :
  chunks (deleteChunk 2 (addChunk 1 2 (addChunk 5 6 (loaded "doc.pdf" Examples.plainPdf))))
  = [mkChunk 1 5 6 None].
Proof.
  refine (proj1 (add_then_delete 1 2
                   (addChunk 5 6 (loaded "doc.pdf" Examples.plainPdf)) _ _)).
  - repeat constructor.
  - repeat constructor. simpl. lia.
Defined.

End ChunkListProps.

(** ** Chunk ids across the handlers *)

Module NumberingProps.
Import Chunks Spec More AutoSplit ChunkListProps.

Lemma loop_keeps_chunks (w : Batch.World) (total : Z) (rest : list Chunk) :
  forall completed s trace,
    chunks (fst (Batch.loop w total rest completed s trace)) = chunks s
    /\ nextChunkId (fst (Batch.loop w total rest completed s trace))
       = nextChunkId s.
Proof.
  induction rest as [|c rest IH]; intros completed s trace; simpl;
    [now split|].
  destruct (Normalizer.generateQaForChunk (w completed c) c s) as [m|s1] eqn:E;
    [now split|].
  destruct (BatchProps.generateQaForChunk_inr _ _ _ _ E) as (pairs & _ & ->).
  destruct (completed + 1 <? total);
    match goal with
    | |- context [Batch.loop w total rest ?c0 ?s0 ?t0] =>
        destruct (IH c0 s0 t0) as [H1 H2]; rewrite H1, H2
    end; now split.
Qed.

Lemma batch_keeps_chunks (w : Batch.World) (s : AppState) :
  chunks (fst (Batch.handleGenerateAllQa w s)) = chunks s
  /\ nextChunkId (fst (Batch.handleGenerateAllQa w s)) = nextChunkId s.
Proof.
  unfold Batch.handleGenerateAllQa.
  destruct (chunks s) as [|c cs] eqn:E; [now split|].
  match goal with
  | |- context [Batch.loop w ?tot ?r ?c0 ?s0 ?t0] =>
      destruct (loop_keeps_chunks w tot r c0 s0 t0) as [H1 H2]; rewrite H1, H2
  end.
  simpl. now split.
Qed.

Lemma numbered_from_one (final : list Range) :
  NoDup (map id (newChunksWithId final))
  /\ Forall (fun c => 1 <= id c < Js.length (newChunksWithId final) + 1)
       (newChunksWithId final).
Proof.
  unfold newChunksWithId, Js.map_index, Js.length.
  rewrite SplitProps.map_from_length.
  pose proof (SplitProps.map_from_ids final 0) as Hids. simpl Z.of_nat in Hids.
  split.
  - rewrite Hids. clear Hids. generalize 1%nat as a.
    induction (List.length final) as [|n IH]; intros a; simpl; constructor.
    + intros Hin. apply in_map_iff in Hin as (m & E & Hm).
      apply in_seq in Hm. lia.
    + apply IH.
  - apply Forall_forall. intros c Hc.
    apply (in_map id) in Hc. rewrite Hids in Hc.
    apply in_map_iff in Hc as (n & <- & Hn). apply in_seq in Hn. lia.
Qed.

Lemma addChunk_numbered (a b : Z) (s : AppState) :
  wellNumbered s -> wellNumbered (addChunk a b s).
Proof.
  intros (Hn & Hnd & Hall).
  assert (Hp : Permutation (chunks (addChunk a b s))
                 (chunks s ++ [mkChunk (nextChunkId s) a b None]))
    by apply (sort_perm startPage).
  split; [simpl; lia|]. split.
  - apply (Permutation_NoDup (Permutation_sym (Permutation_map id Hp))).
    rewrite map_app. simpl.
    apply NoDup_app; [exact Hnd|repeat constructor; intros []|].
    intros i Hi [<-|[]].
    apply in_map_iff in Hi as (c & E & Hc).
    rewrite Forall_forall in Hall. specialize (Hall c Hc). lia.
  - apply Forall_forall. intros c Hc.
    apply (Permutation_in _ Hp), in_app_or in Hc.
    destruct Hc as [Hc|[<-|[]]]; simpl.
    + rewrite Forall_forall in Hall. specialize (Hall c Hc). lia.
    + lia.
Qed.

Lemma deleteChunk_numbered (i : Z) (s : AppState) :
  wellNumbered s -> wellNumbered (deleteChunk i s).
Proof.
  intros (Hn & Hnd & Hall). unfold wellNumbered.
  destruct (deleteChunk_fields i s) as (Hc & _ & Hx & _). rewrite Hc, Hx.
  split; [exact Hn|]. split.
  - clear Hall Hc Hx. induction (chunks s) as [|c l IH]; simpl; [constructor|].
    apply NoDup_cons_iff in Hnd as [Hc' Hl].
    destruct (negb (id c =? i)); [|now apply IH].
    simpl. constructor; [|now apply IH].
    intros Hin. apply Hc'. apply in_map_iff in Hin as (c' & E & Hin).
    apply filter_In in Hin as [Hin _]. apply in_map_iff. now exists c'.
  - apply Forall_forall. intros c Hin. apply filter_In in Hin as [Hin _].
    rewrite Forall_forall in Hall. now apply Hall.
Qed.

Lemma autoSplitPdf_numbered (s : AppState) :
  wellNumbered s -> wellNumbered (autoSplitPdf s).
Proof.
  intros H. unfold autoSplitPdf.
  destruct (pdfDoc s) as [pdf|]; [|exact H].
  destruct (hasOutline s) as [[|]|]; try exact H.
  unfold trySplit.
  assert (Hempty : forall st, wellNumbered
            (setIsAutoSplitting false
               (setSelectedChunk None (setNextChunkId 1 (setChunks [] st))))).
  { intros st. unfold wellNumbered. simpl. repeat split; try lia; constructor. }
  destruct (getOutline pdf) as [outline|]; [|apply Hempty].
  destruct (processOutline pdf outline) as [|b rest] eqn:E; [apply Hempty|].
  unfold wellNumbered. cbn -[splitBookmarks].
  unfold splitBookmarks.
  destruct (numbered_from_one
              (finalChunks
                 (initialChunks (uniqueBookmarks (b :: rest)) (numPages pdf))))
    as [Hnd Hall].
  split; [|now split].
  unfold Js.length. lia.
Qed.

(** X3.  Chunk ids stay positive, pairwise distinct and below the id counter
    through every handler that touches the chunk list or runs on it: a state
    just loaded has the property, and manual add (validated or not), delete,
    auto-split, a batch and the export keep it. *)
Theorem ids_stay_unique (s : AppState) :
  wellNumbered s ->
  (forall a b, wellNumbered (addChunk a b s))
  /\ (forall numPages_ f, wellNumbered (snd (handleAddChunk numPages_ f s)))
  /\ (forall i, wellNumbered (deleteChunk i s))
  /\ wellNumbered (autoSplitPdf s)
  /\ (forall w, wellNumbered (fst (Batch.handleGenerateAllQa w s)))
  /\ wellNumbered (fst (Dataset.handleSaveAllQa s))
  /\ (forall name pdf, wellNumbered (loaded name pdf)).
Proof.
  intros H.
  split; [intros a b; now apply addChunk_numbered|].
  split.
  { intros n f. unfold handleAddChunk.
    destruct (Js.parseInt (startPageInput f)) as [a|]; [|exact H].
    destruct (Js.parseInt (endPageInput f)) as [b|]; [|exact H].
    repeat match goal with
           | |- context [if ?c then _ else _] => destruct c; [exact H|]
           end.
    now apply addChunk_numbered. }
  split; [intros i; now apply deleteChunk_numbered|].
  split; [now apply autoSplitPdf_numbered|].
  split.
  { intros w. unfold wellNumbered.
    destruct (batch_keeps_chunks w s) as [H1 H2]. now rewrite H1, H2. }
  split.
  { unfold Dataset.handleSaveAllQa. now destruct (Dataset.allPairs s). }
  intros name pdf. unfold wellNumbered. simpl.
  repeat split; try lia; constructor.
Qed.

Lemma ids_stay_unique_witness :
  wellNumbered
    (deleteChunk 1
       (addChunk 1 2 (addChunk 5 6 (loaded "doc.pdf" Examples.plainPdf)))).
Proof.
  assert (H0 : wellNumbered (loaded "doc.pdf" Examples.plainPdf)).
  { unfold wellNumbered. simpl. repeat split; try lia; constructor. }
  pose proof (proj1 (ids_stay_unique _ H0) 5 6) as H1.
  pose proof (proj1 (ids_stay_unique _ H1) 1 2) as H2.
  exact (proj1 (proj2 (proj2 (ids_stay_unique _ H2))) 1).
Defined.

(** X4.  A failed auto-split (outline there, no bookmark resolved) empties
    the chunk list and restarts the id counter at 1 but leaves the cache as
    it was: the export still offers the old pairs, and the next chunk added
    by hand takes id 1 and finds the old entry of id 1 under its id. *)
Theorem failed_split_keeps_cache (pdf : PDFDocumentProxy) (s : AppState)
  (outline : list OutlineItem) :
  pdfDoc s = Some pdf ->
  hasOutline s = Some true ->
  getOutline pdf = Some outline ->
  processOutline pdf outline = [] ->
  chunks (autoSplitPdf s) = []
  /\ nextChunkId (autoSplitPdf s) = 1
  /\ qaCache (autoSplitPdf s) = qaCache s
  /\ snd (Dataset.handleSaveAllQa (autoSplitPdf s))
     = snd (Dataset.handleSaveAllQa s)
  /\ forall a b,
       selectedChunk (addChunk a b (autoSplitPdf s)) = Some (mkChunk 1 a b None)
       /\ Cache.get 1 (qaCache (addChunk a b (autoSplitPdf s)))
          = Cache.get 1 (qaCache s).
Proof.
  intros Hdoc Hout Hget Hnone.
  assert (E : autoSplitPdf s
              = setIsAutoSplitting false
                  (setSelectedChunk None
                     (setNextChunkId 1
                        (setChunks []
                           (setAppError (Some structureError)
                              (setAppError None (setIsAutoSplitting true s))))))).
  { unfold autoSplitPdf, trySplit. now rewrite Hdoc, Hout, Hget, Hnone. }
  rewrite E. split; [reflexivity|]. split; [reflexivity|].
  split; [reflexivity|]. split.
  - unfold Dataset.handleSaveAllQa, Dataset.allPairs. simpl.
    now destruct (List.concat (Cache.values (qaCache s))).
  - intros a b. split; reflexivity.
Qed.

Lemma failed_split_keeps_cache_witness :
  let s :=
    setQaCache [(1, [mkQAPair "Q1?" "A1"])]
      (addChunk 1 2 (loaded "doc.pdf" Examples.brokenPdf)) in
  chunks (autoSplitPdf s) = []
  /\ Cache.get 1 (qaCache (addChunk 7 8 (autoSplitPdf s)))
     = Some [mkQAPair "Q1?" "A1"].
Proof.
  intros s.
  destruct (failed_split_keeps_cache Examples.brokenPdf s _
              eq_refl eq_refl eq_refl eq_refl) as (Hc & _ & _ & _ & Hadd).
  split; [exact Hc|]. exact (proj2 (Hadd 7 8)).
Defined.

End NumberingProps.

(** ** More on auto-split *)

Module SplitMore.
Import AutoSplit Spec More SplitProps.

(** X5.  For bookmarks that lie within the document, whatever the page of
    the first one: the chunks of an auto-split follow one another without gap
    or overlap from the lowest bookmarked page to the last page, so a page is
    in a chunk exactly when it is not before the first bookmark; the pages
    before it are left out. *)
Theorem autoSplit_starts_at_first_bookmark (bookmarks : list Bookmark) (N : Z) :
  bookmarks <> [] ->
  Forall (fun b => page b <= N) bookmarks ->
  exists m,
    (exists b, In b bookmarks /\ page b = m)
    /\ Forall (fun b => m <= page b) bookmarks
    /\ tiles m (map span (splitBookmarks bookmarks N)) N
    /\ forall p,
         (exists c, In c (splitBookmarks bookmarks N)
                    /\ startPage c <= p <= endPage c)
         <-> m <= p <= N.
Proof.
  intros Hne Hall.
  destruct (uniqueBookmarks_spec bookmarks) as [Hs Hin].
  assert (Hfirst : forall b, In b bookmarks ->
            exists b', In b' (uniqueBookmarks bookmarks) /\ page b' = page b).
  { intros b Hb.
    destruct (firstAt bookmarks (page b)) as [b'|] eqn:E.
    - exists b'. pose proof E as E'. apply find_some in E' as [_ Hp].
      apply Z.eqb_eq in Hp. rewrite <- Hp in E. split; [now apply Hin|exact Hp].
    - unfold firstAt in E. pose proof (find_none _ _ E b Hb) as Hp.
      simpl in Hp. now rewrite Z.eqb_refl in Hp. }
  destruct (uniqueBookmarks bookmarks) as [|h t] eqn:Eu.
  { destruct bookmarks as [|b0 l]; [contradiction|].
    destruct (Hfirst b0 (or_introl eq_refl)) as (b' & [] & _). }
  assert (Hh : In h bookmarks).
  { assert (Hf : firstAt bookmarks (page h) = Some h) by (apply Hin; now left).
    now apply find_some in Hf as [Hf _]. }
  assert (Htiles : tiles (page h) (map span (splitBookmarks bookmarks N)) N).
  { unfold splitBookmarks, newChunksWithId, Js.map_index.
    rewrite map_from_spans, initialChunks_sections, Eu.
    apply (finalChunks_tiles N _ h t eq_refl Hs).
    apply Forall_forall. intros b Hb.
    apply Hin in Hb. apply find_some in Hb as [Hb _].
    rewrite Forall_forall in Hall. now apply Hall. }
  exists (page h).
  split; [now exists h|]. split.
  - apply Forall_forall. intros b Hb.
    destruct (Hfirst b Hb) as (b' & [<-|Hb'] & Hp); [lia|].
    apply StronglySorted_inv in Hs as [_ Ht].
    rewrite Forall_forall in Ht. specialize (Ht b' Hb'). lia.
  - split; [exact Htiles|].
    intros p. symmetry. exact (tiles_cover _ _ _ Htiles p).
Qed.

(** Bookmarks at pages 3 and 7 of a 9-page document: chunks 3-6 and 7-9,
    pages 1 and 2 in none. *)
Lemma autoSplit_starts_at_first_bookmark_witness :
  exists m,
    m = 3
    /\ tiles m
         (map span
            (splitBookmarks [mkBookmark "Setup" 7; mkBookmark "Intro" 3] 9)) 9.
Proof.
  assert (Hall : Forall (fun b => page b <= 9)
                   [mkBookmark "Setup" 7; mkBookmark "Intro" 3]).
  { repeat constructor; simpl; lia. }
  destruct (autoSplit_starts_at_first_bookmark
              [mkBookmark "Setup" 7; mkBookmark "Intro" 3] 9
              ltac:(discriminate) Hall)
    as (m & (b & Hb & Hm) & Hmin & Htiles & _).
  exists m. split; [|exact Htiles].
  apply Forall_cons_iff in Hmin as [_ Hmin].
  apply Forall_cons_iff in Hmin as [H3 _]. simpl in H3.
  destruct Hb as [<-|[<-|[]]]; simpl in *; lia.
Defined.

Lemma resolveItem_at_most_one (pdf : PDFDocumentProxy) (t : string) (d : Dest) :
  (List.length (resolveItem pdf t d) <= 1)%nat.
Proof.
  unfold resolveItem.
  assert (Harr : forall a : list DestElem,
             (List.length
                match a with
                | e :: _ =>
                    if truthyElem e then
                      match getPageIndex pdf e with
                      | Some pageIndex => [mkBookmark t (pageIndex + 1)]
                      | None => []
                      end
                    else []
                | [] => []
                end <= 1)%nat).
  { intros [|e a]; [simpl; lia|].
    destruct (truthyElem e); [|simpl; lia].
    destruct (getPageIndex pdf e); simpl; lia. }
  destruct d as [|name|a]; [simpl; lia| |apply Harr].
  destruct (getDestination pdf name) as [[a|]|]; [apply Harr|simpl; lia..].
Qed.

Lemma processItem_nodes (pdf : PDFDocumentProxy) :
  forall item,
    processItem pdf item
    = flat_map (fun n => resolveItem pdf (fst n) (snd n)) (nodes item).
Proof.
  fix IH 1. intros [t d items]. cbn [processItem nodes flat_map fst snd].
  f_equal. revert items. fix IHl 1. intros [|i items]; [reflexivity|].
  rewrite flat_map_app, <- IH. f_equal. apply IHl.
Qed.

(** X6.  The walk of the outline visits every node, parents before their
    children, and keeps the bookmark of each node that resolves: a node that
    does not resolve is left out alone, its children and the nodes after it
    are still visited.  So there are at most as many bookmarks as nodes. *)
Theorem processOutline_visits_every_node (pdf : PDFDocumentProxy)
  (outline : list OutlineItem) :
  processOutline pdf outline
  = flat_map (fun n => resolveItem pdf (fst n) (snd n)) (flat_map nodes outline)
  /\ (List.length (processOutline pdf outline)
      <= List.length (flat_map nodes outline))%nat.
Proof.
  assert (E : processOutline pdf outline
              = flat_map (fun n => resolveItem pdf (fst n) (snd n))
                  (flat_map nodes outline)).
  { unfold processOutline.
    induction outline as [|item outline IH]; simpl; [reflexivity|].
    now rewrite flat_map_app, <- processItem_nodes, IH. }
  split; [exact E|]. rewrite E. clear E.
  induction (flat_map nodes outline) as [|[t d] l IH];
    cbn [flat_map List.length fst snd]; [lia|].
  rewrite length_app. pose proof (resolveItem_at_most_one pdf t d). lia.
Qed.

End SplitMore.

(** ** Page extraction and base64 *)

Module PdfUtilsProps.
Import PdfUtils More.

Lemma pageIndices_seq (startPage endPage : Z) :
  1 <= startPage ->
  pageIndices startPage endPage
  = map Z.of_nat
      (seq (Z.to_nat (startPage - 1)) (Z.to_nat (endPage - startPage + 1))).
Proof.
  intros H. unfold pageIndices.
  generalize (Z.to_nat (endPage - startPage + 1)) as n. intros n.
  rewrite <- (Nat.add_0_r (Z.to_nat (startPage - 1))) at 1.
  generalize 0%nat as a.
  induction n as [|n IH]; intros a; simpl; [reflexivity|].
  f_equal; [lia|].
  replace (S (Z.to_nat (startPage - 1) + a))
    with (Z.to_nat (startPage - 1) + S a)%nat by lia.
  apply IH.
Qed.

Lemma skipn_cons_nth {P : Type} (pages : list P) :
  forall k p, nth_error pages k = Some p ->
              skipn k pages = p :: skipn (S k) pages.
Proof.
  induction pages as [|q pages IH]; intros [|k] p H; try discriminate.
  - injection H as ->. reflexivity.
  - simpl in H. apply (IH k p H).
Qed.

Lemma copyPages_run {P : Type} (pages : list P) (n : nat) :
  forall k,
    (k + n <= List.length pages)%nat ->
    copyPages pages (map Z.of_nat (seq k n)) = Some (firstn n (skipn k pages)).
Proof.
  induction n as [|n IH]; intros k Hk; [reflexivity|].
  cbn [seq map copyPages]. rewrite IH by lia.
  unfold Js.at_index. destruct (Z.ltb_spec (Z.of_nat k) 0); [lia|].
  rewrite Nat2Z.id.
  destruct (nth_error pages k) as [p|] eqn:E.
  - rewrite (skipn_cons_nth pages k p E). reflexivity.
  - apply nth_error_None in E. lia.
Qed.

(** X7.  For a range 1 <= startPage <= endPage within the document,
    [extractPdfPages] returns a document made of exactly the pages
    startPage..endPage of the source, in order and each once.  For
    endPage < startPage no page is copied and the document returned has one
    page, the default page that saving adds, not the pages of any range. *)
Theorem extractPdfPages_exact {P : Type} (defaultPage : P) (pages : list P)
  (startPage endPage : Z) :
  (1 <= startPage -> startPage <= endPage -> endPage <= Js.length pages ->
   extractPdfPages defaultPage pages startPage endPage
   = Some (firstn (Z.to_nat (endPage - startPage + 1))
             (skipn (Z.to_nat (startPage - 1)) pages))
   /\ exists extracted,
        extractPdfPages defaultPage pages startPage endPage = Some extracted
        /\ Js.length extracted = endPage - startPage + 1
        /\ forall i, 0 <= i < endPage - startPage + 1 ->
                     Js.at_index extracted i
                     = Js.at_index pages (startPage - 1 + i))
  /\ (endPage < startPage ->
      extractPdfPages defaultPage pages startPage endPage = Some [defaultPage]).
Proof.
  unfold extractPdfPages, Js.length. split.
  - intros H1 H2 H3. rewrite pageIndices_seq by exact H1.
    rewrite copyPages_run by lia. cbn [option_map].
    set (n := Z.to_nat (endPage - startPage + 1)).
    set (k := Z.to_nat (startPage - 1)).
    assert (Hlen : List.length (firstn n (skipn k pages)) = n).
    { rewrite length_firstn, length_skipn. lia. }
    assert (Hsaved : savedPages defaultPage (firstn n (skipn k pages))
                     = firstn n (skipn k pages)).
    { destruct (firstn n (skipn k pages)); [simpl in Hlen; lia|reflexivity]. }
    rewrite Hsaved. split; [reflexivity|].
    eexists. split; [reflexivity|]. split; [lia|].
    intros i Hi. unfold Js.at_index.
    destruct (Z.ltb_spec i 0); [lia|].
    destruct (Z.ltb_spec (startPage - 1 + i) 0); [lia|].
    rewrite nth_error_firstn.
    destruct (Nat.ltb_spec (Z.to_nat i) n); [|lia].
    rewrite nth_error_skipn. f_equal. lia.
  - intros Hlt. unfold pageIndices.
    replace (Z.to_nat (endPage - startPage + 1)) with 0%nat by lia. reflexivity.
Qed.

Lemma extractPdfPages_exact_witness :
  extractPdfPages "blank" ["p1"; "p2"; "p3"; "p4"; "p5"] 2 4
  = Some ["p2"; "p3"; "p4"]
  /\ extractPdfPages "blank" ["p1"; "p2"; "p3"; "p4"; "p5"] 4 2
     = Some ["blank"].
Proof.
  destruct (extractPdfPages_exact "blank" ["p1"; "p2"; "p3"; "p4"; "p5"] 2 4)
    as (Hin & _).
  destruct (extractPdfPages_exact "blank" ["p1"; "p2"; "p3"; "p4"; "p5"] 4 2)
    as (_ & Hempty).
  split.
  - destruct Hin as [Hin _]; [lia|lia|unfold Js.length; simpl; lia|].
    rewrite Hin. reflexivity.
  - apply Hempty. lia.
Defined.

(** *** Base64 *)

Lemma code_range (c : ascii) : 0 <= Js.code c < 256.
Proof.
  unfold Js.code. pose proof (nat_ascii_bounded c). lia.
Qed.

Lemma chr_code (c : ascii) : Js.chr (Js.code c) = c.
Proof.
  unfold Js.chr, Js.code. rewrite Nat2Z.id. apply ascii_nat_embedding.
Qed.

Lemma sextet_table :
  forallb
    (fun n => (b64val (b64char n) =? n) && negb (Js.code (b64char n) =? 61))
    (map Z.of_nat (seq 0 64)) = true.
Proof. vm_compute. reflexivity. Qed.

Lemma sextet (n : Z) :
  0 <= n < 64 -> b64val (b64char n) = n /\ Js.code (b64char n) <> 61.
Proof.
  intros Hn. pose proof sextet_table as H.
  rewrite forallb_forall in H. specialize (H n).
  assert (Hin : In n (map Z.of_nat (seq 0 64))).
  { apply in_map_iff. exists (Z.to_nat n). split; [lia|]. apply in_seq. lia. }
  apply H in Hin. apply andb_true_iff in Hin as [H1 H2].
  apply Z.eqb_eq in H1. apply negb_true_iff, Z.eqb_neq in H2. now split.
Qed.

Ltac divlia := Z.to_euclidean_division_equations; lia.

Ltac sextets :=
  repeat match goal with
         | |- context [b64val (b64char ?n)] =>
             let H := fresh "Hs" in
             assert (H : 0 <= n < 64) by divlia;
             rewrite (proj1 (sextet n H))
         end.

Lemma not_padding (n : Z) : 0 <= n < 64 -> (Js.code (b64char n) =? 61) = false.
Proof. intros H. apply Z.eqb_neq. now apply sextet. Qed.

Lemma chr_eq (n : Z) (c : ascii) : n = Js.code c -> Js.chr n = c.
Proof. intros ->. apply chr_code. Qed.

Lemma atob_btoa : forall s, atob (btoa s) = s.
Proof.
  fix IH 1. intros [|a [|b [|c rest]]].
  - reflexivity.
  - pose proof (code_range a) as Ha.
    cbn [btoa atob]. change (Js.code "="%char =? 61) with true. cbv iota.
    sextets. f_equal. apply chr_eq. divlia.
  - pose proof (code_range a) as Ha. pose proof (code_range b) as Hb.
    cbn [btoa atob]. rewrite not_padding by divlia.
    change (Js.code "="%char =? 61) with true. cbv iota.
    sextets.
    f_equal; [apply chr_eq; divlia|].
    f_equal. apply chr_eq. divlia.
  - pose proof (code_range a) as Ha. pose proof (code_range b) as Hb.
    pose proof (code_range c) as Hc.
    cbn [btoa atob]. rewrite !not_padding by divlia. cbv iota.
    sextets. rewrite IH.
    f_equal; [apply chr_eq; divlia|].
    f_equal; [apply chr_eq; divlia|].
    f_equal. apply chr_eq. divlia.
Qed.

Lemma btoa_length :
  forall s,
    Z.of_nat (String.length (btoa s))
    = 4 * ((Z.of_nat (String.length s) + 2) / 3).
Proof.
  fix IH 1. intros [|a [|b [|c rest]]]; try reflexivity.
  cbn [btoa String.length]. rewrite !Nat2Z.inj_succ, IH.
  replace (Z.succ (Z.succ (Z.succ (Z.of_nat (String.length rest)))) + 2)
    with (Z.of_nat (String.length rest) + 2 + 1 * 3) by lia.
  rewrite Z.div_add by lia. lia.
Qed.

Lemma binaryString_injective (b1 : list Byte.byte) :
  forall b2, binaryString b1 = binaryString b2 -> b1 = b2.
Proof.
  induction b1 as [|x b1 IH]; intros [|y b2] H; try discriminate;
    [reflexivity|].
  injection H as Hxy H. f_equal; [|now apply IH].
  rewrite <- (byte_of_ascii_of_byte x), <- (byte_of_ascii_of_byte y).
  now rewrite Hxy.
Qed.

Lemma binaryString_length (b : list Byte.byte) :
  String.length (binaryString b) = List.length b.
Proof. induction b as [|x b IH]; simpl; congruence. Qed.

(** X8.  [arrayBufferToBase64] loses nothing: decoding its output gives the
    bytes back, so two buffers with the same base64 are equal; and a buffer
    of n bytes gives 4 * ceil(n / 3) characters. *)
Theorem arrayBufferToBase64_lossless (buffer : list Byte.byte) :
  atob (arrayBufferToBase64 buffer) = binaryString buffer
  /\ (forall other,
        arrayBufferToBase64 buffer = arrayBufferToBase64 other ->
        buffer = other)
  /\ Z.of_nat (String.length (arrayBufferToBase64 buffer))
     = 4 * ((Js.length buffer + 2) / 3).
Proof.
  unfold arrayBufferToBase64. split; [apply atob_btoa|]. split.
  - intros other H. apply binaryString_injective.
    rewrite <- (atob_btoa (binaryString buffer)), H. apply atob_btoa.
  - rewrite btoa_length, binaryString_length. reflexivity.
Qed.


Lemma arrayBufferToBase64_lossless_witness :
  atob (arrayBufferToBase64 [Byte.x4d; Byte.x61]) = "Ma"
  /\ Z.of_nat (String.length (arrayBufferToBase64 [Byte.x4d; Byte.x61])) = 4.
Proof.
  destruct (arrayBufferToBase64_lossless [Byte.x4d; Byte.x61]) as (H1 & _ & H3).
  split; [exact H1|exact H3].
Defined.

End PdfUtilsProps.

(** ** The text of a chunk and a single generation *)

Module ContentProps.
Import Content Normalizer Spec More StringProps CacheProps.

Lemma textLoop_unfold (texts : PageTexts) (i endPage_ : Z) (fullText : string) :
  textLoop texts i endPage_ fullText
  = if i <=? endPage_
    then textLoop texts (i + 1) endPage_ (fullText ++ pageBlock texts i)%string
    else fullText.
Proof.
  funelim (textLoop texts i endPage_ fullText); try clear Heqcall.
  - destruct (Z.leb_spec i endPage_); [reflexivity|lia].
  - destruct (Z.leb_spec i endPage_); [lia|reflexivity].
Qed.

Lemma textLoop_acc (texts : PageTexts) (n : nat) :
  forall i endPage_ fullText,
    n = Z.to_nat (endPage_ + 1 - i) ->
    textLoop texts i endPage_ fullText
    = (fullText ++ textLoop texts i endPage_ EmptyString)%string.
Proof.
  induction n as [|n IH]; intros i e acc Hn;
    rewrite (textLoop_unfold texts i e acc),
      (textLoop_unfold texts i e EmptyString);
    destruct (Z.leb_spec i e); try lia; try (now rewrite append_nil_r).
  rewrite (IH (i + 1) e (acc ++ pageBlock texts i)%string) by lia.
  rewrite (IH (i + 1) e (EmptyString ++ pageBlock texts i)%string) by lia.
  simpl. now rewrite append_assoc.
Qed.

Lemma textLoop_step (texts : PageTexts) (i endPage_ : Z) :
  i <= endPage_ ->
  textLoop texts i endPage_ EmptyString
  = (pageBlock texts i ++ textLoop texts (i + 1) endPage_ EmptyString)%string.
Proof.
  intros H. rewrite textLoop_unfold.
  destruct (Z.leb_spec i endPage_); [|lia].
  now rewrite (textLoop_acc texts _ (i + 1) endPage_ _ eq_refl).
Qed.

Lemma textLoop_empty (texts : PageTexts) (i endPage_ : Z) :
  endPage_ < i -> textLoop texts i endPage_ EmptyString = EmptyString.
Proof.
  intros H. rewrite textLoop_unfold.
  destruct (Z.leb_spec i endPage_); [lia|reflexivity].
Qed.

Lemma textLoop_split (texts : PageTexts) (n : nat) :
  forall a m e,
    n = Z.to_nat (m + 1 - a) -> a <= m + 1 -> m <= e ->
    textLoop texts a e EmptyString
    = (textLoop texts a m EmptyString
         ++ textLoop texts (m + 1) e EmptyString)%string.
Proof.
  induction n as [|n IH]; intros a m e Hn Ha He.
  - assert (a = m + 1) as -> by lia.
    now rewrite (textLoop_empty texts (m + 1) m) by lia.
  - rewrite (textLoop_step texts a e), (textLoop_step texts a m) by lia.
    rewrite (IH (a + 1) m e) by lia. now rewrite append_assoc.
Qed.

(** X9.  The text extracted for a chunk is the concatenation of one block
    per page, in page order: it is empty for an empty range, it is the page's
    block for a one-page chunk, and the text of pages a..e is the text of
    a..m followed by the text of m+1..e.  A page whose text cannot be read
    contributes a placeholder naming the page and does not stop the rest. *)
Theorem extractText_concatenates (texts : PageTexts) (chunk : Chunk) :
  (endPage chunk < startPage chunk ->
   extractTextForChunk (Some texts) chunk = EmptyString)
  /\ (startPage chunk = endPage chunk ->
      extractTextForChunk (Some texts) chunk = pageBlock texts (startPage chunk))
  /\ (forall m i1 i2 t1 t2,
        startPage chunk <= m + 1 -> m <= endPage chunk ->
        extractTextForChunk (Some texts) chunk
        = (extractTextForChunk (Some texts) (mkChunk i1 (startPage chunk) m t1)
             ++ extractTextForChunk (Some texts)
                  (mkChunk i2 (m + 1) (endPage chunk) t2))%string)
  /\ (forall i,
        texts i = None ->
        pageBlock texts i
        = ("[Error extracting text from page " ++ Js.numberToString i ++ "]"
             ++ Js.LF ++ Js.LF)%string).
Proof.
  unfold extractTextForChunk. split; [|split; [|split]].
  - apply textLoop_empty.
  - intros E. rewrite textLoop_step by lia.
    rewrite textLoop_empty by lia. apply append_nil_r.
  - intros m i1 i2 t1 t2 H1 H2. cbn [startPage endPage].
    now apply (textLoop_split texts _ _ m _ eq_refl).
  - intros i E. unfold pageBlock. rewrite E. reflexivity.
Qed.

Lemma extractText_concatenates_witness :
  extractTextForChunk
    (Some (fun i => if i =? 2 then None else Some ["page"; Js.numberToString i]))
    (mkChunk 1 1 3 None)
  = (("page 1" ++ Js.LF ++ Js.LF)
       ++ ("[Error extracting text from page 2]" ++ Js.LF ++ Js.LF)
       ++ ("page 3" ++ Js.LF ++ Js.LF))%string.
Proof.
  destruct (extractText_concatenates
              (fun i => if i =? 2 then None else Some ["page"; Js.numberToString i])
              (mkChunk 1 1 3 None)) as (_ & _ & Hsplit & _).
  etransitivity; [apply (Hsplit 1 1 1 None None); simpl; lia|].
  vm_compute. reflexivity.
Defined.

(** *** When a chunk counts as empty *)

Lemma allWhiteSpace_app (a b : string) :
  allWhiteSpace (a ++ b) = allWhiteSpace a && allWhiteSpace b.
Proof.
  induction a as [|c a IH]; simpl; [reflexivity|].
  now rewrite IH, andb_assoc.
Qed.

Lemma allWhiteSpace_join (items : list string) :
  allWhiteSpace (Js.join " " items) = forallb allWhiteSpace items.
Proof.
  induction items as [|x [|y l] IH].
  - reflexivity.
  - simpl. now rewrite andb_true_r.
  - change (Js.join " " (x :: y :: l))
      with (x ++ " " ++ Js.join " " (y :: l))%string.
    rewrite !allWhiteSpace_app, IH. reflexivity.
Qed.

Lemma pageBlock_blank (texts : PageTexts) (i : Z) :
  allWhiteSpace (pageBlock texts i) = true
  <-> exists items, texts i = Some items /\ forallb allWhiteSpace items = true.
Proof.
  unfold pageBlock. destruct (texts i) as [items|].
  - rewrite allWhiteSpace_app, allWhiteSpace_join.
    change (allWhiteSpace pageBreak) with true. rewrite andb_true_r.
    split; [intros H; now exists items|now intros (l & [= <-] & H)].
  - split; [discriminate|intros (l & [=] & _)].
Qed.

Lemma textLoop_blank (texts : PageTexts) (n : nat) :
  forall a e,
    n = Z.to_nat (e + 1 - a) ->
    (allWhiteSpace (textLoop texts a e EmptyString) = true
     <-> forall i, a <= i <= e ->
           exists items,
             texts i = Some items /\ forallb allWhiteSpace items = true).
Proof.
  induction n as [|n IH]; intros a e Hn.
  - rewrite textLoop_empty by lia. split; [intros _ i Hi; lia|reflexivity].
  - rewrite textLoop_step by lia.
    rewrite allWhiteSpace_app, andb_true_iff, pageBlock_blank,
      (IH (a + 1) e) by lia.
    split.
    + intros [Ha Hrest] i Hi.
      destruct (Z.eq_dec i a) as [->|Hne]; [exact Ha|apply Hrest; lia].
    + intros H. split; [apply H; lia|intros i Hi; apply H; lia].
Qed.

(** X10.  [generateQaForChunk] refuses a chunk as without content, before
    any call to the service, exactly when the page extraction gave nothing
    (null or an empty string) and every page of the chunk delivered text
    items made of white space only.  A page whose text could not be read
    leaves its placeholder in the text, so such a chunk is not refused. *)
Theorem refused_iff_no_content (texts : PageTexts) (chunk : Chunk)
  (pdf : option string) (outcome : string + list RawPair) (s : AppState) :
  let d := mkDelivery (extractTextForChunk (Some texts) chunk) pdf outcome in
  ((truthyField pdf = false
    /\ forall i, startPage chunk <= i <= endPage chunk ->
         exists items,
           texts i = Some items /\ forallb allWhiteSpace items = true)
   -> generateQaForChunk d chunk s
      = inl "Could not extract any content from this chunk.")
  /\ ((truthyField pdf = true
       \/ exists i, startPage chunk <= i <= endPage chunk /\ texts i = None)
      -> generateQaForChunk d chunk s
         = match outcome with
           | inl message => inl message
           | inr pairs =>
               inr (setQaCache
                      (Cache.set (id chunk)
                         (finalPairs chunk (fileName s) pairs) (qaCache s)) s)
           end).
Proof.
  intros d. unfold generateQaForChunk. subst d. cbn [text pdfBase64 basePairs].
  pose proof (textLoop_blank texts _ (startPage chunk) (endPage chunk) eq_refl)
    as Hblank.
  fold (extractTextForChunk (Some texts) chunk) in Hblank.
  rewrite <- trim_empty_iff in Hblank.
  split.
  - intros [Hpdf Hpages]. apply Hblank in Hpages. rewrite Hpages, Hpdf.
    reflexivity.
  - intros [Hpdf|(i & Hi & Hnone)].
    + rewrite Hpdf. cbn [negb]. now rewrite andb_false_r.
    + destruct (Js.trim (extractTextForChunk (Some texts) chunk)) eqn:E;
        [|reflexivity].
      exfalso. destruct (proj1 Hblank eq_refl i Hi) as (items & Hsome & _).
      congruence.
Qed.

Lemma refused_iff_no_content_witness :
  generateQaForChunk
    (mkDelivery
       (extractTextForChunk (Some (fun _ => Some [" "; EmptyString]))
          (mkChunk 1 1 2 None))
       None (inr []))
    (mkChunk 1 1 2 None) (loaded "doc.pdf" Examples.plainPdf)
  = inl "Could not extract any content from this chunk."
  /\ generateQaForChunk
       (mkDelivery
          (extractTextForChunk (Some (fun _ => None)) (mkChunk 1 1 2 None))
          None (inl "no answer"))
       (mkChunk 1 1 2 None) (loaded "doc.pdf" Examples.plainPdf)
     = inl "no answer".
Proof.
  split.
  - apply (proj1 (refused_iff_no_content (fun _ => Some [" "; EmptyString])
                    (mkChunk 1 1 2 None) None (inr [])
                    (loaded "doc.pdf" Examples.plainPdf))).
    split; [reflexivity|]. intros i _. now exists [" "; EmptyString].
  - apply (proj2 (refused_iff_no_content (fun _ => None)
                    (mkChunk 1 1 2 None) None (inl "no answer")
                    (loaded "doc.pdf" Examples.plainPdf))).
    right. exists 1. split; [simpl; lia|reflexivity].
Defined.

(** X11.  A generation for the selected chunk alone either fails, and then
    leaves the application state untouched and shows a message that is not
    empty in the panel, or writes the entry of that chunk, which then reads
    back as the normalised pairs, and leaves every other entry, the chunk
    list and the application error as they were. *)
Theorem handleGenerateQA_writes_one_entry (d : Delivery) (p : Panel)
  (s : AppState) (chunk : Chunk) :
  selectedChunk s = Some chunk ->
  (forall message,
      generateQaForChunk d chunk s = inl message ->
      snd (handleGenerateQA d p s) = s
      /\ exists shown,
           panelError (fst (handleGenerateQA d p s)) = Some shown
           /\ shown <> EmptyString)
  /\ (forall pairs,
        basePairs d = inr pairs ->
        Js.truthy (Js.trim (text d)) = true \/ truthyField (pdfBase64 d) = true ->
        Cache.get (id chunk) (qaCache (snd (handleGenerateQA d p s)))
        = Some (finalPairs chunk (fileName s) pairs)
        /\ (forall k, k <> id chunk ->
              Cache.get k (qaCache (snd (handleGenerateQA d p s)))
              = Cache.get k (qaCache s))
        /\ chunks (snd (handleGenerateQA d p s)) = chunks s
        /\ appError (snd (handleGenerateQA d p s)) = appError s
        /\ panelError (fst (handleGenerateQA d p s)) = None).
Proof.
  intros Hsel. unfold handleGenerateQA. rewrite Hsel. split.
  - intros message E. rewrite E. split; [reflexivity|].
    destruct message as [|c m]; simpl; eexists; split;
      try reflexivity; discriminate.
  - intros pairs Hpairs Hcontent.
    unfold generateQaForChunk. rewrite Hpairs.
    assert (Hgo : negb (Js.truthy (Js.trim (text d)))
                  && negb (truthyField (pdfBase64 d)) = false).
    { destruct Hcontent as [-> | ->]; [reflexivity|apply andb_false_r]. }
    rewrite Hgo.
    cbn [fst snd qaCache chunks appError panelError setQaCache].
    split; [apply get_set_same|].
    split; [intros k Hk; now apply get_set_other|].
    repeat split.
Qed.

Lemma handleGenerateQA_writes_one_entry_witness :
  Cache.get 1
    (qaCache
       (snd (handleGenerateQA
               (mkDelivery "some text" None
                  (inr [mkRaw (Some "What is x") (Some "y")]))
               (mkPanel false None)
               (Chunks.addChunk 1 2 (loaded "doc.pdf" Examples.plainPdf)))))
  = Some [mkQAPair (Js.dq "In the document 'doc.pdf', what is x?") "y"].
Proof.
  destruct (handleGenerateQA_writes_one_entry
              (mkDelivery "some text" None
                 (inr [mkRaw (Some "What is x") (Some "y")]))
              (mkPanel false None)
              (Chunks.addChunk 1 2 (loaded "doc.pdf" Examples.plainPdf))
              (mkChunk 1 1 2 None) eq_refl) as [_ Hok].
  destruct (Hok _ eq_refl (or_introl eq_refl)) as (Hget & _).
  etransitivity; [exact Hget|]. reflexivity.
Defined.

End ContentProps.

(** ** More on the batch *)

Module BatchMore.
Import Normalizer Batch Spec More CacheProps BatchProps.

Lemma batchWait_app (t1 t2 : list Event) :
  batchWait (t1 ++ t2) = batchWait t1 + batchWait t2.
Proof.
  induction t1 as [|[i|c t|ms] t1 IH]; simpl; rewrite ?IH; lia.
Qed.

Lemma steps_wait (total : Z) (done : list Chunk) :
  forall from,
    from + Js.length done = total ->
    batchWait (steps total from done)
    = 5000 * Z.max 0 (Js.length done - 1).
Proof.
  unfold Js.length.
  induction done as [|c rest IH]; intros from H; [reflexivity|].
  cbn [steps]. rewrite !batchWait_app. cbn [batchWait].
  simpl List.length in *.
  destruct (Z.ltb_spec (from + 1) total) as [Hlt|Hge].
  - rewrite (IH (from + 1)) by lia. cbn [batchWait]. lia.
  - destruct rest; [cbn [steps batchWait List.length]; lia
                   |simpl List.length in *; lia].
Qed.

Lemma written_get_other (w : World) (file : option string) (done : list Chunk) :
  forall from cache k,
    ~ In k (map id done) ->
    Cache.get k (written w file from done cache) = Cache.get k cache.
Proof.
  induction done as [|c rest IH]; intros from cache k Hk; [reflexivity|].
  simpl. rewrite IH by (intros H; apply Hk; now right).
  destruct (basePairs (w from c)); [reflexivity|].
  apply get_set_other. intros ->. apply Hk. now left.
Qed.

Lemma written_get (w : World) (file : option string) (done : list Chunk) :
  forall from cache i c pairs,
    NoDup (map id done) ->
    nth_error done i = Some c ->
    basePairs (w (from + Z.of_nat i) c) = inr pairs ->
    Cache.get (id c) (written w file from done cache)
    = Some (finalPairs c file pairs).
Proof.
  induction done as [|c0 rest IH]; intros from cache i c pairs Hnd Hi Hp;
    [now destruct i|].
  simpl in Hnd. apply NoDup_cons_iff in Hnd as [Hfresh Hnd].
  destruct i as [|i]; simpl in Hi.
  - injection Hi as ->. simpl Z.of_nat in Hp. rewrite Z.add_0_r in Hp.
    simpl. rewrite written_get_other by exact Hfresh.
    rewrite Hp. apply get_set_same.
  - simpl. apply (IH (from + 1) _ i c pairs Hnd Hi).
    replace (from + 1 + Z.of_nat i) with (from + Z.of_nat (S i)) by lia.
    exact Hp.
Qed.

(** X12.  A batch in which every chunk goes through, on a list of n chunks
    with distinct ids: it waits n - 1 times 5 seconds in all, ends with the
    progress at (n, n), no error and the running flag down, and afterwards the
    cache gives, under the id of each chunk, the normalised pairs of that
    chunk. *)
Theorem batch_all_through (w : World) (s : AppState) :
  chunks s <> [] ->
  NoDup (map id (chunks s)) ->
  (forall i c, nth_error (chunks s) i = Some c ->
               succeedsOn (w (Z.of_nat i) c) c) ->
  batchWait (snd (handleGenerateAllQa w s))
  = 5000 * (Js.length (chunks s) - 1)
  /\ (forall i c pairs,
        nth_error (chunks s) i = Some c ->
        basePairs (w (Z.of_nat i) c) = inr pairs ->
        Cache.get (id c) (qaCache (fst (handleGenerateAllQa w s)))
        = Some (finalPairs c (fileName s) pairs))
  /\ generationProgress (fst (handleGenerateAllQa w s))
     = (Js.length (chunks s), Js.length (chunks s))
  /\ appError (fst (handleGenerateAllQa w s)) = None
  /\ isGeneratingAll (fst (handleGenerateAllQa w s)) = false.
Proof.
  intros Hne Hnd Hok.
  rewrite handle_nonempty by exact Hne.
  assert (Hok0 : forall i c, nth_error (chunks s) i = Some c ->
                   succeedsOn (w (0 + Z.of_nat i) c) c).
  { intros i c Hi. rewrite Z.add_0_l. now apply Hok. }
  match goal with
  | |- context [loop w ?tot _ 0 ?s0 ?t0] =>
      destruct (loop_run w tot (chunks s) 0 s0 t0 Hok0) as [_ Hrun]
  end.
  cbv zeta in Hrun. destruct Hrun as (Ht & He & Hc & Hp & Hg & _).
  split.
  { rewrite Ht, batchWait_app, steps_wait by lia.
    cbn [batchWait]. unfold Js.length. destruct (chunks s); [contradiction|].
    cbn [List.length]. lia. }
  split.
  { intros i c pairs Hi Hpairs. rewrite Hc.
    apply (written_get w _ _ 0 _ i c pairs Hnd Hi).
    now rewrite Z.add_0_l. }
  split; [rewrite Hp; destruct (chunks s); [contradiction|reflexivity]|].
  split; [exact He|exact Hg].
Qed.

Lemma batch_all_through_witness :
  batchWait
    (snd (handleGenerateAllQa Examples.pageWorld
            (Chunks.addChunk 1 2
               (Chunks.addChunk 5 6 (loaded "doc.pdf" Examples.plainPdf)))))
  = 5000.
Proof.
  refine (proj1 (batch_all_through Examples.pageWorld
                   (Chunks.addChunk 1 2
                      (Chunks.addChunk 5 6 (loaded "doc.pdf" Examples.plainPdf)))
                   _ _ _)).
  - discriminate.
  - repeat constructor; simpl; intuition discriminate.
  - intros i c _ st. eexists. reflexivity.
Defined.

End BatchMore.

(** ** More on the generation service *)

Module GeminiMore.
Import GeminiService Spec More GeminiProps.

Lemma toLowerCase_app (a b : string) :
  Js.toLowerCase (a ++ b) = (Js.toLowerCase a ++ Js.toLowerCase b)%string.
Proof. induction a as [|c a IH]; simpl; [reflexivity|]. now rewrite IH. Qed.

(** The words put in front of a parser's message hold no part of a denial
    phrase. *)
Lemma prefix_is_harmless (m : string) :
  Js.includes
    (Js.toLowerCase ("Failed to parse JSON response: " ++ m))
    "region not supported"
  = Js.includes (Js.toLowerCase m) "region not supported"
  /\ Js.includes
       (Js.toLowerCase ("Failed to parse JSON response: " ++ m))
       "api key not valid"
     = Js.includes (Js.toLowerCase m) "api key not valid".
Proof.
  rewrite toLowerCase_app.
  change (Js.toLowerCase "Failed to parse JSON response: ")
    with "failed to parse json response: ".
  generalize (Js.toLowerCase m) as x. intros x.
  split; cbn -[Js.includes]; repeat (cbn [Js.includes Js.startsWith Ascii.eqb Bool.eqb andb orb]); reflexivity.
Qed.

(** X13.  An answer that parses but is not in the format is always tried
    again, never taken for a denial.  An answer that does not parse is tried
    again unless the parser's own message, put to lower case, holds one of
    the phrases of an access denial (region not supported, api key not
    valid), in which case the run stops at once as for a denial; it is never
    taken for an unsupported location. *)
Theorem parse_failures_are_retried (m : string) (parsedData : Json) :
  (checkFormat parsedData = None ->
   exists e, attemptOnce (Parsed parsedData) = inl e /\ classify e = Retriable)
  /\ (exists e,
        attemptOnce (Unparseable m) = inl e
        /\ classify e <> LocationUnsupported
        /\ (classify e = AccessDenied
            <-> Js.includes (Js.toLowerCase m) "region not supported" = true
                \/ Js.includes (Js.toLowerCase m) "api key not valid" = true)).
Proof.
  split.
  - intros Hbad. unfold attemptOnce. rewrite Hbad.
    eexists. split; [reflexivity|]. vm_compute. reflexivity.
  - eexists. split; [reflexivity|].
    destruct (prefix_is_harmless m) as [H1 H2].
    unfold classify, newError. cbn [message status errorCode isPrimStr isPrimNum].
    rewrite H1, H2. cbn [orb andb].
    destruct (Js.includes (Js.toLowerCase m) "region not supported");
      destruct (Js.includes (Js.toLowerCase m) "api key not valid");
      cbn [orb]; split; try discriminate; intuition congruence.
Qed.

Lemma parse_failures_are_retried_witness :
  exists e,
    attemptOnce (Parsed (JArray [JString "no pairs here"])) = inl e
    /\ classify e = Retriable.
Proof.
  exact (proj1 (parse_failures_are_retried EmptyString
                  (JArray [JString "no pairs here"])) eq_refl).
Defined.

(** X14.  The waits of one call to the service add up to 0, 1.5 or 4.5
    seconds according to whether one, two or three attempts were made, so
    never to more than 4.5 seconds; with nothing to send there is no wait. *)
Theorem service_wait_is_bounded (endpoint : Endpoint) (text : string)
  (images : option (list string)) :
  0 <= serviceWait (snd (generateQuestionsAndAnswers endpoint text images))
       <= 4500
  /\ serviceWait (snd (generateQuestionsAndAnswers endpoint text images))
     = match calls (snd (generateQuestionsAndAnswers endpoint text images)) with
       | 3 => 4500
       | 2 => 1500
       | _ => 0
       end.
Proof.
  unfold generateQuestionsAndAnswers.
  destruct (blank text images); [simpl; split; [lia|reflexivity]|].
  destruct (retryLoop_policy endpoint) as (k & Hk & Hcalls & Htrace & _).
  rewrite Hcalls, Htrace. unfold MAX_RETRIES in Hk.
  assert (k = 1 \/ k = 2 \/ k = 3) as [-> | [-> | ->]] by lia;
    vm_compute; split; try split; congruence.
Qed.

End GeminiMore.

(** ** More on the export *)

Module DatasetMore.
Import Dataset Spec More StringProps DatasetProps.

Lemma concat_nil_iff {A : Type} (l : list (list A)) :
  List.concat l = [] <-> Forall (fun x => x = []) l.
Proof.
  induction l as [|x l IH]; simpl.
  - split; [constructor|reflexivity].
  - split.
    + intros H. apply app_eq_nil in H as [-> H]. constructor; [reflexivity|].
      now apply IH.
    + intros H. apply Forall_cons_iff in H as [-> H]. simpl. now apply IH.
Qed.

(** X15.  The export offers a file exactly when some cache entry holds a
    pair.  Otherwise it sets the nothing-to-save error and offers no file;
    this happens in particular when the cache has entries that are all empty,
    although the save button is then enabled.  In both cases the chunk list
    and the cache are left as they were. *)
Theorem export_needs_a_pair (s : AppState) :
  (snd (handleSaveAllQa s) = None
   <-> Forall (fun e => snd e = []) (qaCache s))
  /\ (snd (handleSaveAllQa s) = None ->
      appError (fst (handleSaveAllQa s))
      = Some "No Q&A pairs have been generated to save.")
  /\ (snd (handleSaveAllQa s) <> None -> fst (handleSaveAllQa s) = s)
  /\ qaCache (fst (handleSaveAllQa s)) = qaCache s
  /\ chunks (fst (handleSaveAllQa s)) = chunks s
  /\ (qaCache s <> [] -> Content.canSave s = true).
Proof.
  unfold handleSaveAllQa.
  assert (Hnil : allPairs s = [] <-> Forall (fun e => snd e = []) (qaCache s)).
  { unfold allPairs, Cache.values. rewrite concat_nil_iff, Forall_map. tauto. }
  destruct (allPairs s) as [|p ps] eqn:E; cbn [fst snd].
  - split; [split; [intros _; now apply Hnil|reflexivity]|].
    repeat split; try contradiction.
    intros Hne. unfold Content.canSave, Js.length.
    destruct (qaCache s); [contradiction|reflexivity].
  - split.
    { split; [discriminate|]. intros H. apply Hnil in H. discriminate. }
    split; [discriminate|]. repeat split.
    intros Hne. unfold Content.canSave, Js.length.
    destruct (qaCache s); [contradiction|reflexivity].
Qed.


Lemma export_needs_a_pair_witness :
  let s := setQaCache [(1, [])] (loaded "doc.pdf" Examples.plainPdf) in
  Content.canSave s = true /\ snd (handleSaveAllQa s) = None.
Proof.
  intros s.
  destruct (export_needs_a_pair s) as (Hnone & _ & _ & _ & _ & Hsave).
  split; [apply Hsave; discriminate|]. apply Hnone. repeat constructor.
Defined.

(** *** Reading the dataset back *)

Lemma stripPrefix_app (p s : string) : stripPrefix p (p ++ s) = Some s.
Proof.
  induction p as [|c p IH]; simpl; [reflexivity|].
  now rewrite Ascii.eqb_refl.
Qed.

Lemma unquoteBody_quoteBody (s rest : string) :
  unquoteBody (Js.quoteBody s ++ String Js.dquote rest) = Some (s, rest).
Proof.
  induction s as [|c s IH]; [reflexivity|].
  cbn [Js.quoteBody]. rewrite append_assoc.
  remember (Js.quoteBody s ++ String Js.dquote rest)%string as t eqn:Et.
  clear Et.
  destruct c as [b0 b1 b2 b3 b4 b5 b6 b7].
  destruct b0, b1, b2, b3, b4, b5, b6, b7;
    simpl; rewrite IH; reflexivity.
Qed.

Lemma stringify_app (x r : string) :
  (Js.stringify x ++ r)%string
  = String Js.dquote (Js.quoteBody x ++ String Js.dquote r).
Proof.
  unfold Js.stringify. cbn [append]. now rewrite append_assoc.
Qed.

Lemma snoc_assoc (a : string) (c : ascii) (r : string) :
  (a ++ String c r)%string = ((a ++ String c EmptyString) ++ r)%string.
Proof. now rewrite append_assoc. Qed.

Lemma parseLine_jsonLine (p : QAPair) : parseLine (jsonLine p) = Some p.
Proof.
  unfold jsonLine. rewrite !stringify_app.
  rewrite (snoc_assoc (Js.dq "{'messages':[{'role':'user','content':") Js.dquote).
  rewrite (snoc_assoc (Js.dq "},{'role':'model','content':") Js.dquote).
  unfold parseLine.
  change (Js.dq "{'messages':[{'role':'user','content':"
            ++ String Js.dquote EmptyString)%string
    with (Js.dq "{'messages':[{'role':'user','content':'").
  change (Js.dq "},{'role':'model','content':"
            ++ String Js.dquote EmptyString)%string
    with (Js.dq "},{'role':'model','content':'").
  rewrite stripPrefix_app, unquoteBody_quoteBody.
  rewrite stripPrefix_app, unquoteBody_quoteBody.
  now destruct p.
Qed.

Lemma splitLines_one_line (s : string) :
  lineBreaks s = 0 -> splitLines s = [s].
Proof.
  assert (Hpos : forall t, 0 <= lineBreaks t).
  { induction t as [|c t IH]; simpl; [lia|]. destruct (Js.code c =? 10); lia. }
  induction s as [|c s IH]; simpl; [reflexivity|].
  pose proof (Hpos s). destruct (Js.code c =? 10); [lia|].
  intros H0. rewrite IH by lia. reflexivity.
Qed.

Lemma splitLines_next (a b : string) :
  lineBreaks a = 0 ->
  splitLines (a ++ Js.LF ++ b) = a :: splitLines b.
Proof.
  assert (Hpos : forall t, 0 <= lineBreaks t).
  { induction t as [|c t IH]; simpl; [lia|]. destruct (Js.code c =? 10); lia. }
  change (Js.LF ++ b)%string with (String (Js.chr 10) b).
  induction a as [|c a IH]; cbn [append splitLines lineBreaks];
    [reflexivity|].
  pose proof (Hpos a). destruct (Js.code c =? 10); [lia|].
  intros H0. rewrite IH by lia. reflexivity.
Qed.

Lemma splitLines_join (lines : list string) :
  lines <> [] -> Forall (fun l => lineBreaks l = 0) lines ->
  splitLines (Js.join Js.LF lines) = lines.
Proof.
  induction lines as [|x [|y l] IH]; intros Hne Hall; [contradiction| |].
  - apply Forall_cons_iff in Hall as [Hx _]. now apply splitLines_one_line.
  - apply Forall_cons_iff in Hall as [Hx Hl].
    change (Js.join Js.LF (x :: y :: l))
      with (x ++ Js.LF ++ Js.join Js.LF (y :: l))%string.
    rewrite splitLines_next by exact Hx.
    now rewrite IH by (discriminate || assumption).
Qed.

Lemma parseLines_jsonLines (pairs : list QAPair) :
  parseLines (map jsonLine pairs) = Some pairs.
Proof.
  induction pairs as [|p l IH]; simpl; [reflexivity|].
  now rewrite parseLine_jsonLine, IH.
Qed.

Lemma readDataset_export (pairs : list QAPair) :
  pairs <> [] ->
  readDataset (Js.join Js.LF (map jsonLine pairs)) = Some pairs.
Proof.
  intros Hne. unfold readDataset.
  rewrite splitLines_join.
  - apply parseLines_jsonLines.
  - now destruct pairs.
  - apply Forall_forall. intros l Hl. apply in_map_iff in Hl as (p & <- & _).
    apply jsonLine_one_line.
Qed.

(** X16.  The export loses nothing: the file offered reads back, line by
    line, as exactly the cached pairs in the order they were written out, so
    two states whose exports have the same content hold the same pairs. *)
Theorem export_reads_back (s : AppState) (d : Download) :
  snd (handleSaveAllQa s) = Some d ->
  readDataset (content d) = Some (allPairs s)
  /\ forall s' d',
       snd (handleSaveAllQa s') = Some d' ->
       content d' = content d ->
       allPairs s' = allPairs s.
Proof.
  assert (Hread : forall st dl,
             snd (handleSaveAllQa st) = Some dl ->
             readDataset (content dl) = Some (allPairs st)).
  { intros st dl. unfold handleSaveAllQa.
    destruct (allPairs st) as [|p ps] eqn:E; [discriminate|].
    cbn [snd]. intros Hd. injection Hd as Hd. rewrite <- Hd.
    cbn [content]. now apply (readDataset_export (p :: ps)). }
  intros H. split; [now apply Hread|].
  intros s' d' H' Hc.
  apply Hread in H, H'. rewrite Hc in H'. congruence.
Qed.

Lemma export_reads_back_witness :
  option_map (fun d => readDataset (content d))
    (snd (handleSaveAllQa Examples.outOfOrder))
  = Some (Some (allPairs Examples.outOfOrder)).
Proof.
  destruct (snd (handleSaveAllQa Examples.outOfOrder)) as [d|] eqn:E.
  - simpl. f_equal.
    exact (proj1 (export_reads_back Examples.outOfOrder d E)).
  - vm_compute in E. discriminate E.
Defined.

End DatasetMore.

(** ** Loading a file *)

Module UploadProps.
Import Upload Content Spec More StringProps.

Lemma nonblank_iff (str : string) :
  (0 <? Z.of_nat (String.length (Js.trim str))) = true
  <-> allWhiteSpace str = false.
Proof.
  rewrite <- not_true_iff_false, <- trim_empty_iff.
  destruct (Js.trim str); simpl; split; try easy; intros H; now exfalso.
Qed.

(** X17.  Picking a PDF that reads and parses replaces the whole session:
    the application state is that of a document just loaded (no chunk, id
    counter at 1, empty cache, no error, outline flag computed from the
    document), whatever chunks, cache and error were there before; the bytes
    are kept, parsing is over, and the document counts as text based exactly
    when it has a page and some text item of page 1 has a character that is
    not white space. *)
Theorem upload_replaces_session (parse : Parser) (f : File) (sh : Shell)
  (buffer : list Byte.byte) (pdf : PDFDocumentProxy) (texts : PageTexts) :
  type f = "application/pdf" ->
  bytes f = Some buffer ->
  parse buffer = inr (pdf, texts) ->
  app (handleFileChange parse (Some f) sh)
  = setIsAutoSplitting (isAutoSplitting (app sh)) (loaded (name f) pdf)
  /\ pdfArrayBuffer (handleFileChange parse (Some f) sh) = Some buffer
  /\ isParsing (handleFileChange parse (Some f) sh) = false
  /\ isTextBased (handleFileChange parse (Some f) sh)
     = Some (textFound pdf texts)
  /\ (textFound pdf texts = true
      <-> 0 < numPages pdf
          /\ exists items str,
               texts 1 = Some items /\ In str items
               /\ allWhiteSpace str = false).
Proof.
  intros Htype Hbytes Hparse. unfold handleFileChange.
  rewrite Htype, Hbytes, String.eqb_refl. cbn [negb]. rewrite Hparse.
  split; [reflexivity|]. split; [reflexivity|].
  split; [reflexivity|]. split; [reflexivity|].
  unfold textFound. destruct (Z.ltb_spec 0 (numPages pdf)) as [Hn|Hn].
  - destruct (texts 1) as [items|].
    + rewrite existsb_exists. split.
      * intros (str & Hin & Hs). split; [exact Hn|].
        exists items, str. repeat split; try assumption. now apply nonblank_iff.
      * intros (_ & l & str & [= <-] & Hin & Hs).
        exists str. split; [exact Hin|now apply nonblank_iff].
    + split; [discriminate|intros (_ & l & str & [=] & _)].
  - split; [discriminate|intros [H _]; lia].
Qed.

Lemma upload_replaces_session_witness :
  let before :=
    mkShell (Chunks.addChunk 1 2 (loaded "old.pdf" Examples.plainPdf))
      None false (Some true) in
  chunks (app (handleFileChange
                 (fun _ => inr (Examples.brokenPdf, fun _ => Some ["text"]))
                 (Some (mkFile "new.pdf" "application/pdf" (Some [])))
                 before)) = []
  /\ hasOutline (app (handleFileChange
                        (fun _ => inr (Examples.brokenPdf, fun _ => Some ["text"]))
                        (Some (mkFile "new.pdf" "application/pdf" (Some [])))
                        before)) = Some true.
Proof.
  intros before.
  destruct (upload_replaces_session
              (fun _ => inr (Examples.brokenPdf, fun _ => Some ["text"]))
              (mkFile "new.pdf" "application/pdf" (Some [])) before
              [] Examples.brokenPdf (fun _ => Some ["text"])
              eq_refl eq_refl eq_refl) as (Happ & _).
  rewrite Happ. split; reflexivity.
Defined.

(** X18.  What a failed upload leaves.  A PDF that does not parse leaves
    exactly the state of a reset: the message of the parse error is set and
    then cleared by the reset that follows, so no error is shown.  A file
    that cannot be read keeps its name, with the read error shown and
    everything else reset.  A file that is not a PDF, or no file, shows the
    invalid-file error and drops the file name and the document but leaves
    the chunk list, the id counter and the cache as they were. *)
Theorem failed_upload (parse : Parser) (sh : Shell) :
  (forall f buffer message,
      type f = "application/pdf" -> bytes f = Some buffer ->
      parse buffer = inl message ->
      handleFileChange parse (Some f) sh
      = setIsParsing false (resetStateForNewFile sh)
      /\ appError (app (handleFileChange parse (Some f) sh)) = None)
  /\ (forall f,
        type f = "application/pdf" -> bytes f = None ->
        appError (app (handleFileChange parse (Some f) sh))
        = Some "Failed to read file."
        /\ fileName (app (handleFileChange parse (Some f) sh)) = Some (name f)
        /\ pdfDoc (app (handleFileChange parse (Some f) sh)) = None
        /\ chunks (app (handleFileChange parse (Some f) sh)) = []
        /\ qaCache (app (handleFileChange parse (Some f) sh)) = [])
  /\ (forall selected,
        match selected with
        | Some f => type f <> "application/pdf"
        | None => True
        end ->
        appError (app (handleFileChange parse selected sh))
        = Some "Please select a valid PDF file."
        /\ fileName (app (handleFileChange parse selected sh)) = None
        /\ pdfDoc (app (handleFileChange parse selected sh)) = None
        /\ chunks (app (handleFileChange parse selected sh)) = chunks (app sh)
        /\ nextChunkId (app (handleFileChange parse selected sh))
           = nextChunkId (app sh)
        /\ qaCache (app (handleFileChange parse selected sh))
           = qaCache (app sh)).
Proof.
  split; [|split].
  - intros f buffer message Htype Hbytes Hparse. unfold handleFileChange.
    rewrite Htype, Hbytes, String.eqb_refl. cbn [negb]. rewrite Hparse.
    destruct sh as [[? ? ? ? ? ? ? ? ? ? ?] ? ? ?]. vm_compute.
    split; reflexivity.
  - intros f Htype Hbytes. unfold handleFileChange.
    rewrite Htype, Hbytes, String.eqb_refl. cbn [negb]. repeat split.
  - intros [f|] Hsel; unfold handleFileChange; [|repeat split].
    apply String.eqb_neq in Hsel. rewrite Hsel. cbn [negb]. repeat split.
Qed.

Lemma failed_upload_witness :
  appError
    (app (handleFileChange (fun _ => inl "Invalid PDF structure.")
            (Some (mkFile "bad.pdf" "application/pdf" (Some [])))
            (mkShell (loaded "old.pdf" Examples.plainPdf) None false None)))
  = None
  /\ chunks
       (app (handleFileChange (fun _ => inl "Invalid PDF structure.")
               (Some (mkFile "notes.txt" "text/plain" (Some [])))
               (mkShell (Chunks.addChunk 1 2 (loaded "old.pdf" Examples.plainPdf))
                  None false None)))
     = [mkChunk 1 1 2 None].
Proof.
  split.
  - destruct (failed_upload (fun _ => inl "Invalid PDF structure.")
                (mkShell (loaded "old.pdf" Examples.plainPdf) None false None))
      as (Hparse & _).
    exact (proj2 (Hparse (mkFile "bad.pdf" "application/pdf" (Some [])) []
                    "Invalid PDF structure." eq_refl eq_refl eq_refl)).
  - destruct (failed_upload (fun _ => inl "Invalid PDF structure.")
                (mkShell (Chunks.addChunk 1 2 (loaded "old.pdf" Examples.plainPdf))
                   None false None))
      as (_ & _ & Hinvalid).
    destruct (Hinvalid (Some (mkFile "notes.txt" "text/plain" (Some [])))
                ltac:(discriminate)) as (_ & _ & _ & Hc & _).
    rewrite Hc. reflexivity.
Defined.

End UploadProps.
